(** * responses: a shallow embedding of the interception-and-matching engine

    The development follows [responses/__init__.py]: text helpers and URL
    normalisation first, then body materialisation, the responder classes,
    and finally the [RequestsMock] controller with its dispatch algorithm.

    Python values are modelled as follows.
    - [str] is a list of Unicode code points ([Z]); [ord] is the identity.
    - objects that are mutated in place and shared by reference (responders)
      live in an object store indexed by address; the registry holds
      addresses.
    - a call that may raise returns a [result].
    - what the module only calls and does not define (the [re] engine,
      [urllib3]'s [parse_url] and [Retry], the real transport, the state
      user callbacks work on) is a member of the class [Platform]; the
      standard-library functions it computes with ([urlsplit], [quote],
      the punycode codec, [BytesIO]) are modelled. *)

From Stdlib Require Import ZArith Lia Bool String Ascii DecimalString.
From stdpp Require Import base option list.

Local Open Scope Z_scope.

(** ** Python text *)

Abbreviation str := (list Z).

(** An ASCII literal as a [str]. *)
Definition lit (s : string) : str :=
  map (fun a => Z.of_nat (nat_of_ascii a)) (list_ascii_of_string s).
Arguments lit s%_string.

Definition str_eqb (a b : str) : bool := bool_decide (a = b).

Fixpoint startswith (s p : str) {struct p} : bool :=
  match p, s with
  | [], _ => true
  | c :: p', d :: s' => (c =? d) && startswith s' p'
  | _ :: _, [] => false
  end.

(** [s.split(sep)] for a one-character separator. *)
Fixpoint split_on (sep : Z) (s : str) : list str :=
  match s with
  | [] => [[]]
  | c :: s' =>
      if c =? sep then [] :: split_on sep s'
      else match split_on sep s' with
           | w :: ws => (c :: w) :: ws
           | [] => [[c]]
           end
  end.

(** [sep.join(parts)]. *)
Fixpoint join (sep : str) (parts : list str) : str :=
  match parts with
  | [] => []
  | [w] => w
  | w :: ws => w ++ sep ++ join sep ws
  end.

(** [s.split(sep, 1)] when [sep] occurs in [s]; [None] when it does not. *)
Fixpoint split_first (sep : Z) (s : str) : option (str * str) :=
  match s with
  | [] => None
  | c :: s' =>
      if c =? sep then Some ([], s')
      else match split_first sep s' with
           | Some (a, b) => Some (c :: a, b)
           | None => None
           end
  end.

Definition is_ascii_alpha (c : Z) : bool :=
  ((65 <=? c) && (c <=? 90)) || ((97 <=? c) && (c <=? 122)).

Definition is_digit (c : Z) : bool := (48 <=? c) && (c <=? 57).

Definition lower_char (c : Z) : Z :=
  if (65 <=? c) && (c <=? 90) then c + 32 else c.

(** ** [_has_unicode] *)

(** [any(ord(char) > 128 for char in s)] *)
Definition _has_unicode (s : str) : bool :=
  existsb (fun char => 128 <? char) s.

(** ** The parts of [urllib.parse] the module calls

    These follow the CPython implementation where it returns a result and
    leaves the text alone.  Outside the model are the inputs on which
    [urlsplit] changes the text or raises [ValueError], and [quote]
    raises [UnicodeEncodeError]:
    - characters at or below U+0020, which [urlsplit] strips from the
      ends of the URL (and tab, carriage return and line feed anywhere);
    - an authority with a bracket, which [urlsplit] validates as an IP
      literal ("http://[::1" raises);
    - a non-ASCII authority, which must pass the NFKC check
      ("http://ex\u2100mple.com/" raises);
    - a lone surrogate, which [quote] cannot encode as UTF-8.
    The predicates [splittable] and [scalar_value] below name the
    complement; properties stated for every URL hold of these
    definitions, and of the code on that complement. *)

Module urllib.

Record SplitResult := mkSplit {
  scheme : str; netloc : str; path : str; query : str; fragment : str }.

Definition scheme_char (c : Z) : bool :=
  is_ascii_alpha c || is_digit c || (c =? 43) || (c =? 45) || (c =? 46).

(** The scheme, when the text before the first [:] is one. *)
Definition split_scheme (url : str) : str * str :=
  match split_first 58 url with
  | Some (c :: pre, rest) =>
      if is_ascii_alpha c && forallb scheme_char (c :: pre)
      then (map lower_char (c :: pre), rest)
      else ([], url)
  | _ => ([], url)
  end.

(** [_splitnetloc(url, 2)]: the authority runs to the first of [/?#]. *)
Fixpoint take_netloc (s : str) : str * str :=
  match s with
  | [] => ([], [])
  | c :: s' =>
      if (c =? 47) || (c =? 63) || (c =? 35) then ([], s)
      else let '(n, r) := take_netloc s' in (c :: n, r)
  end.

Definition urlsplit (url : str) : SplitResult :=
  let '(sch, url) := split_scheme url in
  let '(net, url) :=
    match url with
    | 47 :: 47 :: rest => take_netloc rest
    | _ => ([], url)
    end in
  let '(url, frag) :=
    match split_first 35 url with
    | Some (a, b) => (a, b)
    | None => (url, [])
    end in
  let '(url, qry) :=
    match split_first 63 url with
    | Some (a, b) => (a, b)
    | None => (url, [])
    end in
  mkSplit sch net url qry frag.

Definition uses_netloc : list str :=
  [ lit ""; lit "ftp"; lit "http"; lit "gopher"; lit "nntp"; lit "telnet";
    lit "imap"; lit "wais"; lit "file"; lit "mms"; lit "https";
    lit "shttp"; lit "snews"; lit "prospero"; lit "rtsp"; lit "rtspu";
    lit "rsync"; lit "svn"; lit "svn+ssh"; lit "sftp"; lit "nfs";
    lit "git"; lit "git+ssh"; lit "ws"; lit "wss" ].

Definition truthy (s : str) : bool :=
  match s with [] => false | _ => true end.

Definition urlunsplit (p : SplitResult) : str :=
  let url := path p in
  let url :=
    if truthy (netloc p)
       || (truthy (scheme p)
           && existsb (str_eqb (scheme p)) uses_netloc
           && negb (startswith url (lit "//")))
    then
      let url :=
        if truthy url && negb (startswith url (lit "/"))
        then lit "/" ++ url else url in
      lit "//" ++ netloc p ++ url
    else url in
  let url := if truthy (scheme p) then scheme p ++ lit ":" ++ url else url in
  let url := if truthy (query p) then url ++ lit "?" ++ query p else url in
  if truthy (fragment p) then url ++ lit "#" ++ fragment p else url.

(** [urlunparse([scheme, netloc, path, None, None, None])]: with no
    params the path is kept and [urlunsplit] does the rest. *)
Definition urlunparse3 (sch net pth : str) : str :=
  urlunsplit (mkSplit sch net pth [] []).

(** *** [quote] of one character outside ASCII: its UTF-8 bytes, each
    written [%XX]. *)

Definition utf8 (c : Z) : list Z :=
  if c <? 128 then [c]
  else if c <? 2048 then [192 + c / 64; 128 + c mod 64]
  else if c <? 65536 then
    [224 + c / 4096; 128 + (c / 64) mod 64; 128 + c mod 64]
  else [240 + c / 262144; 128 + (c / 4096) mod 64;
        128 + (c / 64) mod 64; 128 + c mod 64].

Definition hex_digit (d : Z) : Z := if d <? 10 then 48 + d else 55 + d.

Definition always_safe (b : Z) : bool :=
  is_ascii_alpha b || is_digit b
  || (b =? 95) || (b =? 46) || (b =? 45) || (b =? 126) || (b =? 47).

Definition quote_byte (b : Z) : str :=
  if always_safe b then [b] else [37; hex_digit (b / 16); hex_digit (b mod 16)].

Definition quote (s : str) : str :=
  concat (map quote_byte (concat (map utf8 s))).

End urllib.

(** ** The [punycode] codec's encoder, as [str.encode("punycode")] runs it *)

Module punycode.

(** Sorted insertion without duplicates: [sorted(set(...))]. *)
Fixpoint insert_sorted (c : Z) (l : list Z) : list Z :=
  match l with
  | [] => [c]
  | d :: l' =>
      if c <? d then c :: l
      else if c =? d then l
      else d :: insert_sorted c l'
  end.

(** [segregate]: the basic code points in order, the others sorted. *)
Definition segregate (s : str) : str * list Z :=
  (List.filter (fun c => c <? 128) s,
   fold_right insert_sorted [] (List.filter (fun c => negb (c <? 128)) s)).

Definition selective_len (s : str) (max : Z) : Z :=
  Z.of_nat (length (List.filter (fun c => c <? max) s)).

(** The inner loop of [insertion_unsort] for one character [char]: every
    occurrence found by [selective_find] appends a delta. *)
Fixpoint occurrences (char : Z) (s : str) (index oldindex delta : Z)
    (result : list Z) : Z * list Z :=
  match s with
  | [] => (oldindex, result)
  | c :: s' =>
      if c =? char then
        occurrences char s' (index + 1) (index + 1) 0
          (result ++ [delta + (index + 1 - oldindex) - 1])
      else if c <? char then
        occurrences char s' (index + 1) oldindex delta result
      else occurrences char s' index oldindex delta result
  end.

Fixpoint insertion_unsort_from (s : str) (extended : list Z)
    (oldchar oldindex : Z) (result : list Z) : list Z :=
  match extended with
  | [] => result
  | char :: rest =>
      let curlen := selective_len s char in
      let delta := (curlen + 1) * (char - oldchar) in
      let '(oldindex, result) :=
        occurrences char s (-1) oldindex delta result in
      insertion_unsort_from s rest char oldindex result
  end.

Definition insertion_unsort (s : str) (extended : list Z) : list Z :=
  insertion_unsort_from s extended 128 (-1) [].

Definition T (j bias : Z) : Z :=
  let res := 36 * (j + 1) - bias in
  if res <? 1 then 1 else if 26 <? res then 26 else res.

Definition digit (d : Z) : Z := if d <? 26 then 97 + d else 22 + d.

(** The loop divides [N] by at least ten each round, so [fuel] rounds
    above the binary logarithm of [N] always reach the last digit. *)
Fixpoint generalized_integer_loop (fuel : nat) (N bias j : Z) : str :=
  let t := T j bias in
  if N <? t then [digit N]
  else match fuel with
       | O => []
       | S fuel' =>
           digit (t + (N - t) mod (36 - t))
           :: generalized_integer_loop fuel' ((N - t) / (36 - t)) bias (j + 1)
       end.

Definition generate_generalized_integer (N bias : Z) : str :=
  generalized_integer_loop (S (Z.to_nat (Z.log2 N))) N bias 0.

Fixpoint adapt_loop (fuel : nat) (delta divisions : Z) : Z * Z :=
  if 455 <? delta then
    match fuel with
    | O => (delta, divisions)
    | S fuel' => adapt_loop fuel' (delta / 35) (divisions + 36)
    end
  else (delta, divisions).

Definition adapt (delta : Z) (first : bool) (numchars : Z) : Z :=
  let delta := if first then delta / 700 else delta / 2 in
  let delta := delta + delta / numchars in
  let '(delta, divisions) :=
    adapt_loop (S (Z.to_nat (Z.log2 delta))) delta 0 in
  divisions + (36 * delta / (delta + 38)).

Fixpoint generate_integers_from (baselen points bias : Z)
    (deltas : list Z) : str :=
  match deltas with
  | [] => []
  | delta :: rest =>
      generate_generalized_integer delta bias
      ++ generate_integers_from baselen (points + 1)
           (adapt delta (points =? 0) (baselen + points + 1)) rest
  end.

Definition generate_integers (baselen : Z) (deltas : list Z) : str :=
  generate_integers_from baselen 0 72 deltas.

Definition punycode_encode (text : str) : str :=
  let '(base, extended) := segregate text in
  let deltas := insertion_unsort text extended in
  let extended := generate_integers (Z.of_nat (length base)) deltas in
  match base with
  | [] => extended
  | _ => base ++ lit "-" ++ extended
  end.

End punycode.

(** ** [_clean_unicode]

    The code calls [urlsplit] on the URL first and [quote] on every
    character above 128: where these raise (see [urllib] above) the
    exception leaves [_clean_unicode], and the definition below, which is
    total, does not describe the call. *)

Definition _clean_unicode (url : str) : str :=
  let urllist := urllib.urlsplit url in
  let netloc := urllib.netloc urllist in
  let url :=
    if _has_unicode netloc then
      let domains := split_on 46 netloc in
      let domains :=
        map (fun d => if _has_unicode d
                      then lit "xn--" ++ punycode.punycode_encode d
                      else d) domains in
      urllib.urlunsplit
        (urllib.mkSplit (urllib.scheme urllist) (join (lit ".") domains)
           (urllib.path urllist) (urllib.query urllist)
           (urllib.fragment urllist))
    else url in
  concat (map (fun x => if 128 <? x then urllib.quote [x] else [x]) url).

(** ** Exceptions and fallible calls *)

Inductive ExcType :=
| ConnectionError | MaxRetryError | AssertionError | AttributeError
| ValueError | RuntimeError | NotImplementedError
| OtherException (name : str).

Global Instance ExcType_eq_dec : EqDecision ExcType.
Proof. solve_decision. Defined.

(** A compiled regular expression, identified by its source text. *)
Record Pattern := mkPattern { pattern : str }.

Global Instance Pattern_eq_dec : EqDecision Pattern.
Proof. solve_decision. Defined.

(** [Union[Pattern[str], str]] *)
Inductive Url := UStr (u : str) | UPattern (p : Pattern).

Global Instance Url_eq_dec : EqDecision Url.
Proof. solve_decision. Defined.

(** ** Streams: [io.BytesIO] and [_handle_body] *)

(** A [BytesIO] owns a buffer and a read position until it is closed;
    closing releases the buffer, and [closed] is the absence of a buffer. *)
Inductive BytesIO := Open (buf : list Z) (pos : nat) | Closed.

(** A file the caller opened beforehand; its content stays outside the
    model. *)
Record BufferedReader := mkReader { fileno : nat }.

Module io.

Definition closed (data : BytesIO) : bool :=
  match data with Open _ _ => false | Closed => true end.

(** [data.read(n)] on an open file: the bytes read and the file with the
    position advanced.  (On a closed file [read] raises [ValueError];
    [is_closed] only reads after testing [closed].) *)
Definition read (data : BytesIO) (n : nat) : list Z * BytesIO :=
  match data with
  | Open buf pos =>
      let chunk := take n (drop pos buf) in
      (chunk, Open buf (pos + length chunk)%nat)
  | Closed => ([], Closed)
  end.

(** [data.seek(-k, 1)] on an open file; the position does not go below
    zero. *)
Definition seek_back (data : BytesIO) (k : nat) : BytesIO :=
  match data with
  | Open buf pos => Open buf (pos - k)%nat
  | Closed => Closed
  end.

Definition close (data : BytesIO) : BytesIO := Closed.

(** The bytes a reader can still obtain. *)
Definition unread (data : BytesIO) : list Z :=
  match data with
  | Open buf pos => drop pos buf
  | Closed => []
  end.

End io.

(** The [is_closed] closure that [_handle_body] installs as [data.isclosed].
    It returns the answer together with the stream as the call leaves it. *)
Definition is_closed (data : BytesIO) : bool * BytesIO :=
  (* if not data.closed and data.read(1): *)
  let '(more, data) :=
    if negb (io.closed data) then
      let '(chunk, data) := io.read data 1 in
      (match chunk with [] => false | _ => true end, data)
    else (false, data) in
  if more then
    (* if there is more bytes to read then keep open, but return pointer *)
    (false, io.seek_back data 1)
  else if negb (io.closed data) then
    (* close but return False to mock like is still opened *)
    (false, io.close data)
  else
    (* only if file really closed (by us) return True *)
    (true, data).

(** What [_handle_body] accepts and what it returns. *)
Inductive BodyData :=
| BodyStr (s : str)
| BodyBytes (b : list Z)
| BodyReader (r : BufferedReader)
| BodyNone.

Inductive BodyStream :=
| StreamReader (r : BufferedReader)
| StreamBytesIO (data : BytesIO).

(** [body.encode("utf-8")] *)
Definition encode_utf8 (s : str) : list Z := concat (map urllib.utf8 s).

Definition _handle_body (body : BodyData) : BodyStream :=
  match body with
  | BodyStr s => StreamBytesIO (Open (encode_utf8 s) 0)
  | BodyReader r => StreamReader r
  | BodyBytes b => StreamBytesIO (Open b 0)
  | BodyNone => StreamBytesIO (Open [] 0)
  end.

(** ** Requests and replies *)

(** A value of the derived [params] mapping: a single value, or the list of
    values of one group. *)
Inductive ParamValue := Single (v : str) | Multi (vs : list str).

Global Instance ParamValue_eq_dec : EqDecision ParamValue.
Proof. solve_decision. Defined.

(** A [dict] with [str] keys, in insertion order. *)
Definition dict (V : Type) := list (str * V).

Fixpoint dict_set {V} (d : dict V) (k : str) (v : V) : dict V :=
  match d with
  | [] => [(k, v)]
  | (k', v') :: d' =>
      if str_eqb k' k then (k', v) :: d' else (k', v') :: dict_set d' k v
  end.

Fixpoint dict_get {V} (d : dict V) (k : str) : option V :=
  match d with
  | [] => None
  | (k', v') :: d' => if str_eqb k' k then Some v' else dict_get d' k
  end.

(** [requests.PreparedRequest], with the two attributes the controller adds
    before matching ([None] until then). *)
Record PreparedRequest := mkRequest {
  req_method : str;
  req_url : str;
  req_headers : list (str * str);
  req_body : option (list Z);
  params : option (dict ParamValue);
  req_kwargs : option (dict str) }.

(** [request.path_url]: the path, or [/] when empty, and the query. *)
Definition path_url (request : PreparedRequest) : str :=
  let p := urllib.urlsplit (req_url request) in
  let path := if urllib.truthy (urllib.path p) then urllib.path p else lit "/" in
  if urllib.truthy (urllib.query p) then path ++ lit "?" ++ urllib.query p
  else path.

Inductive ExcArgs :=
| ArgsMessage (msg : str)
  (** [AssertionError("Not all requests have been executed {0!r}".format(l))],
      the list kept as a value *)
| ArgsNotExecuted (l : list (str * Url)).

Record Exn := mkExn {
  exc_type : ExcType;
  exc_args : ExcArgs;
  exc_request : option PreparedRequest }.

Inductive result (A : Type) := Ok (a : A) | Raise (e : Exn).
Arguments Ok {A} a.
Arguments Raise {A} e.

(** [urllib3]'s [HTTPHeaderDict]: lower-cased key to the key as first
    written and its values. *)
Definition HTTPHeaderDict := dict (str * list str).

Module HeaderDict.

Definition lower (k : str) : str := map lower_char k.

Definition contains (h : HTTPHeaderDict) (k : str) : bool :=
  bool_decide (is_Some (dict_get h (lower k))).

Definition setitem (h : HTTPHeaderDict) (k v : str) : HTTPHeaderDict :=
  dict_set h (lower k) (k, [v]).

Definition add (h : HTTPHeaderDict) (k v : str) : HTTPHeaderDict :=
  match dict_get h (lower k) with
  | Some (k0, vs) => dict_set h (lower k) (k0, vs ++ [v])
  | None => dict_set h (lower k) (k, [v])
  end.

Definition extend (h : HTTPHeaderDict) (other : list (str * str))
    : HTTPHeaderDict :=
  fold_left (fun h kv => add h (fst kv) (snd kv)) other h.

Definition pop (h : HTTPHeaderDict) (k : str) : HTTPHeaderDict :=
  List.filter (fun e => negb (str_eqb (fst e) (lower k))) h.

End HeaderDict.

(** Headers given by the caller: a mapping or a list of pairs. *)
Inductive HeaderSet := HDict (d : dict str) | HList (l : list (str * str)).

Definition header_items (h : HeaderSet) : list (str * str) :=
  match h with HDict d => d | HList l => l end.

(** [urllib3.HTTPResponse] as [get_response] builds it. *)
Record HTTPResponse := mkHTTPResponse {
  status : Z;
  body_stream : BodyStream;
  http_headers : HTTPHeaderDict }.

(** [requests.Response] as [adapter.build_response] builds it. *)
Record Response := mkResponse {
  status_code : Z;
  resp_url : str;
  resp_request : PreparedRequest;
  raw : HTTPResponse }.

Definition build_response (request : PreparedRequest) (resp : HTTPResponse)
    : Response :=
  mkResponse (status resp) (req_url request) request resp.

(** [Call = namedtuple("Call", ["request", "response"])]; the response slot
    holds the reply or the exception that was raised. *)
Record Call := mkCall {
  call_request : PreparedRequest;
  call_response : result Response }.

(** [CallList] *)
Module CallList.
Definition t := list Call.
Definition add (calls : t) (request : PreparedRequest)
    (response : result Response) : t :=
  calls ++ [mkCall request response].
Definition reset (calls : t) : t := [].
End CallList.

(** A responder body: [Union[str, BaseException, BufferedReader, bytes]]. *)
Inductive Body := BData (d : BodyData) | BExc (e : Exn).

(** [bool(body)] *)
Definition body_truthy (b : Body) : bool :=
  match b with
  | BData (BodyStr s) => urllib.truthy s
  | BData (BodyBytes l) => match l with [] => false | _ => true end
  | BData (BodyReader _) => true
  | BData BodyNone => false
  | BExc _ => true
  end.

(** A matcher: [request -> (valid, reason)]. *)
Definition Matcher := PreparedRequest -> bool * str.

(** [match_querystring]: [None], a [bool], or a [FalseBool()]. *)
Inductive MatchQuerystring := MQNone | MQBool (b : bool) | MQFalseBool.

(** [content_type]: [_UNSET], or a value (which may be [None]). *)
Inductive ContentTypeArg := UNSET | Given (ct : option str).

(** What a callback returns: an exception instance, or the triple
    [(status, headers, body)]. *)
Inductive CallbackResult :=
| CbExc (e : Exn)
| CbTuple (cb_status : Z) (r_headers : HeaderSet) (cb_body : Body).

(** Decimal text of a length: [str(content_length)]. *)
Definition str_of_nat (n : nat) : str :=
  lit (NilEmpty.string_of_uint (Nat.to_uint n)).

(** ** What the module takes from its environment

    [World] is the state outside the mock that user callbacks and the real
    transport may read and change.  [Retry] is [urllib3]'s retry policy with
    the three members [_on_request] uses; [increment] returns the next
    policy or raises.  [HTTPAdapter] is the transport adapter, [_real_send]
    the unpatched [HTTPAdapter.send].  [parse_url_url u] is
    [parse_url(u).url] of [urllib3], on the URLs [parse_url] accepts: it
    raises [LocationParseError] on others (a host label that is not valid
    IDNA, for one), and that exception leaves the URL check. *)
Class Platform := {
  World : Type;
  Retry : Type;
  HTTPAdapter : Type;
  Json : Type;
  re_match : Pattern -> str -> bool;
  pattern_str : Pattern -> str;
  parse_url_url : str -> str;
  parse_qsl : str -> list (str * str);
  json_dumps : Json -> str;
  _query_string_matcher : str -> Matcher;
  is_retry : Retry -> str -> Z -> bool;
  increment : Retry -> str -> str -> Response -> result Retry;
  raise_on_status : Retry -> bool;
  max_retries : HTTPAdapter -> Retry;
  _real_send : HTTPAdapter -> PreparedRequest -> dict str ->
               World -> World * result Response }.

Section Responders.

Context `{P : Platform}.

Definition Callback : Type :=
  PreparedRequest -> World -> World * result CallbackResult.

(** The reply strategy, one constructor per class: [Response],
    [CallbackResponse], [PassthroughResponse], and the bare
    [BaseResponse] whose [get_response] is not implemented. *)
Inductive Strategy :=
| Static (body : Body) (status : Z) (auto_calculate_content_length : bool)
| Dynamic (callback : Callback)
| Passthrough
| Bare.

Record BaseResponse := mkBaseResponse {
  method : str;
  url : Url;
  match_ : list Matcher;
  call_count : Z;
  content_type : option str;
  headers : option HeaderSet;
  stream : option bool;
  strategy : Strategy }.

Definition passthrough (r : BaseResponse) : bool :=
  match strategy r with Passthrough => true | _ => false end.

(** *** URL helpers

    Both helpers call [urlsplit]; where it raises [ValueError] (see
    [urllib] above) so do they, and the definitions below, which are
    total, do not describe the call. *)

Definition _ensure_url_default_path (url : Url) : Url :=
  match url with
  | UStr u =>
      let url_parts := urllib.urlsplit u in
      if str_eqb (urllib.path url_parts) (lit "")
      then UStr (urllib.urlunsplit
                   (urllib.mkSplit (urllib.scheme url_parts)
                      (urllib.netloc url_parts) (lit "/")
                      (urllib.query url_parts) (urllib.fragment url_parts)))
      else UStr u
  | UPattern p => UPattern p
  end.

Definition _get_url_and_path (url : str) : str :=
  let url_parsed := urllib.urlsplit url in
  let url_and_path :=
    urllib.urlunparse3 (urllib.scheme url_parsed) (urllib.netloc url_parsed)
      (urllib.path url_parsed) in
  parse_url_url url_and_path.

(** *** [BaseResponse] *)

Definition _should_match_querystring (u : Url)
    (match_querystring_argument : MatchQuerystring) : bool :=
  match u with
  | UPattern _ => false
  | UStr u =>
      match match_querystring_argument with
      | MQBool b => b
      | MQFalseBool => false
      | MQNone => urllib.truthy (urllib.query (urllib.urlsplit u))
      end
  end.

Definition url_query (u : Url) : str :=
  match u with
  | UStr u => urllib.query (urllib.urlsplit u)
  | UPattern _ => []
  end.

(** [BaseResponse.__init__]; the class attributes keep their defaults. *)
Definition BaseResponse__init__ (meth : str) (u : Url)
    (match_querystring : MatchQuerystring) (matchers : list Matcher)
    : BaseResponse :=
  let u := _ensure_url_default_path u in
  let matchers :=
    if _should_match_querystring u match_querystring
    then matchers ++ [_query_string_matcher (url_query u)]
    else matchers in
  mkBaseResponse meth u matchers 0 None None None Bare.

Definition url_text (u : Url) : str :=
  match u with UStr s => s | UPattern p => pattern p end.

(** [BaseResponse.__eq__] *)
Definition eq_response (self other : BaseResponse) : bool :=
  if negb (str_eqb (method self) (method other)) then false
  else str_eqb (url_text (url self)) (url_text (url other)).

Definition _url_matches (u : Url) (other : str) : bool :=
  match u with
  | UStr u =>
      let u := if _has_unicode u then _clean_unicode u else u in
      str_eqb (_get_url_and_path u) (_get_url_and_path other)
  | UPattern p => re_match p other
  end.

Fixpoint _req_attr_matches (matchers : list Matcher)
    (request : PreparedRequest) : bool * str :=
  match matchers with
  | [] => (true, lit "")
  | matcher :: rest =>
      let '(valid, reason) := matcher request in
      if negb valid then (false, reason)
      else _req_attr_matches rest request
  end.

Definition matches (self : BaseResponse) (request : PreparedRequest)
    : bool * str :=
  if negb (str_eqb (req_method request) (method self))
  then (false, lit "Method does not match")
  else if negb (_url_matches (url self) (req_url request))
  then (false, lit "URL does not match")
  else
    let '(valid, reason) := _req_attr_matches (match_ self) request in
    if negb valid then (false, reason) else (true, lit "").

Definition get_headers (self : BaseResponse) : HTTPHeaderDict :=
  let headers_ : HTTPHeaderDict := [] in
  let headers_ :=
    match content_type self with
    | Some ct => HeaderDict.setitem headers_ (lit "Content-Type") ct
    | None => headers_
    end in
  match headers self with
  | Some h =>
      match header_items h with
      | [] => headers_
      | items => HeaderDict.extend headers_ items
      end
  | None => headers_
  end.

(** *** [Response.__init__]

    The constructor raises [AssertionError] when both [json] and a body
    are given.  It also passes on what [urlsplit] raises for the URL
    ([BaseResponse.__init__] calls [_ensure_url_default_path]) and what
    [json.dumps] raises for a value it cannot serialise; the model takes
    a URL [urlsplit] accepts and a serialisable [json]. *)

Record ResponseArgs := mkArgs {
  arg_body : Body;
  arg_json : option Json;
  arg_status : Z;
  arg_headers : option HeaderSet;
  arg_stream : option bool;
  arg_content_type : ContentTypeArg;
  arg_auto_calculate_content_length : bool;
  arg_match_querystring : MatchQuerystring;
  arg_match : list Matcher }.

Definition assertion_error : Exn :=
  mkExn AssertionError (ArgsMessage (lit "")) None.

(** The body and content type that [Response.__init__] settles on. *)
Definition init_body_and_content_type (a : ResponseArgs)
    : result (Body * option str) :=
  (* if we were passed a `json` argument, override the body and
     content_type *)
  let step1 : result (Body * ContentTypeArg) :=
    match arg_json a with
    | Some json =>
        if body_truthy (arg_body a) then Raise assertion_error
        else
          Ok (BData (BodyStr (json_dumps json)),
              match arg_content_type a with
              | UNSET => Given (Some (lit "application/json"))
              | ct => ct
              end)
    | None => Ok (arg_body a, arg_content_type a)
    end in
  match step1 with
  | Raise e => Raise e
  | Ok (body, content_type) =>
      Ok (body,
          match content_type with
          | UNSET =>
              match body with
              | BData (BodyStr s) =>
                  if _has_unicode s
                  then Some (lit "text/plain; charset=utf-8")
                  else Some (lit "text/plain")
              | _ => Some (lit "text/plain")
              end
          | Given ct => ct
          end)
  end.

Definition Response__init__ (meth : str) (u : Url) (a : ResponseArgs)
    : result BaseResponse :=
  match init_body_and_content_type a with
  | Raise e => Raise e
  | Ok (body, ct) =>
      let base :=
        BaseResponse__init__ meth u (arg_match_querystring a)
          (arg_match a) in
      Ok (mkBaseResponse (method base) (url base) (match_ base)
            (call_count base) ct (arg_headers a) (arg_stream a)
            (Static body (arg_status a)
               (arg_auto_calculate_content_length a)))
  end.

(** [CallbackResponse.__init__] *)
Definition CallbackResponse__init__ (meth : str) (u : Url)
    (callback : Callback) (strm : option bool) (ct : option str)
    (match_querystring : MatchQuerystring) (matchers : list Matcher)
    : BaseResponse :=
  let base := BaseResponse__init__ meth u match_querystring matchers in
  mkBaseResponse (method base) (url base) (match_ base) (call_count base)
    ct None strm (Dynamic callback).

End Responders.

Section Replies.

Context `{P : Platform}.

Definition not_implemented : Exn :=
  mkExn NotImplementedError (ArgsMessage (lit "")) None.

Definition buffer_length (s : BodyStream) : option nat :=
  match s with
  | StreamBytesIO (Open buf _) => Some (length buf)
  | _ => None
  end.

(** [Response.get_response] *)
Definition Response_get_response (self : BaseResponse) (body : Body)
    (status : Z) (auto_calculate_content_length : bool)
    : result HTTPResponse :=
  match body with
  | BExc e => Raise e
  | BData d =>
      let headers_ := get_headers self in
      let body := _handle_body d in
      let headers_ :=
        match buffer_length body with
        | Some content_length =>
            if auto_calculate_content_length
               && negb (HeaderDict.contains headers_ (lit "Content-Length"))
            then HeaderDict.setitem headers_ (lit "Content-Length")
                   (str_of_nat content_length)
            else headers_
        | None => headers_
        end in
      Ok (mkHTTPResponse status body headers_)
  end.

Definition has_content_type (r_headers : HeaderSet) : bool :=
  match r_headers with
  | HDict d => bool_decide (is_Some (dict_get d (lit "Content-Type")))
  | HList l =>
      existsb (fun h => str_eqb (HeaderDict.lower (fst h))
                          (lit "content-type")) l
  end.

(** [CallbackResponse.get_response] *)
Definition CallbackResponse_get_response (self : BaseResponse)
    (callback : Callback) (request : PreparedRequest) (w : World)
    : World * result HTTPResponse :=
  let headers_ := get_headers self in
  match callback request w with
  | (w, Raise e) => (w, Raise e)
  | (w, Ok (CbExc e)) => (w, Raise e)
  | (w, Ok (CbTuple status r_headers body)) =>
      match body with
      | BExc e => (w, Raise e)
      | BData d =>
          (* If the callback set a content-type remove the one set in
             add_callback() so that we don't have multiple content type
             values. *)
          let headers_ :=
            if has_content_type r_headers
            then HeaderDict.pop headers_ (lit "Content-Type")
            else headers_ in
          let body := _handle_body d in
          let headers_ := HeaderDict.extend headers_ (header_items r_headers) in
          (w, Ok (mkHTTPResponse status body headers_))
      end
  end.

Definition get_response (self : BaseResponse) (request : PreparedRequest)
    (w : World) : World * result HTTPResponse :=
  match strategy self with
  | Static body status auto =>
      (w, Response_get_response self body status auto)
  | Dynamic callback => CallbackResponse_get_response self callback request w
  | Passthrough | Bare => (w, Raise not_implemented)
  end.

End Replies.

(** ** The registry

    Responders are objects: the store maps an address to the object, and a
    registry lists addresses in registration order. *)

Abbreviation Store := (list BaseResponse).

Section Registries.

Context `{P : Platform}.


(** The object at an address; an address outside the store reads as a
    bare responder that nothing matches. *)
Definition null_response : BaseResponse :=
  mkBaseResponse [] (UStr []) [fun _ => (false, [])] 0 None None None Bare.

Definition deref (objects : Store) (a : nat) : BaseResponse :=
  default null_response (objects !! a).

(** The interface of a registry class, as [RequestsMock] uses it.  Each
    member works on the list of registered addresses; [find] and the
    members that compare responders read the store. *)
Record RegistryClass := mkRegistryClass {
  class_name : str;
  registry_add : list nat -> nat -> list nat;
  registry_remove : Store -> list nat -> BaseResponse -> list nat * list nat;
  registry_replace : Store -> list nat -> nat -> result (list nat);
  registry_find :
    Store -> list nat -> PreparedRequest ->
    list nat * (option nat * list str) }.

Record Registry := mkRegistry {
  registry_class : RegistryClass;
  registered_ : list nat }.

(** *** [FirstMatchRegistry] *)

(** Modelled from the spec: [FirstMatchRegistry.find] of
    [responses/registries.py], which is not among the sources.  "Linear
    scan in registration order; returns the first full match; for all
    non-matching responders, collects the specific mismatch reason; does
    not mutate the registry." *)
Fixpoint first_match (objects : Store) (responses : list nat)
    (request : PreparedRequest) : option nat * list str :=
  match responses with
  | [] => (None, [])
  | a :: rest =>
      let '(match_result, reason) := matches (deref objects a) request in
      let '(found, match_failed_reasons) := first_match objects rest request in
      if match_result then (Some a, match_failed_reasons)
      else (found, reason :: match_failed_reasons)
  end.

Definition FirstMatchRegistry_find (objects : Store) (responses : list nat)
    (request : PreparedRequest) : list nat * (option nat * list str) :=
  (responses, first_match objects responses request).

(** Modelled from the spec: [FirstMatchRegistry.add], "appends; no
    duplicate check". *)
Definition FirstMatchRegistry_add (responses : list nat) (response : nat)
    : list nat :=
  responses ++ [response].

(** Modelled from the spec: [FirstMatchRegistry.remove], "removes all
    responders whose (method, url) equal the criteria; returns the removed
    list". *)
Definition FirstMatchRegistry_remove (objects : Store)
    (responses : list nat) (response : BaseResponse)
    : list nat * list nat :=
  (List.filter (fun a => negb (eq_response (deref objects a) response))
     responses,
   List.filter (fun a => eq_response (deref objects a) response) responses).

Definition not_found : Exn :=
  mkExn ValueError (ArgsMessage (lit "Response is not registered for URL"))
    None.

(** Modelled from the spec: [FirstMatchRegistry.replace], "finds the first
    responder with matching (method, url), replaces it in place (same
    position); fails with a NotFound error if none exists".  [upsert]
    catches [ValueError], so that is the error. *)
Fixpoint replace_first (objects : Store) (responses : list nat)
    (response : nat) : option (list nat) :=
  match responses with
  | [] => None
  | a :: rest =>
      if eq_response (deref objects a) (deref objects response)
      then Some (response :: rest)
      else match replace_first objects rest response with
           | Some rest' => Some (a :: rest')
           | None => None
           end
  end.

Definition FirstMatchRegistry_replace (objects : Store)
    (responses : list nat) (response : nat) : result (list nat) :=
  match replace_first objects responses response with
  | Some responses' => Ok responses'
  | None => Raise not_found
  end.

Definition FirstMatchRegistry : RegistryClass :=
  mkRegistryClass (lit "FirstMatchRegistry")
    FirstMatchRegistry_add FirstMatchRegistry_remove
    FirstMatchRegistry_replace FirstMatchRegistry_find.

(** [registry()]: a new, empty instance of the class. *)
Definition new_registry (c : RegistryClass) : Registry := mkRegistry c [].

End Registries.

(** ** [RequestsMock] *)

Section Controller.

Context `{P : Platform}.

(** [response_callback] *)
Definition Hook : Type := Response -> World -> World * result Response.

(** The object [std_mock.patch(target=..., new=...)] returns.  Stopping a
    patcher that was not started raises. *)
Record Patcher := mkPatcher { patch_target : str; patch_started : bool }.

Definition patcher_start (p : Patcher) : Patcher :=
  mkPatcher (patch_target p) true.

Definition unstarted_patcher : Exn :=
  mkExn RuntimeError (ArgsMessage (lit "stop called on unstarted patcher"))
    None.

Definition patcher_stop (p : Patcher) : result Patcher :=
  if patch_started p then Ok (mkPatcher (patch_target p) false)
  else Raise unstarted_patcher.

(** The attributes of one [RequestsMock], preceded by what it shares with
    its callers: the responder objects and the outside world. *)
Record State := mkState {
  objects : Store;
  world : World;
  _calls : CallList.t;
  _registry : Registry;
  assert_all_requests_are_fired : bool;
  response_callback : option Hook;
  passthru_prefixes : list Url;
  target : str;
  _patcher : option Patcher }.

Definition set_objects (st : State) (o : Store) : State :=
  mkState o (world st) (_calls st) (_registry st)
    (assert_all_requests_are_fired st) (response_callback st)
    (passthru_prefixes st) (target st) (_patcher st).

Definition set_world (st : State) (w : World) : State :=
  mkState (objects st) w (_calls st) (_registry st)
    (assert_all_requests_are_fired st) (response_callback st)
    (passthru_prefixes st) (target st) (_patcher st).

Definition set_calls (st : State) (c : CallList.t) : State :=
  mkState (objects st) (world st) c (_registry st)
    (assert_all_requests_are_fired st) (response_callback st)
    (passthru_prefixes st) (target st) (_patcher st).

Definition set_registry (st : State) (r : Registry) : State :=
  mkState (objects st) (world st) (_calls st) r
    (assert_all_requests_are_fired st) (response_callback st)
    (passthru_prefixes st) (target st) (_patcher st).

Definition set_passthru_prefixes (st : State) (p : list Url) : State :=
  mkState (objects st) (world st) (_calls st) (_registry st)
    (assert_all_requests_are_fired st) (response_callback st) p
    (target st) (_patcher st).

Definition set_patcher (st : State) (p : option Patcher) : State :=
  mkState (objects st) (world st) (_calls st) (_registry st)
    (assert_all_requests_are_fired st) (response_callback st)
    (passthru_prefixes st) (target st) p.

Definition set_registered (st : State) (l : list nat) : State :=
  set_registry st (mkRegistry (registry_class (_registry st)) l).

(** [registered()] *)
Definition registered (st : State) : list nat := registered_ (_registry st).

(** [reset()] *)
Definition reset (st : State) : State :=
  let st := set_registry st (new_registry FirstMatchRegistry) in
  let st := set_calls st (CallList.reset (_calls st)) in
  set_passthru_prefixes st [].

(** [__init__]: the object store and the world are those of the caller. *)
Definition RequestsMock__init__ (o : Store) (w : World)
    (assert_all : bool) (callback : option Hook) (prefixes : list Url)
    (tgt : str) (registry : RegistryClass) : State :=
  let st :=
    reset (mkState o w [] (new_registry FirstMatchRegistry) assert_all
             callback prefixes tgt None) in
  let st := set_registry st (new_registry registry) in  (* only after reset *)
  set_passthru_prefixes st prefixes.

Definition cannot_replace_registry : Exn :=
  mkExn AttributeError
    (ArgsMessage
       (lit "Cannot replace Registry, current registry has responses."
        ++ [10] ++ lit "Run 'responses.registry.reset()' first")) None.

(** [_set_registry(new_registry)] *)
Definition _set_registry (st : State) (new : RegistryClass)
    : State * result unit :=
  match registered st with
  | _ :: _ => (st, Raise cannot_replace_registry)
  | [] => (set_registry st (new_registry new), Ok tt)
  end.

(** Allocation of a new responder object. *)
Definition alloc (st : State) (r : BaseResponse) : State * nat :=
  (set_objects st (objects st ++ [r]), length (objects st)).

(** [add(response)] with a responder object. *)
Definition add_object (st : State) (response : nat) : State :=
  set_registered st
    (registry_add (registry_class (_registry st)) (registered st) response).

Definition both_content_types : Exn :=
  mkExn RuntimeError
    (ArgsMessage
       (lit "You cannot define both `content_type` and `headers[Content-Type]`."
        ++ lit " Using the `content_type` kwarg is recommended.")) None.

Definition tuple_has_no_lower : Exn :=
  mkExn AttributeError
    (ArgsMessage (lit "'tuple' object has no attribute 'lower'")) None.

(** The guard of [add] on its keyword arguments. *)
Definition check_content_type (a : ResponseArgs) : result unit :=
  match arg_content_type a, arg_headers a with
  | Given _, Some (HDict d) =>
      if existsb (fun h => str_eqb (HeaderDict.lower (fst h))
                             (lit "content-type")) d
      then Raise both_content_types else Ok tt
  | Given _, Some (HList (_ :: _)) => Raise tuple_has_no_lower
  | _, _ => Ok tt
  end.

Definition with_headers (a : ResponseArgs) (h : option HeaderSet)
    : ResponseArgs :=
  mkArgs (arg_body a) (arg_json a) (arg_status a) h (arg_stream a)
    (arg_content_type a) (arg_auto_calculate_content_length a)
    (arg_match_querystring a) (arg_match a).

(** [add(method, url, body, adding_headers, **kwargs)] *)
Definition add (st : State) (meth : str) (u : Url)
    (adding_headers : option HeaderSet) (a : ResponseArgs)
    : State * result nat :=
  let a :=
    match adding_headers, arg_headers a with
    | Some h, None => with_headers a (Some h)
    | _, _ => a
    end in
  match check_content_type a with
  | Raise e => (st, Raise e)
  | Ok _ =>
      match Response__init__ meth u a with
      | Raise e => (st, Raise e)
      | Ok response =>
          let '(st, addr) := alloc st response in
          (add_object st addr, Ok addr)
      end
  end.

(** [add_passthru(prefix)] *)
Definition add_passthru (st : State) (prefix : Url) : State :=
  let prefix :=
    match prefix with
    | UStr s => if _has_unicode s then UStr (_clean_unicode s) else UStr s
    | UPattern p => UPattern p
    end in
  set_passthru_prefixes st (passthru_prefixes st ++ [prefix]).

(** [remove(method_or_response, url)]; the criteria object is the
    responder given, or [BaseResponse(method=..., url=...)]. *)
Definition remove (st : State) (response : BaseResponse)
    : State * list nat :=
  let '(kept, removed) :=
    registry_remove (registry_class (_registry st)) (objects st)
      (registered st) response in
  (set_registered st kept, removed).

(** [replace(response)] with a responder object. *)
Definition replace_object (st : State) (response : nat)
    : State * result nat :=
  match registry_replace (registry_class (_registry st)) (objects st)
          (registered st) response with
  | Ok l => (set_registered st l, Ok response)
  | Raise e => (st, Raise e)
  end.

(** [replace(method, url, body, **kwargs)] *)
Definition replace (st : State) (meth : str) (u : Url) (a : ResponseArgs)
    : State * result nat :=
  match Response__init__ meth u a with
  | Raise e => (st, Raise e)
  | Ok response =>
      let '(st, addr) := alloc st response in
      replace_object st addr
  end.

(** [upsert(method, url, body, **kwargs)] *)
Definition upsert (st : State) (meth : str) (u : Url) (a : ResponseArgs)
    : State * result nat :=
  match replace st meth u a with
  | (st', Raise e) =>
      if bool_decide (exc_type e = ValueError) then add st' meth u None a
      else (st', Raise e)
  | r => r
  end.

(** [add_callback(method, url, callback, match_querystring, content_type,
    match)] *)
Definition add_callback (st : State) (meth : str) (u : Url)
    (callback : Callback) (match_querystring : MatchQuerystring)
    (ct : option str) (matchers : list Matcher) : State :=
  let '(st, addr) :=
    alloc st (CallbackResponse__init__ meth u callback None ct
                match_querystring matchers) in
  add_object st addr.

End Controller.

Section Dispatch.

Context `{P : Platform}.

(** [itertools.groupby(pairs, lambda kv: kv[0])]: one group per run of
    consecutive pairs with the same key, holding the values of the run. *)
Fixpoint groupby (pairs : list (str * str)) : list (str * list str) :=
  match pairs with
  | [] => []
  | (key, val) :: rest =>
      match groupby rest with
      | (key', vals) :: groups =>
          if str_eqb key key' then (key, val :: vals) :: groups
          else (key, [val]) :: (key', vals) :: groups
      | [] => [(key, [val])]
      end
  end.

(** [if len(values) == 1: values = values[0]] *)
Definition group_value (values : list str) : ParamValue :=
  match values with
  | [v] => Single v
  | vs => Multi vs
  end.

(** The loop of [_parse_request_params] over the groups. *)
Definition params_of_groups (groups : list (str * list str))
    : dict ParamValue :=
  fold_left
    (fun params g => dict_set params (fst g) (group_value (snd g)))
    groups [].

Definition _parse_request_params (u : str) : dict ParamValue :=
  params_of_groups (groupby (parse_qsl (urllib.query (urllib.urlsplit u)))).

(** [_find_match(request)]: the registry's [find]; the lock has no effect
    on a single thread. *)
Definition _find_match (st : State) (request : PreparedRequest)
    : State * (option nat * list str) :=
  let '(l, r) :=
    registry_find (registry_class (_registry st)) (objects st)
      (registered st) request in
  (set_registered st l, r).

Definition url_str (u : Url) : str :=
  match u with UStr s => s | UPattern p => pattern_str p end.

Definition index_error : Exn :=
  mkExn (OtherException (lit "IndexError"))
    (ArgsMessage (lit "list index out of range")) None.

(** The lines "- method url reason" of the error message, one per
    registered responder, with [match_failed_reasons[i]] for the i-th. *)
Fixpoint available_matches (objects : Store) (responses : list nat)
    (match_failed_reasons : list str) (i : nat) : result str :=
  match responses with
  | [] => Ok []
  | a :: rest =>
      match match_failed_reasons !! i with
      | None => Raise index_error
      | Some reason =>
          match available_matches objects rest match_failed_reasons (S i) with
          | Raise e => Raise e
          | Ok lines =>
              let m := deref objects a in
              Ok (lit "- " ++ method m ++ lit " " ++ url_str (url m)
                  ++ lit " " ++ reason ++ [10] ++ lines)
          end
      end
  end.

Definition passthru_lines (prefixes : list Url) : str :=
  match prefixes with
  | [] => []
  | _ =>
      lit "Passthru prefixes:" ++ [10]
      ++ concat (map (fun p => lit "- " ++ url_str p ++ [10]) prefixes)
  end.

Definition error_msg_head (request : PreparedRequest) : str :=
  lit "Connection refused by Responses - the call doesn't "
  ++ lit "match any registered mock." ++ [10; 10]
  ++ lit "Request: " ++ [10]
  ++ lit "- " ++ req_method request ++ lit " " ++ req_url request ++ [10; 10]
  ++ lit "Available matches:" ++ [10].

Definition prefix_matches (request : PreparedRequest) (p : Url) : bool :=
  match p with
  | UPattern pat => re_match pat (req_url request)
  | UStr s => startswith (req_url request) s
  end.

(** [match.call_count += 1] *)
Definition count_call (st : State) (a : nat) : State :=
  set_objects st
    (alter (fun m =>
              mkBaseResponse (method m) (url m) (match_ m)
                (call_count m + 1) (content_type m) (headers m)
                (stream m) (strategy m))
       a (objects st)).

(** [self._calls.add(request, response)] *)
Definition record_call (st : State) (request : PreparedRequest)
    (response : result Response) : State :=
  set_calls st (CallList.add (_calls st) request response).

Definition is_max_retry_error (e : Exn) : bool :=
  bool_decide (exc_type e = MaxRetryError).

(** [_on_request(adapter, request, retries=retries, **kwargs)].  The
    function calls itself once per retry; [fuel] bounds the depth of those
    calls, and [None] is returned when it runs out. *)
Fixpoint _on_request (fuel : nat) (adapter : HTTPAdapter)
    (request : PreparedRequest) (retries : option Retry)
    (kwargs : dict str) (st : State) : option (State * result Response) :=
  match fuel with
  | O => None
  | S fuel' =>
      (* add attributes params and req_kwargs to 'request' object *)
      let request :=
        mkRequest (req_method request) (req_url request)
          (req_headers request) (req_body request)
          (Some (_parse_request_params (path_url request)))
          (Some kwargs) in
      let '(st, (found, match_failed_reasons)) := _find_match st request in
      let resp_callback := response_callback st in
      match found with
      | None =>
          if existsb (prefix_matches request) (passthru_prefixes st) then
            let '(w, r) := _real_send adapter request kwargs (world st) in
            Some (set_world st w, r)
          else
            match available_matches (objects st) (registered st)
                    match_failed_reasons 0 with
            | Raise e => Some (st, Raise e)
            | Ok lines =>
                let error_msg :=
                  error_msg_head request ++ lines
                  ++ passthru_lines (passthru_prefixes st) in
                let response :=
                  mkExn ConnectionError (ArgsMessage error_msg)
                    (Some request) in
                Some (record_call st request (Raise response),
                      Raise response)
            end
      | Some a =>
          let produced : State * result Response :=
            if passthrough (deref (objects st) a) then
              let '(w, r) := _real_send adapter request kwargs (world st) in
              (set_world st w, r)
            else
              match get_response (deref (objects st) a) request (world st) with
              | (w, Ok resp) =>
                  (set_world st w, Ok (build_response request resp))
              | (w, Raise e) =>
                  let st := count_call (set_world st w) a in
                  (record_call st request (Raise e), Raise e)
              end in
          match produced with
          | (st, Raise e) => Some (st, Raise e)
          | (st, Ok response) =>
              let hooked : State * result Response :=
                match resp_callback with
                | Some hook =>
                    let '(w, r) := hook response (world st) in
                    (set_world st w, r)
                | None => (st, Ok response)
                end in
              match hooked with
              | (st, Raise e) => Some (st, Raise e)
              | (st, Ok response) =>
                  let st := count_call st a in
                  let st := record_call st request (Ok response) in
                  let retries :=
                    match retries with
                    | Some r => r
                    | None => max_retries adapter
                    end in
                  (* first validate that current request is eligible to
                     be retried *)
                  if is_retry retries (req_method (resp_request response))
                       (status_code response)
                  then
                    match increment retries
                            (req_method (resp_request response))
                            (resp_url response) response with
                    | Ok retries' =>
                        match _on_request fuel' adapter request
                                (Some retries') kwargs st with
                        | None => None
                        | Some (st', Raise e) =>
                            if is_max_retry_error e then
                              if raise_on_status retries'
                              then Some (st', Raise e)
                              else Some (st', Ok response)
                            else Some (st', Raise e)
                        | Some (st', Ok r) => Some (st', Ok r)
                        end
                    | Raise e =>
                        if is_max_retry_error e then
                          if raise_on_status retries
                          then Some (st, Raise e)
                          else Some (st, Ok response)
                        else Some (st, Raise e)
                    end
                  else Some (st, Ok response)
              end
          end
      end
  end.

(** [start()] *)
Definition start (st : State) : State :=
  match _patcher st with
  | Some _ => st   (* must not override the patcher if already applied *)
  | None =>
      set_patcher st (Some (patcher_start (mkPatcher (target st) false)))
  end.

Definition not_called (st : State) : list nat :=
  List.filter (fun m => call_count (deref (objects st) m) =? 0)
    (registered st).

Definition not_all_executed (st : State) (l : list nat) : Exn :=
  mkExn AssertionError
    (ArgsNotExecuted
       (map (fun m => (method (deref (objects st) m),
                       url (deref (objects st) m))) l))
    None.

(** [stop(allow_assert)] *)
Definition stop (st : State) (allow_assert : bool) : State * result unit :=
  let stopped : State * result unit :=
    match _patcher st with
    | Some p =>
        (* prevent stopping unstarted patchers *)
        match patcher_stop p with
        | Ok _ => (set_patcher st None, Ok tt)
        | Raise e => (st, Raise e)
        end
    | None => (st, Ok tt)
    end in
  match stopped with
  | (st, Raise e) => (st, Raise e)
  | (st, Ok _) =>
      if negb (assert_all_requests_are_fired st) then (st, Ok tt)
      else if negb allow_assert then (st, Ok tt)
      else
        match not_called st with
        | [] => (st, Ok tt)
        | l => (st, Raise (not_all_executed st l))
        end
  end.

(** [__exit__(type, value, traceback)], with [success = type is None] *)
Definition __exit__ (st : State) (success : bool) : State * result bool :=
  match stop st success with
  | (st, Raise e) => (st, Raise e)
  | (st, Ok _) => (reset st, Ok success)
  end.

End Dispatch.

(** ** The stages of one dispatch

    [_on_request] is one function in the source.  To state what it does
    stage by stage its body is named here in pieces; [on_request_unfold]
    below shows that the function is exactly their composition. *)

Section Stages.

Context `{P : Platform}.

(** The request with the derived attributes added. *)
Definition enrich (request : PreparedRequest) (kwargs : dict str)
    : PreparedRequest :=
  mkRequest (req_method request) (req_url request) (req_headers request)
    (req_body request) (Some (_parse_request_params (path_url request)))
    (Some kwargs).

(** Nothing matched: passthru prefix, or connection error. *)
Definition no_match (adapter : HTTPAdapter) (request : PreparedRequest)
    (kwargs : dict str) (match_failed_reasons : list str) (st : State)
    : State * result Response :=
  if existsb (prefix_matches request) (passthru_prefixes st) then
    let '(w, r) := _real_send adapter request kwargs (world st) in
    (set_world st w, r)
  else
    match available_matches (objects st) (registered st)
            match_failed_reasons 0 with
    | Raise e => (st, Raise e)
    | Ok lines =>
        let response :=
          mkExn ConnectionError
            (ArgsMessage (error_msg_head request ++ lines
                          ++ passthru_lines (passthru_prefixes st)))
            (Some request) in
        (record_call st request (Raise response), Raise response)
    end.

(** The reply of the matched responder [a]; a failure of materialisation
    is counted and recorded here. *)
Definition produce (adapter : HTTPAdapter) (request : PreparedRequest)
    (kwargs : dict str) (a : nat) (st : State) : State * result Response :=
  if passthrough (deref (objects st) a) then
    let '(w, r) := _real_send adapter request kwargs (world st) in
    (set_world st w, r)
  else
    match get_response (deref (objects st) a) request (world st) with
    | (w, Ok resp) => (set_world st w, Ok (build_response request resp))
    | (w, Raise e) =>
        let st := count_call (set_world st w) a in
        (record_call st request (Raise e), Raise e)
    end.

(** The post-processing hook. *)
Definition post_process (resp_callback : option Hook) (response : Response)
    (st : State) : State * result Response :=
  match resp_callback with
  | Some hook =>
      let '(w, r) := hook response (world st) in (set_world st w, r)
  | None => (st, Ok response)
  end.

(** [retries or adapter.max_retries] *)
Definition effective_retries (adapter : HTTPAdapter)
    (retries : option Retry) : Retry :=
  match retries with Some r => r | None => max_retries adapter end.

(** The [except MaxRetryError] clause around the recursive call, entered
    with the incremented policy [retries'] and this level's [response]. *)
Definition except_max_retry (retries' : Retry) (response : Response)
    (inner : option (State * result Response))
    : option (State * result Response) :=
  match inner with
  | None => None
  | Some (st', Raise e) =>
      if is_max_retry_error e then
        if raise_on_status retries' then Some (st', Raise e)
        else Some (st', Ok response)
      else Some (st', Raise e)
  | Some (st', Ok r) => Some (st', Ok r)
  end.

(** The retry decision, after the reply was counted and recorded. *)
Definition retry_stage (fuel : nat) (adapter : HTTPAdapter)
    (request : PreparedRequest) (retries : option Retry)
    (kwargs : dict str) (response : Response) (st : State)
    : option (State * result Response) :=
  let retries := effective_retries adapter retries in
  if is_retry retries (req_method (resp_request response))
       (status_code response)
  then
    match increment retries (req_method (resp_request response))
            (resp_url response) response with
    | Ok retries' =>
        except_max_retry retries' response
          (_on_request fuel adapter request (Some retries') kwargs st)
    | Raise e =>
        if is_max_retry_error e then
          if raise_on_status retries then Some (st, Raise e)
          else Some (st, Ok response)
        else Some (st, Raise e)
    end
  else Some (st, Ok response).

(** One attempt up to the bookkeeping of a successful reply. *)
Definition attempt (adapter : HTTPAdapter) (request : PreparedRequest)
    (kwargs : dict str) (a : nat) (resp_callback : option Hook)
    (st : State) : State * result Response :=
  match produce adapter request kwargs a st with
  | (st, Raise e) => (st, Raise e)
  | (st, Ok response) =>
      match post_process resp_callback response st with
      | (st, Raise e) => (st, Raise e)
      | (st, Ok response) =>
          (record_call (count_call st a) request (Ok response), Ok response)
      end
  end.

(** The whole step. *)
Definition dispatch_step (fuel : nat) (adapter : HTTPAdapter)
    (request : PreparedRequest) (retries : option Retry)
    (kwargs : dict str) (st : State) : option (State * result Response) :=
  let request := enrich request kwargs in
  let '(st, (found, match_failed_reasons)) := _find_match st request in
  match found with
  | None => Some (no_match adapter request kwargs match_failed_reasons st)
  | Some a =>
      match attempt adapter request kwargs a (response_callback st) st with
      | (st, Raise e) => Some (st, Raise e)
      | (st, Ok response) =>
          retry_stage fuel adapter request retries kwargs response st
      end
  end.

End Stages.

(** ** The specification's wording, for comparison with the code *)

(** A text has a non-ASCII character when some code point lies above 127. *)
Definition non_ascii (s : str) : bool := existsb (fun c => 127 <? c) s.


(** The values of [key] among the parsed pairs, in order. *)
Definition values_of (key : str) (pairs : list (str * str)) : list str :=
  map snd (List.filter (fun kv => str_eqb (fst kv) key) pairs).

(** The params entry of [key] as the specification words it: the single
    value of a key that occurs once, the list of all values of a key that
    occurs more often. *)
Definition spec_param (key : str) (pairs : list (str * str))
    : option ParamValue :=
  match values_of key pairs with
  | [] => None
  | [v] => Some (Single v)
  | vs => Some (Multi vs)
  end.

(** The values of the last group with key [key]. *)
Fixpoint last_group (key : str) (groups : list (str * list str))
    : option (list str) :=
  match groups with
  | [] => None
  | g :: rest =>
      match last_group key rest with
      | Some vs => Some vs
      | None => if str_eqb (fst g) key then Some (snd g) else None
      end
  end.

(** ** A small concrete platform, for running the model

    The world counts the calls that reached user callbacks or the real
    transport.  A retry policy is the number of retries left and its
    [raise_on_status] flag; status 500 is the one retried.  Patterns are
    literal prefixes and query strings carry no escapes.  [parse_url_url]
    is the identity, which is what [parse_url(u).url] gives on the URLs
    of the examples: a lower-case scheme and host, and a path of
    unreserved characters and slashes.  It is not [urllib3]'s function on
    other URLs: the instance serves the examples, and what is said of a
    URL with other characters is proved for an arbitrary [Platform]. *)

Module Demo.

Definition max_retry_error : Exn :=
  mkExn MaxRetryError (ArgsMessage (lit "Max retries exceeded")) None.

Definition plain_parse_qsl (qs : str) : list (str * str) :=
  omap (fun field =>
          match split_first 61 field with
          | Some (k, v :: vs) => Some (k, v :: vs)
          | _ => None
          end)
    (split_on 38 qs).

Definition query_string_matcher (query : str) : Matcher :=
  fun request =>
    if bool_decide
         (plain_parse_qsl (urllib.query (urllib.urlsplit (req_url request)))
          = plain_parse_qsl query)
    then (true, lit "")
    else (false, lit "Query string doesn't match.").

Definition ok_response (request : PreparedRequest) : Response :=
  build_response request (mkHTTPResponse 200 (StreamBytesIO (Open [] 0)) []).

#[global] Instance platform : Platform := {|
  World := nat;
  Retry := nat * bool;
  HTTPAdapter := nat * bool;
  Json := str;
  re_match := fun p s => startswith s (pattern p);
  pattern_str := fun p => lit "re.compile('" ++ pattern p ++ lit "')";
  parse_url_url := fun u => u;
  parse_qsl := plain_parse_qsl;
  json_dumps := fun j => j;
  _query_string_matcher := query_string_matcher;
  is_retry := fun _ _ status_code => status_code =? 500;
  increment := fun r _ _ _ =>
    match fst r with
    | O => Raise max_retry_error
    | S n => Ok (n, snd r)
    end;
  raise_on_status := snd;
  max_retries := fun a => a;
  _real_send := fun _ request _ w => (S w, Ok (ok_response request))
|}.

Definition GET : str := lit "GET".

Definition with_body (b : Body) : ResponseArgs :=
  mkArgs b None 200 None None UNSET false MQNone [].

Definition with_status (b : Body) (s : Z) : ResponseArgs :=
  mkArgs b None s None None UNSET false MQNone [].

(** [RequestsMock()] in an empty world. *)
Definition fresh : State :=
  RequestsMock__init__ [] 0%nat true None []
    (lit "requests.adapters.HTTPAdapter.send") FirstMatchRegistry.

Definition get (u : str) : PreparedRequest :=
  mkRequest GET u [] None None None.

(** One responder: [add(GET, "http://example.com", body="test")]. *)
Definition one_responder : State :=
  fst (add fresh GET (UStr (lit "http://example.com")) None
         (with_body (BData (BodyStr (lit "test"))))).

(** Two responders for the same URL, bodies "first" and "second". *)
Definition two_responders : State :=
  fst (add
         (fst (add fresh GET (UStr (lit "http://example.com")) None
                 (with_body (BData (BodyStr (lit "first"))))))
         GET (UStr (lit "http://example.com")) None
         (with_body (BData (BodyStr (lit "second"))))).

(** One responder whose body is an exception. *)
Definition boom : Exn :=
  mkExn (OtherException (lit "Exception")) (ArgsMessage (lit "boom")) None.

Definition failing_responder : State :=
  fst (add fresh GET (UStr (lit "http://example.com")) None
         (with_body (BExc boom))).

(** One responder and the passthru prefix ["http://other.org"]. *)
Definition with_passthru : State :=
  add_passthru one_responder (UStr (lit "http://other.org")).

(** One responder that answers with status 500. *)
Definition always_500 : State :=
  fst (add fresh GET (UStr (lit "http://example.com")) None
         (with_status (BData (BodyStr (lit "err"))) 500)).

(** A registry class of another policy: [find] takes the responder it
    matched out of the registry. *)
Fixpoint remove_first (a : nat) (l : list nat) : list nat :=
  match l with
  | [] => []
  | b :: l' => if Nat.eqb a b then l' else b :: remove_first a l'
  end.

Definition ConsumingRegistry : RegistryClass :=
  mkRegistryClass (lit "ConsumingRegistry")
    FirstMatchRegistry_add FirstMatchRegistry_remove
    FirstMatchRegistry_replace
    (fun objects responses request =>
       match first_match objects responses request with
       | (Some a, reasons) =>
           (remove_first a responses, (Some a, reasons))
       | r => (responses, r)
       end).

(** An adapter without retries, and one with a single retry. *)
Definition no_retries : nat * bool := (0%nat, false).
Definition one_retry (raise : bool) : nat * bool := (1%nat, raise).

End Demo.

(** ** The operations of a session *)

Section Operations.

Context `{P : Platform}.

(** The retry policy replays the request after [response]: the reply is
    eligible and [increment] grants another attempt. *)
Definition replays (adapter : HTTPAdapter) (retries : option Retry)
    (response : Response) : bool :=
  let r := effective_retries adapter retries in
  is_retry r (req_method (resp_request response)) (status_code response)
  && match increment r (req_method (resp_request response))
             (resp_url response) response with
     | Ok _ => true
     | Raise _ => false
     end.

(** The calls a client can make on a [RequestsMock], and an intercepted
    request. *)
Inductive Operation :=
| OpReset
| OpSetRegistry (new : RegistryClass)
| OpAdd (meth : str) (u : Url) (adding_headers : option HeaderSet)
    (a : ResponseArgs)
| OpAddObject (response : nat)
| OpAddPassthru (prefix : Url)
| OpRemove (response : BaseResponse)
| OpReplace (meth : str) (u : Url) (a : ResponseArgs)
| OpReplaceObject (response : nat)
| OpUpsert (meth : str) (u : Url) (a : ResponseArgs)
| OpAddCallback (meth : str) (u : Url) (callback : Callback)
    (match_querystring : MatchQuerystring) (ct : option str)
    (matchers : list Matcher)
| OpStart
| OpStop (allow_assert : bool)
| OpExit (success : bool)
| OpRequest (fuel : nat) (adapter : HTTPAdapter) (request : PreparedRequest)
    (retries : option Retry) (kwargs : dict str).

(** The state an operation leaves, whether it returned or raised; [None]
    when a request ran out of fuel. *)
Definition run (op : Operation) (st : State) : option State :=
  match op with
  | OpReset => Some (reset st)
  | OpSetRegistry new => Some (fst (_set_registry st new))
  | OpAdd meth u adding_headers a => Some (fst (add st meth u adding_headers a))
  | OpAddObject response => Some (add_object st response)
  | OpAddPassthru prefix => Some (add_passthru st prefix)
  | OpRemove response => Some (fst (remove st response))
  | OpReplace meth u a => Some (fst (replace st meth u a))
  | OpReplaceObject response => Some (fst (replace_object st response))
  | OpUpsert meth u a => Some (fst (upsert st meth u a))
  | OpAddCallback meth u callback mq ct matchers =>
      Some (add_callback st meth u callback mq ct matchers)
  | OpStart => Some (start st)
  | OpStop allow_assert => Some (fst (stop st allow_assert))
  | OpExit success => Some (fst (__exit__ st success))
  | OpRequest fuel adapter request retries kwargs =>
      fst <$> _on_request fuel adapter request retries kwargs st
  end.

End Operations.

(** ** Invariants used in the statements *)

Section Invariants.

Context `{P : Platform}.

(** A patcher held by the mock was started: [start] is the only place
    that stores one, and it starts it at once. *)
Definition patcher_started (st : State) : Prop :=
  forall p, _patcher st = Some p -> patch_started p = true.

(** No responder object lost calls between two stores: every object of
    the first is still there, with a count at least as large and otherwise
    the same. *)
Definition counts_grow (o o' : Store) : Prop :=
  forall a r, o !! a = Some r ->
    exists r', o' !! a = Some r' /\ call_count r <= call_count r'.

(** Store [o'] is [o] with the count of the object at [a] raised by one. *)
Definition counted_once (a : nat) (o o' : Store) : Prop :=
  length o' = length o
  /\ call_count (deref o' a) = call_count (deref o a) + 1
  /\ forall b, b <> a -> o' !! b = o !! b.

(** The settings of the session are the same in both states: patcher,
    coverage flag, response hook, passthru prefixes, target and registry
    class. *)
Definition same_settings (st st' : State) : Prop :=
  _patcher st' = _patcher st
  /\ assert_all_requests_are_fired st' = assert_all_requests_are_fired st
  /\ response_callback st' = response_callback st
  /\ passthru_prefixes st' = passthru_prefixes st
  /\ target st' = target st
  /\ registry_class (_registry st') = registry_class (_registry st).

End Invariants.

(** ** Inspection, and notions used for the further properties *)

Section Inspection.

Context `{P : Platform}.

(** The number of recorded calls whose request URL is [url] with its
    default path: the [call_count] of [assert_call_count]. *)
Definition calls_to (st : State) (url : str) : nat :=
  length
    (List.filter
       (fun call =>
          bool_decide (UStr (req_url (call_request call))
                       = _ensure_url_default_path (UStr url)))
       (_calls st)).

(** [str(n)] for an [int]. *)
Definition str_of_Z (n : Z) : str :=
  if n <? 0 then lit "-" ++ str_of_nat (Z.to_nat (- n))
  else str_of_nat (Z.to_nat n).

Definition expected_calls (url : str) (count : Z) (call_count : nat) : Exn :=
  mkExn AssertionError
    (ArgsMessage
       (lit "Expected URL '" ++ url ++ lit "' to be called "
        ++ str_of_Z count ++ lit " times. Called "
        ++ str_of_nat call_count ++ lit " times.")) None.

(** [assert_call_count(url, count)] *)
Definition assert_call_count (st : State) (url : str) (count : Z)
    : result bool :=
  let call_count := calls_to st url in
  if Z.of_nat call_count =? count then Ok true
  else Raise (expected_calls url count call_count).

(** Every responder object has a call count of at least zero. *)
Definition counts_nonneg (o : Store) : Prop :=
  forall a r, o !! a = Some r -> 0 <= call_count r.

(** The ledger of the second state extends that of the first. *)
Definition ledger_extends (st st' : State) : Prop :=
  exists new, _calls st' = _calls st ++ new.

(** Two responder objects that differ in their call count at most. *)
Definition same_but_count (r r' : BaseResponse) : Prop :=
  method r' = method r /\ url r' = url r /\ match_ r' = match_ r
  /\ content_type r' = content_type r /\ headers r' = headers r
  /\ stream r' = stream r /\ strategy r' = strategy r.

(** The second store holds the objects of the first, at the same
    addresses, and nothing of them changed but call counts. *)
Definition only_counts_change (o o' : Store) : Prop :=
  length o' = length o
  /\ forall a r, o !! a = Some r ->
       exists r', o' !! a = Some r' /\ same_but_count r r'.

(** [PassthroughResponse]: a [BaseResponse] whose class attribute
    [passthrough] is [True]. *)
Definition PassthroughResponse__init__ (meth : str) (u : Url)
    (match_querystring : MatchQuerystring) (matchers : list Matcher)
    : BaseResponse :=
  let base := BaseResponse__init__ meth u match_querystring matchers in
  mkBaseResponse (method base) (url base) (match_ base) (call_count base)
    (content_type base) (headers base) (stream base) Passthrough.

End Inspection.

(** More sessions on the concrete platform. *)
Module Cases.

(** [add(PassthroughResponse(GET, "http://example.com"))] *)
Definition passthrough_registered : State :=
  let '(st, addr) :=
    alloc Demo.fresh
      (PassthroughResponse__init__ Demo.GET (UStr (lit "http://example.com"))
         MQNone []) in
  add_object st addr.

(** The mock with one responder after it answered one request. *)
Definition answered : State :=
  match _on_request 1 Demo.no_retries (Demo.get (lit "http://example.com/"))
          None [] Demo.one_responder with
  | Some (st, _) => st
  | None => Demo.one_responder
  end.



(** A response hook that raises. *)
Definition failing_hook : Hook := fun _ w => (w, Raise Demo.boom).

(** One responder in a mock made with [response_callback=failing_hook]. *)
Definition hooked : State :=
  fst (add
         (RequestsMock__init__ [] 0%nat true (Some failing_hook) []
            (lit "requests.adapters.HTTPAdapter.send") FirstMatchRegistry)
         Demo.GET (UStr (lit "http://example.com")) None
         (Demo.with_body (BData (BodyStr (lit "test"))))).

End Cases.

(** A character that starts neither a query string nor a fragment. *)
Definition plain (x : Z) : Prop := x <> 63 /\ x <> 35.

(** A character that does not end the authority of a URL. *)
Definition no_delimiter (x : Z) : Prop :=
  (x =? 47) || (x =? 63) || (x =? 35) = false.

(** The URLs that [urlsplit] takes as they are, and on which it is as
    modelled: no character at or below U+0020 (those it strips or
    removes), and an authority that is ASCII (a non-ASCII authority must
    pass the NFKC check, which may raise [ValueError]) and has no bracket
    (a bracketed host is validated as an IP literal, which may raise
    [ValueError]). *)
Definition splittable (url : str) : Prop :=
  Forall (fun c => 32 < c) url
  /\ Forall (fun c => c < 128 /\ c <> 91 /\ c <> 93)
       (urllib.netloc (urllib.urlsplit url)).

(** A code point that [str.encode("utf-8")] accepts: not a surrogate. *)
Definition scalar_value (c : Z) : Prop :=
  0 <= c < 55296 \/ 57344 <= c < 1114112.




Section DeclaredHeaders.

Context `{P : Platform}.


End DeclaredHeaders.

(** * What the code guarantees *)

(** ** Text and content type *)

Lemma has_unicode_spec (s : str) :
  _has_unicode s = true <-> exists c, c ∈ s /\ 128 < c.
Proof.
  unfold _has_unicode. rewrite existsb_exists. split.
  - intros (c & Hin & Hc). exists c. split; [by apply list_elem_of_In|lia].
  - intros (c & Hin & Hc). exists c. split; [by apply list_elem_of_In|lia].
Qed.

Lemma non_ascii_spec (s : str) :
  non_ascii s = true <-> exists c, c ∈ s /\ 127 < c.
Proof.
  unfold non_ascii. rewrite existsb_exists. split.
  - intros (c & Hin & Hc). exists c. split; [by apply list_elem_of_In|lia].
  - intros (c & Hin & Hc). exists c. split; [by apply list_elem_of_In|lia].
Qed.

(** The test of the code and the notion of the specification differ on the
    code point 128 only. *)
Lemma has_unicode_non_ascii (s : str) :
  128 ∉ s -> _has_unicode s = non_ascii s.
Proof.
  intros H. apply eq_true_iff_eq.
  rewrite has_unicode_spec, non_ascii_spec. split.
  - intros (c & Hin & Hc). exists c. split; [done|lia].
  - intros (c & Hin & Hc). exists c. split; [done|].
    destruct (decide (c = 128)) as [->|]; [done|lia].
Qed.

Section ContentType.

Context `{P : Platform}.

(** The content type [Response.__init__] settles on, case by case, with
    the code's own test for the text case. *)
Lemma content_type_rules (a : ResponseArgs) body ct :
  init_body_and_content_type a = Ok (body, ct) ->
  match arg_content_type a with
  | Given explicit => ct = explicit
  | UNSET =>
      match arg_json a with
      | Some _ => ct = Some (lit "application/json")
      | None =>
          match arg_body a with
          | BData (BodyStr s) =>
              ct = if _has_unicode s
                   then Some (lit "text/plain; charset=utf-8")
                   else Some (lit "text/plain")
          | _ => ct = Some (lit "text/plain")
          end
      end
  end.
Proof.
  unfold init_body_and_content_type.
  destruct (arg_json a) as [j|], (arg_content_type a) as [|explicit];
    try destruct (body_truthy (arg_body a)); try discriminate;
    intros [= <- <-]; try reflexivity.
  all: destruct (arg_body a) as [[]|]; reflexivity.
Qed.

(** C8: a static [Response] registered with the text body "\u0080" and no
    content type gets "text/plain", although that text contains a
    non-ASCII character: the code's test [ord(char) > 128] lets the code
    point 128 pass as ASCII. *)
Theorem content_type_of_U0080_body :
  let a := mkArgs (BData (BodyStr [128])) None 200 None None UNSET false
             MQNone [] in
  non_ascii [128] = true
  /\ _has_unicode [128] = false
  /\ init_body_and_content_type a
     = Ok (BData (BodyStr [128]), Some (lit "text/plain")).
Proof. repeat split. Qed.

End ContentType.

(** ** The body stream *)

Lemma is_closed_open_unread buf pos :
  drop pos buf <> [] -> is_closed (Open buf pos) = (false, Open buf pos).
Proof.
  intros H. unfold is_closed. simpl.
  destruct (drop pos buf) as [|x rest] eqn:E; [done|].
  simpl. repeat f_equal. lia.
Qed.

Lemma is_closed_open_exhausted buf pos :
  drop pos buf = [] -> is_closed (Open buf pos) = (false, Closed).
Proof. intros H. unfold is_closed. simpl. by rewrite H. Qed.

(** C9: the stream [_handle_body] makes from text or bytes is a [BytesIO]
    with the probe attached.  The probe answers [True] only on a closed
    stream, which has no bytes left to read, and then changes nothing; it
    answers [False] and leaves the stream as it is whenever unread bytes
    remain; on an open, exhausted stream it answers [False] once while
    closing it, and [True] from then on.  Closing twice is closing once, and
    closing a closed stream changes nothing. *)
Theorem isclosed_probe (data : BytesIO) :
  (forall s, _handle_body (BodyStr s) = StreamBytesIO (Open (encode_utf8 s) 0))
  /\ (forall b, _handle_body (BodyBytes b) = StreamBytesIO (Open b 0))
  /\ (fst (is_closed data) = true ->
      io.closed data = true /\ io.unread data = []
      /\ snd (is_closed data) = data)
  /\ (io.unread data <> [] -> is_closed data = (false, data))
  /\ (io.closed data = false -> io.unread data = [] ->
      is_closed data = (false, Closed) /\ is_closed Closed = (true, Closed))
  /\ io.close (io.close data) = io.close data
  /\ (io.closed data = true -> io.close data = data).
Proof.
  split; [done|]. split; [done|].
  destruct data as [buf pos|]; simpl.
  - destruct (decide (drop pos buf = [])) as [E|E].
    + rewrite (is_closed_open_exhausted _ _ E). simpl.
      repeat split; try done.
    + rewrite (is_closed_open_unread _ _ E). simpl.
      repeat split; try done.
  - repeat split; done.
Qed.

(** C9, at the stream of the body "ab" after one byte was read (unread
    bytes remain), and at the closed stream. *)
Lemma isclosed_probe_witness :
  is_closed (Open [97; 98] 1) = (false, Open [97; 98] 1)
  /\ (io.closed Closed = true /\ io.unread Closed = []
      /\ snd (is_closed Closed) = Closed)
  /\ (is_closed (Open [97; 98] 2) = (false, Closed)
      /\ is_closed Closed = (true, Closed))
  /\ io.close Closed = Closed.
Proof.
  split; [|split; [|split]].
  - apply (isclosed_probe (Open [97; 98] 1)). simpl. discriminate.
  - apply (isclosed_probe Closed). reflexivity.
  - apply (isclosed_probe (Open [97; 98] 2)); reflexivity.
  - apply (isclosed_probe Closed). reflexivity.
Defined.

(** ** [reset] and [stop] *)

Section Lifecycle.

Context `{P : Platform}.

(** C10: [reset] leaves an empty ledger, no passthru prefixes and a new,
    empty [FirstMatchRegistry], also when another registry class had been
    installed with [_set_registry]; the patcher, the coverage flag, the
    response hook and the target stay as they were (and so do the
    responder objects and the world, which are not the mock's). *)
Theorem reset_frame (st : State) :
  _calls (reset st) = []
  /\ passthru_prefixes (reset st) = []
  /\ _registry (reset st) = new_registry FirstMatchRegistry
  /\ registered (reset st) = []
  /\ (forall custom st',
        _set_registry st custom = (st', Ok tt) ->
        _registry st' = new_registry custom
        /\ _registry (reset st') = new_registry FirstMatchRegistry)
  /\ _patcher (reset st) = _patcher st
  /\ assert_all_requests_are_fired (reset st)
     = assert_all_requests_are_fired st
  /\ response_callback (reset st) = response_callback st
  /\ target (reset st) = target st
  /\ objects (reset st) = objects st
  /\ world (reset st) = world st.
Proof.
  repeat split.
  unfold _set_registry in H. destruct (registered st); [|discriminate].
  by injection H as <-.
Qed.

Lemma stop_patcher (st : State) :
  patcher_started st ->
  forall allow, fst (stop st allow) = set_patcher st None
                \/ (_patcher st = None /\ fst (stop st allow) = st).
Proof.
  intros Hp allow. unfold stop.
  destruct (_patcher st) as [p|] eqn:E.
  - left. unfold patcher_stop. rewrite (Hp p E). simpl.
    destruct (negb _); [done|]. destruct (negb allow); [done|].
    by destruct (not_called _).
  - right. split; [done|]. simpl.
    destruct (negb _); [done|]. destruct (negb allow); [done|].
    by destruct (not_called _).
Qed.

Lemma stop_result (st : State) (allow : bool) :
  patcher_started st ->
  snd (stop st allow) =
    if negb (assert_all_requests_are_fired st) then Ok tt
    else if negb allow then Ok tt
    else match not_called st with
         | [] => Ok tt
         | l => Raise (not_all_executed st l)
         end.
Proof.
  intros Hp. unfold stop.
  destruct (_patcher st) as [p|] eqn:E.
  - unfold patcher_stop. rewrite (Hp p E). simpl.
    destruct (negb _); [done|]. destruct (negb allow); [done|].
    unfold not_called, not_all_executed. simpl.
    by destruct (List.filter _ _).
  - simpl. destruct (negb _); [done|]. destruct (negb allow); [done|].
    by destruct (not_called _).
Qed.

Lemma not_called_spec (st : State) (m : nat) :
  m ∈ not_called st
  <-> m ∈ registered st /\ call_count (deref (objects st) m) = 0.
Proof.
  unfold not_called. rewrite !list_elem_of_In, filter_In.
  by rewrite Z.eqb_eq.
Qed.

(** C5: with [assert_all_requests_are_fired] set, [stop(allow_assert=True)]
    raises an [AssertionError] carrying the (method, url) of exactly the
    registered responders whose call count is zero when there is one, and
    returns normally when every registered responder was called at least
    once; [stop(allow_assert=False)] returns normally whatever the counts;
    a second [stop] finds no patcher, stops nothing, and can only raise
    the coverage assertion. *)
Theorem stop_coverage (st : State) :
  assert_all_requests_are_fired st = true ->
  patcher_started st ->
  (not_called st <> [] ->
     snd (stop st true) = Raise (not_all_executed st (not_called st)))
  /\ (forall m, m ∈ not_called st
        <-> m ∈ registered st /\ call_count (deref (objects st) m) = 0)
  /\ exc_args (not_all_executed st (not_called st))
     = ArgsNotExecuted
         (map (fun m => (method (deref (objects st) m),
                         url (deref (objects st) m))) (not_called st))
  /\ ((forall m, m ∈ registered st ->
         1 <= call_count (deref (objects st) m)) ->
      snd (stop st true) = Ok tt)
  /\ snd (stop st false) = Ok tt
  /\ (forall a b,
        let st1 := fst (stop st a) in
        _patcher st1 = None
        /\ stop st1 b = (st1, snd (stop st b))
        /\ forall e, snd (stop st1 b) = Raise e ->
                     exc_type e = AssertionError).
Proof.
  intros Hflag Hp.
  assert (Hnone : forall a, _patcher (fst (stop st a)) = None
                            /\ patcher_started (fst (stop st a))
                            /\ not_called (fst (stop st a)) = not_called st
                            /\ assert_all_requests_are_fired (fst (stop st a)) = true
                            /\ forall l, not_all_executed (fst (stop st a)) l
                                         = not_all_executed st l).
  { intros a. destruct (stop_patcher st Hp a) as [->|[E ->]];
      repeat split; try done. }
  split; [|split; [|split; [|split; [|split]]]].
  - intros Hne. rewrite (stop_result st true Hp), Hflag. simpl.
    by destruct (not_called st).
  - apply not_called_spec.
  - reflexivity.
  - intros Hall. rewrite (stop_result st true Hp), Hflag. simpl.
    destruct (not_called st) as [|m l] eqn:E; [done|].
    assert (Hm : m ∈ not_called st) by (rewrite E; left).
    apply not_called_spec in Hm as [Hm Hz]. specialize (Hall m Hm). lia.
  - by rewrite (stop_result st false Hp), Hflag.
  - intros a b st1. subst st1.
    destruct (Hnone a) as (Hn & Hp1 & Hnc & Hf1 & Hex).
    split; [done|].
    assert (Hres : snd (stop (fst (stop st a)) b) = snd (stop st b)).
    { rewrite (stop_result _ b Hp1), (stop_result st b Hp), Hf1, Hflag, Hnc.
      simpl. destruct b; simpl; [|done].
      destruct (not_called st); [done|]. by rewrite Hex. }
    split.
    + rewrite <- Hres. destruct (stop (fst (stop st a)) b) as [s r] eqn:E.
      simpl. f_equal.
      assert (Hs : fst (stop (fst (stop st a)) b) = s) by by rewrite E.
      rewrite <- Hs.
      destruct (stop_patcher _ Hp1 b) as [->|[_ ->]]; [|done].
      destruct (fst (stop st a)); simpl in *. by rewrite Hn.
    + intros e. rewrite Hres, (stop_result st b Hp), Hflag. simpl.
      destruct b; simpl; [|done].
      destruct (not_called st); [done|]. by intros [= <-].
Qed.

End Lifecycle.

(** ** Dispatch *)

Section DispatchFacts.

Context `{P : Platform}.

(** [_on_request] is the composition of its stages. *)
Lemma on_request_unfold fuel adapter request retries kwargs st :
  _on_request (S fuel) adapter request retries kwargs st
  = dispatch_step fuel adapter request retries kwargs st.
Proof.
  unfold dispatch_step, attempt, no_match, produce, post_process,
    retry_stage, except_max_retry, effective_retries, enrich.
  cbn [_on_request].
  destruct (_find_match st _) as [st1 [[a|] rs]].
  - destruct (passthrough _).
    + destruct (_real_send _ _ _ _) as [w [r|e]]; [|reflexivity].
      destruct (response_callback st1) as [h|];
        [destruct (h _ _) as [w' [r'|e']]|]; reflexivity.
    + destruct (get_response _ _ _) as [w [r|e]]; [|reflexivity].
      destruct (response_callback st1) as [h|];
        [destruct (h _ _) as [w' [r'|e']]|]; reflexivity.
  - destruct (existsb _ _); [destruct (_real_send _ _ _ _); reflexivity|].
    destruct (available_matches _ _ _ _); reflexivity.
Qed.

(** The lookup can change the list of registered addresses and nothing
    else. *)
Lemma find_match_frame st request st1 r :
  _find_match st request = (st1, r) ->
  exists l, st1 = set_registered st l.
Proof.
  unfold _find_match. destruct (registry_find _ _ _ _) as [l r'].
  intros [= <- <-]. by exists l.
Qed.

Lemma set_registered_same st : set_registered st (registered st) = st.
Proof. by destruct st as [? ? ? [? ?] ? ? ? ? ?]. Qed.

Lemma first_match_earliest objects l request i a :
  l !! i = Some a ->
  fst (matches (deref objects a) request) = true ->
  (forall k b, (k < i)%nat -> l !! k = Some b ->
     fst (matches (deref objects b) request) = false) ->
  fst (first_match objects l request) = Some a.
Proof.
  revert i. induction l as [|b l IH]; intros i Hi Ha Hbefore; [done|].
  simpl. destruct (matches (deref objects b) request) as [ok reason] eqn:Eb.
  destruct (first_match objects l request) as [found rs] eqn:El.
  destruct i as [|i].
  - injection Hi as ->. rewrite Eb in Ha. simpl in Ha. by rewrite Ha.
  - assert (ok = false) as ->.
    { specialize (Hbefore 0%nat b ltac:(lia) eq_refl). by rewrite Eb in Hbefore. }
    simpl. apply (IH i Hi Ha).
    intros k c Hk Hc. apply (Hbefore (S k) c); [lia|done].
Qed.

Lemma find_match_default st request :
  registry_class (_registry st) = FirstMatchRegistry ->
  _find_match st request
  = (st, first_match (objects st) (registered st) request).
Proof.
  intros Hc. unfold _find_match. rewrite Hc. simpl.
  unfold FirstMatchRegistry_find. by rewrite set_registered_same.
Qed.

(** C2: in a [FirstMatchRegistry], when the responder at address [a] is
    the earliest registered one that matches the request (whatever
    matches after it), the lookup returns [a] and leaves the state, the
    registry included, as it was; and dispatch answers with [a]: the
    attempt is made with that responder. *)
Theorem first_registered_wins (st : State) (request : PreparedRequest)
    (kwargs : dict str) (i a : nat) :
  let req := enrich request kwargs in
  registry_class (_registry st) = FirstMatchRegistry ->
  registered st !! i = Some a ->
  fst (matches (deref (objects st) a) req) = true ->
  (forall k b, (k < i)%nat -> registered st !! k = Some b ->
     fst (matches (deref (objects st) b) req) = false) ->
  (exists reasons, _find_match st req = (st, (Some a, reasons)))
  /\ forall fuel adapter retries,
       _on_request (S fuel) adapter request retries kwargs st
       = match attempt adapter req kwargs a (response_callback st) st with
         | (st1, Raise e) => Some (st1, Raise e)
         | (st1, Ok response) =>
             retry_stage fuel adapter req retries kwargs response st1
         end.
Proof.
  intros req Hc Hi Ha Hbefore.
  pose proof (first_match_earliest _ _ _ _ _ Hi Ha Hbefore) as Hf.
  pose proof (find_match_default st req Hc) as Hfind.
  destruct (first_match (objects st) (registered st) req) as [found rs].
  simpl in Hf. subst found. split; [by exists rs|].
  intros fuel adapter retries.
  rewrite on_request_unfold. unfold dispatch_step. fold req.
  by rewrite Hfind.
Qed.

End DispatchFacts.

(** C2, with two responders registered for the same URL: the first one
    answers. *)
Lemma first_registered_wins_witness :
  exists reasons,
    _find_match Demo.two_responders
      (enrich (Demo.get (lit "http://example.com/")) [])
    = (Demo.two_responders, (Some 0%nat, reasons)).
Proof.
  apply (first_registered_wins Demo.two_responders
           (Demo.get (lit "http://example.com/")) [] 0 0).
  - reflexivity.
  - reflexivity.
  - reflexivity.
  - intros k b Hk. lia.
Defined.

(** ** Call counts *)

Section Counting.

Context `{P : Platform}.

Lemma counts_grow_refl o : counts_grow o o.
Proof. intros a r H. exists r. split; [done|lia]. Qed.

Lemma counts_grow_trans o1 o2 o3 :
  counts_grow o1 o2 -> counts_grow o2 o3 -> counts_grow o1 o3.
Proof.
  intros H12 H23 a r H.
  destruct (H12 a r H) as (r2 & H2 & Hle2).
  destruct (H23 a r2 H2) as (r3 & H3 & Hle3).
  exists r3. split; [done|lia].
Qed.

Lemma counts_grow_alloc (o : Store) r : counts_grow o (o ++ [r]).
Proof.
  intros a r0 H. exists r0. split; [|lia]. by apply lookup_app_l_Some.
Qed.

Lemma objects_count_call st a :
  objects (count_call st a)
  = alter (fun m =>
             mkBaseResponse (method m) (url m) (match_ m)
               (call_count m + 1) (content_type m) (headers m)
               (stream m) (strategy m)) a (objects st).
Proof. reflexivity. Qed.

Lemma counts_grow_count st a :
  counts_grow (objects st) (objects (count_call st a)).
Proof.
  intros b r H. rewrite objects_count_call.
  destruct (decide (b = a)) as [->|Hne].
  - eexists. rewrite list_lookup_alter_eq, H. simpl.
    split; [done|]. simpl. lia.
  - exists r. rewrite list_lookup_alter_ne by done. split; [done|lia].
Qed.

Lemma count_call_once st a :
  (a < length (objects st))%nat ->
  counted_once a (objects st) (objects (count_call st a)).
Proof.
  intros Ha. rewrite objects_count_call.
  split; [by rewrite length_alter|]. split.
  - unfold deref. rewrite list_lookup_alter_eq.
    destruct (lookup_lt_is_Some_2 _ _ Ha) as [r Hr]. by rewrite Hr.
  - intros b Hb. by rewrite list_lookup_alter_ne.
Qed.

Lemma post_process_objects hook response st st2 r :
  post_process hook response st = (st2, r) -> objects st2 = objects st.
Proof.
  unfold post_process. destruct hook as [h|].
  - destruct (h _ _) as [w r']. by intros [= <- <-].
  - by intros [= <- <-].
Qed.

Lemma no_match_objects adapter request kwargs reasons st :
  objects (fst (no_match adapter request kwargs reasons st)) = objects st.
Proof.
  unfold no_match. destruct (existsb _ _).
  - by destruct (_real_send _ _ _ _).
  - by destruct (available_matches _ _ _ _).
Qed.

Lemma find_match_objects st request st1 r :
  _find_match st request = (st1, r) -> objects st1 = objects st.
Proof. intros H. by destruct (find_match_frame _ _ _ _ H) as [l ->]. Qed.

End Counting.

(** A dispatch changes the state by four moves only: it sets the world,
    counts a call, records a call, and lets the registry's [find] set the
    list of registered addresses.  A relation between states that every
    such move respects therefore holds between the state before and the
    state after a dispatch, replays included. *)
Section DispatchInvariant.

Context `{P : Platform}.

Variable R : State -> State -> Prop.
Hypothesis R_refl : forall s, R s s.
Hypothesis R_trans : forall s1 s2 s3, R s1 s2 -> R s2 s3 -> R s1 s3.
Hypothesis R_world : forall s w, R s (set_world s w).
Hypothesis R_count : forall s a, R s (count_call s a).
Hypothesis R_record : forall s request r, R s (record_call s request r).
Hypothesis R_registered : forall s l, R s (set_registered s l).

Lemma produce_invariant adapter request kwargs a st st2 r :
  produce adapter request kwargs a st = (st2, r) -> R st st2.
Proof.
  unfold produce. destruct (passthrough _).
  - destruct (_real_send _ _ _ _) as [w r']. by intros [= <- <-].
  - destruct (get_response _ _ _) as [w [resp|e]]; intros [= <- <-]; [done|].
    eauto.
Qed.

Lemma post_process_invariant hook response st st2 r :
  post_process hook response st = (st2, r) -> R st st2.
Proof.
  unfold post_process. destruct hook as [h|].
  - destruct (h _ _) as [w r']. by intros [= <- <-].
  - by intros [= <- <-].
Qed.

Lemma attempt_invariant adapter request kwargs a hook st st2 r :
  attempt adapter request kwargs a hook st = (st2, r) -> R st st2.
Proof.
  unfold attempt.
  destruct (produce _ _ _ _ _) as [st1 [response|e]] eqn:Ep.
  - pose proof (produce_invariant _ _ _ _ _ _ _ Ep) as H1.
    destruct (post_process _ _ _) as [st1' [response'|e]] eqn:Eh;
      pose proof (post_process_invariant _ _ _ _ _ Eh) as H2;
      intros [= <- <-]; eauto.
  - intros [= <- <-]. by eapply produce_invariant.
Qed.

Lemma no_match_invariant adapter request kwargs reasons st :
  R st (fst (no_match adapter request kwargs reasons st)).
Proof.
  unfold no_match. destruct (existsb _ _).
  - destruct (_real_send _ _ _ _). apply R_world.
  - destruct (available_matches _ _ _ _); [apply R_record|apply R_refl].
Qed.

Lemma on_request_invariant fuel :
  forall adapter request retries kwargs st st' res,
    _on_request fuel adapter request retries kwargs st = Some (st', res) ->
    R st st'.
Proof.
  induction fuel as [|fuel IH]; intros adapter request retries kwargs st st' res;
    [discriminate|].
  rewrite on_request_unfold. unfold dispatch_step.
  destruct (_find_match st _) as [st1 [[a|] rs]] eqn:Ef;
    destruct (find_match_frame _ _ _ _ Ef) as [l ->];
    (intros Hrun; eapply R_trans; [apply (R_registered st l)|]; revert Hrun).
  - destruct (attempt _ _ _ _ _ _) as [st2 [response|e]] eqn:Ea.
    + pose proof (attempt_invariant _ _ _ _ _ _ _ _ Ea) as H12.
      unfold retry_stage. destruct (is_retry _ _ _).
      * destruct (increment _ _ _ _) as [r1|e].
        -- unfold except_max_retry.
           destruct (_on_request fuel _ _ _ _ _) as [[st3 [r|e]]|] eqn:Er;
             [| |discriminate].
           ++ intros [= <- <-]. eauto.
           ++ assert (R st2 st3) by eauto.
              destruct (is_max_retry_error e);
                [destruct (raise_on_status _)|]; intros [= <- <-]; eauto.
        -- destruct (is_max_retry_error e);
             [destruct (raise_on_status _)|]; by intros [= <- <-].
      * by intros [= <- <-].
    + intros [= <- <-]. by eapply attempt_invariant.
  - intros [= H].
    pose proof (no_match_invariant adapter (enrich request kwargs) kwargs rs
                  (set_registered st l)) as Hn.
    by rewrite H in Hn.
Qed.

End DispatchInvariant.

Section Monotone.

Context `{P : Platform}.

(** A request, whatever its outcome and however often it is replayed,
    lowers no call count. *)
Lemma on_request_counts fuel adapter request retries kwargs st st' res :
  _on_request fuel adapter request retries kwargs st = Some (st', res) ->
  counts_grow (objects st) (objects st').
Proof.
  apply (on_request_invariant
           (fun s s' => counts_grow (objects s) (objects s'))).
  - intros s. apply counts_grow_refl.
  - intros s1 s2 s3. apply counts_grow_trans.
  - intros s w. apply counts_grow_refl.
  - intros s a. apply counts_grow_count.
  - intros s request' r. apply counts_grow_refl.
  - intros s l. apply counts_grow_refl.
Qed.

(** A request leaves the settings of the session alone. *)
Lemma on_request_settings fuel adapter request retries kwargs st st' res :
  _on_request fuel adapter request retries kwargs st = Some (st', res) ->
  same_settings st st'.
Proof.
  apply (on_request_invariant same_settings).
  - intros s. by repeat split.
  - intros s1 s2 s3 (H1 & H2 & H3 & H4 & H5 & H6) (G1 & G2 & G3 & G4 & G5 & G6).
    repeat split; congruence.
  - intros s w. by repeat split.
  - intros s a. by repeat split.
  - intros s request' r. by repeat split.
  - intros s l. by repeat split.
Qed.

Lemma add_objects st meth u adding_headers a :
  counts_grow (objects st) (objects (fst (add st meth u adding_headers a))).
Proof.
  unfold add. destruct (check_content_type _); [|apply counts_grow_refl].
  destruct (Response__init__ _ _ _); [|apply counts_grow_refl].
  simpl. apply counts_grow_alloc.
Qed.

Lemma replace_object_objects st a :
  objects (fst (replace_object st a)) = objects st.
Proof. unfold replace_object. by destruct (registry_replace _ _ _ _). Qed.

Lemma replace_objects st meth u a :
  counts_grow (objects st) (objects (fst (replace st meth u a))).
Proof.
  unfold replace. destruct (Response__init__ _ _ _); [|apply counts_grow_refl].
  simpl. rewrite replace_object_objects. apply counts_grow_alloc.
Qed.

Lemma stop_objects st allow : objects (fst (stop st allow)) = objects st.
Proof.
  unfold stop. destruct (_patcher st) as [p|].
  - destruct (patcher_stop p); [|done]. simpl.
    destruct (negb _); [done|]. destruct (negb allow); [done|].
    by destruct (not_called _).
  - simpl. destruct (negb _); [done|]. destruct (negb allow); [done|].
    by destruct (not_called _).
Qed.

(** No operation lowers a call count. *)
Lemma run_counts op st st' :
  run op st = Some st' -> counts_grow (objects st) (objects st').
Proof.
  destruct op; simpl.
  - intros [= <-]. apply counts_grow_refl.
  - intros [= <-]. unfold _set_registry.
    destruct (registered st); apply counts_grow_refl.
  - intros [= <-]. apply add_objects.
  - intros [= <-]. apply counts_grow_refl.
  - intros [= <-]. apply counts_grow_refl.
  - intros [= <-]. unfold remove. destruct (registry_remove _ _ _ _).
    apply counts_grow_refl.
  - intros [= <-]. apply replace_objects.
  - intros [= <-]. rewrite replace_object_objects. apply counts_grow_refl.
  - intros [= <-]. unfold upsert.
    pose proof (replace_objects st meth u a) as Hr.
    destruct (replace st meth u a) as [st1 [r|e]]; [done|].
    destruct (bool_decide _); [|done].
    eapply counts_grow_trans; [done|apply add_objects].
  - intros [= <-]. unfold add_callback. simpl. apply counts_grow_alloc.
  - intros [= <-]. unfold start. destruct (_patcher st); apply counts_grow_refl.
  - intros [= <-]. rewrite stop_objects. apply counts_grow_refl.
  - intros [= <-]. unfold __exit__.
    pose proof (stop_objects st success) as Hs.
    destruct (stop st success) as [st1 [r|e]]; simpl in *; rewrite <- Hs;
      apply counts_grow_refl.
  - destruct (_on_request _ _ _ _ _ _) as [[st1 r]|] eqn:E; [|discriminate].
    intros [= <-]. by eapply on_request_counts.
Qed.

End Monotone.

Section CountsOnce.

Context `{P : Platform}.

Lemma post_process_calls hook response st st2 r :
  post_process hook response st = (st2, r) -> _calls st2 = _calls st.
Proof.
  unfold post_process. destruct hook as [h|].
  - destruct (h _ _) as [w r']. by intros [= <- <-].
  - by intros [= <- <-].
Qed.

(** Without a replay the retry stage ends the dispatch in the state it
    was given. *)
Lemma retry_stage_no_replay fuel adapter request retries kwargs response st :
  replays adapter retries response = false ->
  exists res,
    retry_stage fuel adapter request retries kwargs response st
    = Some (st, res)
    /\ (res = Ok response
        \/ exists e,
             res = Raise e
             /\ increment (effective_retries adapter retries)
                  (req_method (resp_request response)) (resp_url response)
                  response = Raise e).
Proof.
  unfold replays, retry_stage. destruct (is_retry _ _ _); simpl.
  - destruct (increment _ _ _ _) as [r1|e]; [discriminate|]. intros _.
    destruct (is_max_retry_error e); [destruct (raise_on_status _)|];
      eexists; (split; [reflexivity|]); eauto.
  - intros _. eexists. split; [reflexivity|]. by left.
Qed.

(** C1, as amended: let the lookup for a request return the registered,
    non-passthrough responder at address [a].  If materialisation raises
    (the body or the callback's result is an exception, or the callback
    raises), the dispatch raises that exception after raising the call
    count of [a] by exactly one, every other object untouched, and
    appending exactly one record, which holds the exception.  If the reply
    is produced, the response hook, when there is one, returns normally,
    and the retry policy does not replay the request, the dispatch ends
    after raising the call count of [a] by exactly one and appending
    exactly one record, which holds the reply.  And no operation of the
    session, a request with any number of replays included, lowers the
    call count of any responder object. *)
Theorem dispatch_counts_once (st : State) (adapter : HTTPAdapter)
    (request : PreparedRequest) (retries : option Retry)
    (kwargs : dict str) (fuel a : nat) (reasons : list str) (st1 : State) :
  let req := enrich request kwargs in
  let R := deref (objects st) a in
  _find_match st req = (st1, (Some a, reasons)) ->
  (a < length (objects st))%nat ->
  passthrough R = false ->
  (forall w e,
     get_response R req (world st) = (w, Raise e) ->
     exists st',
       _on_request (S fuel) adapter request retries kwargs st
       = Some (st', Raise e)
       /\ counted_once a (objects st) (objects st')
       /\ _calls st' = _calls st ++ [mkCall req (Raise e)])
  /\ (forall w resp st2 response,
        get_response R req (world st) = (w, Ok resp) ->
        post_process (response_callback st) (build_response req resp)
          (set_world st1 w) = (st2, Ok response) ->
        replays adapter retries response = false ->
        exists st' res,
          _on_request (S fuel) adapter request retries kwargs st
          = Some (st', res)
          /\ counted_once a (objects st) (objects st')
          /\ _calls st' = _calls st ++ [mkCall req (Ok response)]
          /\ (res = Ok response
              \/ exists e,
                   res = Raise e
                   /\ increment (effective_retries adapter retries)
                        (req_method (resp_request response))
                        (resp_url response) response = Raise e))
  /\ (forall op s s', run op s = Some s' ->
        counts_grow (objects s) (objects s')).
Proof.
  intros req R Hfind Ha Hpass.
  destruct (find_match_frame _ _ _ _ Hfind) as [l ->].
  split; [|split].
  - intros w e Hget.
    rewrite on_request_unfold. unfold dispatch_step. fold req.
    rewrite Hfind. unfold attempt, produce.
    cbn [objects world set_registered set_registry].
    fold R. rewrite Hpass, Hget.
    eexists. split; [reflexivity|]. split; [|reflexivity].
    apply (count_call_once (set_world (set_registered st l) w) a Ha).
  - intros w resp st2 response Hget Hhook Hrep.
    rewrite on_request_unfold. unfold dispatch_step. fold req.
    rewrite Hfind. unfold attempt, produce.
    cbn [objects world set_registered set_registry response_callback].
    fold R. rewrite Hpass, Hget, Hhook.
    destruct (retry_stage_no_replay fuel adapter req retries kwargs response
                (record_call (count_call st2 a) req (Ok response)) Hrep)
      as (res & -> & Hres).
    exists (record_call (count_call st2 a) req (Ok response)), res.
    split; [reflexivity|].
    pose proof (post_process_objects _ _ _ _ _ Hhook) as Ho.
    pose proof (post_process_calls _ _ _ _ _ Hhook) as Hc.
    split; [|split; [|done]].
    + cbn [objects record_call set_calls].
      assert (Ha2 : (a < length (objects st2))%nat) by by rewrite Ho.
      pose proof (count_call_once st2 a Ha2) as Hco.
      by rewrite Ho in Hco.
    + cbn [_calls record_call set_calls count_call set_objects].
      by rewrite Hc.
  - intros op s s'. apply run_counts.
Qed.

End CountsOnce.

(** C1, at the registration [add(GET, "http://example.com", body="test")]
    and a request for that URL, with an adapter that never retries. *)
Lemma dispatch_counts_once_witness :
  exists st' res,
    _on_request 1 Demo.no_retries (Demo.get (lit "http://example.com/")) None
      [] Demo.one_responder = Some (st', res)
    /\ counted_once 0 (objects Demo.one_responder) (objects st')
    /\ length (_calls st') = 1%nat.
Proof.
  pose proof (dispatch_counts_once Demo.one_responder Demo.no_retries
                (Demo.get (lit "http://example.com/")) None [] 0 0 []
                Demo.one_responder) as H.
  destruct H as (_ & Hok & _).
  - reflexivity.
  - simpl. lia.
  - reflexivity.
  - edestruct Hok as (st' & res & Hrun & Hcount & Hcalls & _).
    + reflexivity.
    + reflexivity.
    + reflexivity.
    + exists st', res. split; [exact Hrun|]. split; [exact Hcount|].
      by rewrite Hcalls.
Defined.

(** C1 as stated fails.  In a mock whose response hook raises, the one
    registered responder matches the request and produces its reply, the
    dispatch raises the hook's exception, and the responder's call count
    and the ledger are as before: nothing was counted, nothing recorded.
    And of two registered responders that both match a request only the
    one the lookup returns is counted: the call count of the other stays
    as it was. *)
Lemma matching_responder_not_counted :
  let req := enrich (Demo.get (lit "http://example.com/")) [] in
  (registered Cases.hooked = [0%nat]
   /\ passthrough (deref (objects Cases.hooked) 0) = false
   /\ fst (matches (deref (objects Cases.hooked) 0) req) = true
   /\ exists st',
        _on_request 1 Demo.no_retries (Demo.get (lit "http://example.com/"))
          None [] Cases.hooked = Some (st', Raise Demo.boom)
        /\ call_count (deref (objects st') 0)
           = call_count (deref (objects Cases.hooked) 0)
        /\ _calls st' = _calls Cases.hooked)
  /\ (registered Demo.two_responders = [0%nat; 1%nat]
      /\ passthrough (deref (objects Demo.two_responders) 1) = false
      /\ fst (matches (deref (objects Demo.two_responders) 1) req) = true
      /\ exists st' r,
           _on_request 1 Demo.no_retries
             (Demo.get (lit "http://example.com/")) None []
             Demo.two_responders = Some (st', Ok r)
           /\ call_count (deref (objects st') 1)
              = call_count (deref (objects Demo.two_responders) 1)
           /\ length (_calls st') = 1%nat).
Proof.
  intros req. split.
  - split; [reflexivity|]. split; [reflexivity|]. split; [reflexivity|].
    eexists. split; [reflexivity|]. split; reflexivity.
  - split; [reflexivity|]. split; [reflexivity|]. split; [reflexivity|].
    eexists _, _. split; [reflexivity|]. split; reflexivity.
Qed.

(** ** Requests that nothing matches *)

Lemma startswith_spec (s p : str) :
  startswith s p = true <-> exists rest, s = p ++ rest.
Proof.
  revert s. induction p as [|c p IH]; intros s; simpl.
  - split; [intros _; by exists s|done].
  - destruct s as [|d s].
    + split; [done|]. by intros [rest H].
    + rewrite andb_true_iff, Z.eqb_eq, IH. split.
      * intros [-> [rest ->]]. by exists rest.
      * intros [rest [= -> ->]]. split; [done|by exists rest].
Qed.

Section Unmatched.

Context `{P : Platform}.

Lemma first_match_none objects l request :
  (forall a, a ∈ l -> fst (matches (deref objects a) request) = false) ->
  first_match objects l request
  = (None, map (fun a => snd (matches (deref objects a) request)) l).
Proof.
  induction l as [|a l IH]; intros H; [done|].
  simpl. rewrite IH by (intros b Hb; apply H; by right).
  specialize (H a ltac:(left)).
  destruct (matches (deref objects a) request) as [ok reason].
  simpl in *. by subst ok.
Qed.

Lemma available_matches_aligned objects (reason : nat -> str) l pre :
  available_matches objects l (pre ++ map reason l) (length pre)
  = Ok (concat
          (map (fun a =>
                  lit "- " ++ method (deref objects a) ++ lit " "
                  ++ url_str (url (deref objects a)) ++ lit " "
                  ++ reason a ++ [10]) l)).
Proof.
  revert pre. induction l as [|a l IH]; intros pre; [done|].
  cbn [available_matches map concat].
  assert (Hl : (pre ++ reason a :: map reason l) !! length pre
               = Some (reason a)).
  { rewrite lookup_app_r by reflexivity. by rewrite Nat.sub_diag. }
  rewrite Hl.
  replace (pre ++ reason a :: map reason l)
    with ((pre ++ [reason a]) ++ map reason l) by by rewrite <- app_assoc.
  replace (S (length pre)) with (length (pre ++ [reason a]))
    by (rewrite length_app; simpl; lia).
  rewrite IH. f_equal. by rewrite <- !app_assoc.
Qed.

Lemma prefix_matches_spec request prefixes :
  existsb (prefix_matches request) prefixes = true
  <-> exists p, p ∈ prefixes
        /\ match p with
           | UStr s => exists rest, req_url request = s ++ rest
           | UPattern pat => re_match pat (req_url request) = true
           end.
Proof.
  rewrite existsb_exists. split.
  - intros (p & Hin & Hp). exists p. split; [by apply list_elem_of_In|].
    destruct p; [by apply startswith_spec|done].
  - intros (p & Hin & Hp). exists p. split; [by apply list_elem_of_In|].
    destruct p; [by apply startswith_spec|done].
Qed.

(** C3, as amended: in a [FirstMatchRegistry] let no registered responder
    match the request.  If a passthru prefix matches the URL (a literal
    prefix of it, or a pattern the [re] engine matches), the dispatch
    returns what the real transport returns, and nothing is appended to
    the ledger.  Otherwise it raises a [ConnectionError] whose message is
    the heading with the request's method and URL, then one line for
    every registered responder with its method, its URL and its own
    mismatch reason, then, when passthru prefixes are configured, the
    line "Passthru prefixes:" and one line for each of them; exactly one
    record is appended, which holds that error.  In both cases the
    responder objects, and so their call counts, are as before. *)
Theorem unmatched_request (st : State) (adapter : HTTPAdapter)
    (request : PreparedRequest) (retries : option Retry)
    (kwargs : dict str) (fuel : nat) :
  let req := enrich request kwargs in
  let sent := _real_send adapter req kwargs (world st) in
  let text := fun u : Url =>
    match u with UStr s => s | UPattern pat => pattern_str pat end in
  let line := fun a =>
    lit "- " ++ method (deref (objects st) a) ++ lit " "
    ++ text (url (deref (objects st) a)) ++ lit " "
    ++ snd (matches (deref (objects st) a) req) ++ [10] in
  let prefix_line := fun p => lit "- " ++ text p ++ [10] in
  let err :=
    mkExn ConnectionError
      (ArgsMessage
         (lit "Connection refused by Responses - the call doesn't match any registered mock."
          ++ [10; 10] ++ lit "Request: " ++ [10]
          ++ lit "- " ++ req_method req ++ lit " " ++ req_url req ++ [10; 10]
          ++ lit "Available matches:" ++ [10]
          ++ concat (map line (registered st))
          ++ match passthru_prefixes st with
             | [] => []
             | ps =>
                 lit "Passthru prefixes:" ++ [10]
                 ++ concat (map prefix_line ps)
             end))
      (Some req) in
  registry_class (_registry st) = FirstMatchRegistry ->
  (forall a, a ∈ registered st ->
     fst (matches (deref (objects st) a) req) = false) ->
  (existsb (prefix_matches req) (passthru_prefixes st) = true ->
     _on_request (S fuel) adapter request retries kwargs st
     = Some (set_world st (fst sent), snd sent))
  /\ (existsb (prefix_matches req) (passthru_prefixes st) = false ->
      _on_request (S fuel) adapter request retries kwargs st
      = Some (record_call st req (Raise err), Raise err))
  /\ (existsb (prefix_matches req) (passthru_prefixes st) = true
      <-> exists p, p ∈ passthru_prefixes st
            /\ match p with
               | UStr s => exists rest, req_url req = s ++ rest
               | UPattern pat => re_match pat (req_url req) = true
               end)
  /\ _calls (set_world st (fst sent)) = _calls st
  /\ objects (set_world st (fst sent)) = objects st
  /\ _calls (record_call st req (Raise err))
     = _calls st ++ [mkCall req (Raise err)]
  /\ objects (record_call st req (Raise err)) = objects st.
Proof.
  intros req sent text line prefix_line err Hc Hnone.
  assert (Hstep :
    _on_request (S fuel) adapter request retries kwargs st
    = Some (no_match adapter req kwargs
              (map (fun a => snd (matches (deref (objects st) a) req))
                 (registered st)) st)).
  { rewrite on_request_unfold. unfold dispatch_step. fold req.
    by rewrite (find_match_default st req Hc), (first_match_none _ _ _ Hnone). }
  split; [|split; [|split; [apply prefix_matches_spec|done]]].
  - intros Hp. rewrite Hstep. unfold no_match. rewrite Hp.
    subst sent. by destruct (_real_send _ _ _ _).
  - intros Hp. rewrite Hstep. unfold no_match. rewrite Hp.
    pose proof (available_matches_aligned (objects st)
                  (fun a => snd (matches (deref (objects st) a) req))
                  (registered st) []) as Hal.
    cbn [app length] in Hal. rewrite Hal.
    assert (Hmsg :
      error_msg_head req
      ++ concat
           (map (fun a =>
                   lit "- " ++ method (deref (objects st) a) ++ lit " "
                   ++ url_str (url (deref (objects st) a)) ++ lit " "
                   ++ snd (matches (deref (objects st) a) req) ++ [10])
              (registered st))
      ++ passthru_lines (passthru_prefixes st)
      = lit "Connection refused by Responses - the call doesn't match any registered mock."
        ++ [10; 10] ++ lit "Request: " ++ [10]
        ++ lit "- " ++ req_method req ++ lit " " ++ req_url req ++ [10; 10]
        ++ lit "Available matches:" ++ [10]
        ++ concat (map line (registered st))
        ++ match passthru_prefixes st with
           | [] => []
           | ps =>
               lit "Passthru prefixes:" ++ [10]
               ++ concat (map prefix_line ps)
           end).
    { unfold error_msg_head, passthru_lines.
      destruct (passthru_prefixes st); rewrite <- !app_assoc; reflexivity. }
    subst err. by rewrite Hmsg.
Qed.

End Unmatched.

(** C3 as stated fails: with the passthru prefix "http://other.org"
    configured, a request for "http://other.org/foo" that no responder
    matches is answered by the real transport and the ledger, empty before,
    is empty afterwards. *)
Lemma passthru_prefix_leaves_no_record :
  exists st' r,
    _on_request 1 Demo.no_retries (Demo.get (lit "http://other.org/foo"))
      None [] Demo.with_passthru = Some (st', Ok r)
    /\ _calls Demo.with_passthru = []
    /\ _calls st' = []
    /\ ~ (exists c, c ∈ _calls st').
Proof.
  eexists _, _. split; [reflexivity|].
  split; [reflexivity|]. split; [reflexivity|].
  intros [c Hc]. by apply elem_of_nil in Hc.
Qed.

(** C3 as amended, at the registration of "http://example.com", the
    passthru prefix "http://other.org" and a request for
    "http://example.com/foo": the message in full. *)
Lemma unmatched_request_witness :
  exists st' e,
    _on_request 1 Demo.no_retries (Demo.get (lit "http://example.com/foo"))
      None [] Demo.with_passthru = Some (st', Raise e)
    /\ exc_type e = ConnectionError
    /\ exc_args e
       = ArgsMessage
           (lit "Connection refused by Responses - the call doesn't match any registered mock."
            ++ [10; 10] ++ lit "Request: " ++ [10]
            ++ lit "- GET http://example.com/foo" ++ [10; 10]
            ++ lit "Available matches:" ++ [10]
            ++ lit "- GET http://example.com/ URL does not match" ++ [10]
            ++ lit "Passthru prefixes:" ++ [10]
            ++ lit "- http://other.org" ++ [10])
    /\ _calls st'
       = [mkCall (enrich (Demo.get (lit "http://example.com/foo")) [])
            (Raise e)].
Proof.
  pose proof (unmatched_request Demo.with_passthru Demo.no_retries
                (Demo.get (lit "http://example.com/foo")) None [] 0) as H.
  destruct H as (_ & Herr & _).
  - reflexivity.
  - intros a Ha. apply list_elem_of_singleton in Ha. subst a.
    reflexivity.
  - eexists _, _. split; [apply Herr; reflexivity|].
    split; [reflexivity|]. split; reflexivity.
Defined.

(** ** Retries *)

Section Retries.

Context `{P : Platform}.

Lemma attempt_recorded adapter request kwargs a hook st st2 response :
  attempt adapter request kwargs a hook st = (st2, Ok response) ->
  last (_calls st2) = Some (mkCall request (Ok response)).
Proof.
  unfold attempt.
  destruct (produce _ _ _ _ _) as [st1 [r|e]]; [|discriminate].
  destruct (post_process _ _ _) as [st1' [r'|e]]; [|discriminate].
  intros [= <- <-]. cbn [_calls record_call set_calls]. apply last_snoc.
Qed.

(** C4: let an attempt have produced the reply [response] and recorded it,
    leaving the state [st2], and let [r0] be the retry policy in force
    ([retries], or the adapter's [max_retries]).  If the policy does not
    deem method and status retryable, the dispatch returns [response].
    If it does and [increment] yields the policy [r1], the dispatch is the
    dispatch of the same request, from [st2], under [r1], inside this
    level's [except MaxRetryError] clause.  If [increment] raises the
    max-retries error, the dispatch re-raises it when [raise_on_status]
    is set and returns [response], the last reply produced, when it is
    not. *)
Theorem retry_after_reply (st : State) (adapter : HTTPAdapter)
    (request : PreparedRequest) (retries : option Retry)
    (kwargs : dict str) (fuel a : nat) (reasons : list str)
    (st1 st2 : State) (response : Response) :
  let req := enrich request kwargs in
  let r0 := effective_retries adapter retries in
  let m := req_method (resp_request response) in
  _find_match st req = (st1, (Some a, reasons)) ->
  attempt adapter req kwargs a (response_callback st1) st1
    = (st2, Ok response) ->
  last (_calls st2) = Some (mkCall req (Ok response))
  /\ (is_retry r0 m (status_code response) = false ->
      _on_request (S fuel) adapter request retries kwargs st
      = Some (st2, Ok response))
  /\ (is_retry r0 m (status_code response) = true ->
      forall r1,
        increment r0 m (resp_url response) response = Ok r1 ->
        _on_request (S fuel) adapter request retries kwargs st
        = except_max_retry r1 response
            (_on_request fuel adapter req (Some r1) kwargs st2))
  /\ (is_retry r0 m (status_code response) = true ->
      forall e,
        increment r0 m (resp_url response) response = Raise e ->
        is_max_retry_error e = true ->
        _on_request (S fuel) adapter request retries kwargs st
        = Some (st2, if raise_on_status r0 then Raise e else Ok response)).
Proof.
  intros req r0 m Hfind Hatt.
  split; [by eapply attempt_recorded|].
  assert (Hstep :
    _on_request (S fuel) adapter request retries kwargs st
    = retry_stage fuel adapter req retries kwargs response st2).
  { rewrite on_request_unfold. unfold dispatch_step. fold req.
    by rewrite Hfind, Hatt. }
  rewrite Hstep. unfold retry_stage. fold r0 m.
  split; [|split].
  - by intros ->.
  - by intros -> r1 ->.
  - intros -> e -> ->. by destruct (raise_on_status r0).
Qed.

(** What the [except MaxRetryError] clause lets through. *)
Lemma except_max_retry_spec (r1 : Retry) (response : Response) s res :
  except_max_retry r1 response (Some (s, res))
  = match res with
    | Ok r => Some (s, Ok r)
    | Raise e =>
        if is_max_retry_error e && negb (raise_on_status r1)
        then Some (s, Ok response)
        else Some (s, Raise e)
    end.
Proof.
  destruct res as [r|e]; [done|]. simpl.
  destruct (is_max_retry_error e); [|done].
  by destruct (raise_on_status r1).
Qed.

End Retries.

(** C4, with a responder that always answers 500 and a policy of one retry
    that does not raise on exhaustion: the first attempt is replayed, the
    second exhausts the policy, and the dispatch returns the second reply
    with two records in the ledger. *)
Lemma retry_after_reply_witness :
  exists st2 response st',
    attempt Demo.no_retries
      (enrich (Demo.get (lit "http://example.com/")) []) [] 0
      (response_callback Demo.always_500) Demo.always_500
    = (st2, Ok response)
    /\ _on_request 2 (Demo.one_retry false)
         (Demo.get (lit "http://example.com/")) None [] Demo.always_500
       = Some (st', Ok response)
    /\ length (_calls st') = 2%nat.
Proof.
  eexists _, _, _. split; [reflexivity|].
  split.
  - pose proof (retry_after_reply Demo.always_500 (Demo.one_retry false)
                  (Demo.get (lit "http://example.com/")) None [] 1 0 []
                  Demo.always_500) as H.
    edestruct H as (_ & _ & Hretry & _).
    + reflexivity.
    + reflexivity.
    + rewrite (Hretry eq_refl (0%nat, false) eq_refl). reflexivity.
  - reflexivity.
Defined.

(** The same scenario with [raise_on_status] set: the max-retries error
    reaches the caller, after two recorded attempts. *)
Example retries_exhausted_raise :
  exists st' e,
    _on_request 2 (Demo.one_retry true)
      (Demo.get (lit "http://example.com/")) None [] Demo.always_500
    = Some (st', Raise e)
    /\ exc_type e = MaxRetryError
    /\ length (_calls st') = 2%nat.
Proof. eexists _, _. split; [reflexivity|]. by split. Qed.

(** C10, with a registry of another class installed before the reset. *)
Lemma reset_frame_witness :
  _set_registry Demo.fresh Demo.ConsumingRegistry
  = (set_registry Demo.fresh (new_registry Demo.ConsumingRegistry), Ok tt)
  /\ _registry
       (reset (set_registry Demo.fresh (new_registry Demo.ConsumingRegistry)))
     = new_registry FirstMatchRegistry.
Proof.
  split; [reflexivity|].
  apply (reset_frame Demo.fresh). reflexivity.
Defined.

(** C5, after [start] with one responder that was never called. *)
Lemma stop_coverage_witness :
  snd (stop (start Demo.one_responder) true)
  = Raise (mkExn AssertionError
             (ArgsNotExecuted [(Demo.GET, UStr (lit "http://example.com/"))])
             None)
  /\ snd (stop (start Demo.one_responder) false) = Ok tt.
Proof.
  destruct (stop_coverage (start Demo.one_responder)) as (H1 & _ & _ & _ & H2 & _).
  - reflexivity.
  - intros p [= <-]. reflexivity.
  - split; [|exact H2]. rewrite H1; [reflexivity|]. discriminate.
Defined.

(** ** The URL check *)

Section UrlCheck.

Context `{P : Platform}.

(** The check on a literal URL compares the canonical texts of scheme,
    authority and path, the registered URL first passing through
    [_clean_unicode] when the code finds a character above 128 in it. *)
Lemma url_matches_literal (u other : str) :
  _url_matches (UStr u) other = true
  <-> _get_url_and_path (if _has_unicode u then _clean_unicode u else u)
      = _get_url_and_path other.
Proof. unfold _url_matches, str_eqb. apply bool_decide_eq_true. Qed.

(** Query and fragment play no part: two request URLs with the same
    scheme, authority and path get the same answer. *)
Lemma url_check_ignores_query_and_fragment (u other other' : str) :
  urllib.scheme (urllib.urlsplit other) = urllib.scheme (urllib.urlsplit other') ->
  urllib.netloc (urllib.urlsplit other) = urllib.netloc (urllib.urlsplit other') ->
  urllib.path (urllib.urlsplit other) = urllib.path (urllib.urlsplit other') ->
  _url_matches (UStr u) other = _url_matches (UStr u) other'.
Proof.
  intros Hs Hn Hp. unfold _url_matches, _get_url_and_path.
  by rewrite Hs, Hn, Hp.
Qed.

(** The registration "http://exámple.com/" matches a request for its
    punycode form, with or without a query and a fragment, whatever the
    canonical form [parse_url] gives. *)
Lemma unicode_url_matches_punycode :
  let registered_url := lit "http://ex" ++ [225] ++ lit "mple.com/" in
  _url_matches (UStr registered_url) (lit "http://xn--exmple-qta.com/")
  = true
  /\ _url_matches (UStr registered_url)
       (lit "http://xn--exmple-qta.com/?q=1#top") = true.
Proof.
  split; apply url_matches_literal; reflexivity.
Qed.


End UrlCheck.

(** ** Query parameters *)

Lemma dict_get_set {V} (d : dict V) (k k' : str) (v : V) :
  dict_get (dict_set d k v) k'
  = if str_eqb k k' then Some v else dict_get d k'.
Proof.
  unfold str_eqb. induction d as [|[k0 v0] d IH]; simpl.
  - unfold str_eqb. by repeat case_bool_decide.
  - unfold str_eqb in *. repeat case_bool_decide; simpl;
      unfold str_eqb; repeat case_bool_decide; subst; try done.
Qed.

Lemma params_of_groups_get (groups : list (str * list str)) (key : str) :
  dict_get (params_of_groups groups) key
  = group_value <$> last_group key groups.
Proof.
  unfold params_of_groups.
  assert (H : forall d,
    dict_get
      (fold_left (fun params g => dict_set params (fst g) (group_value (snd g)))
         groups d) key
    = match last_group key groups with
      | Some vs => Some (group_value vs)
      | None => dict_get d key
      end).
  { induction groups as [|g groups IH]; intros d; [done|].
    simpl. rewrite IH, dict_get_set.
    destruct (last_group key groups); [done|].
    by destruct (str_eqb (fst g) key). }
  rewrite H. by destruct (last_group key groups).
Qed.

Lemma groupby_head pairs k vs groups :
  groupby pairs = (k, vs) :: groups ->
  exists v rest, pairs = (k, v) :: rest.
Proof.
  destruct pairs as [|[k0 v0] rest]; [done|]. simpl.
  destruct (groupby rest) as [|[k' vs'] groups']; [|destruct (str_eqb k0 k')];
    intros [= <- _ _]; by eexists _, _.
Qed.

Lemma groupby_absent pairs key :
  values_of key pairs = [] -> last_group key (groupby pairs) = None.
Proof.
  unfold values_of.
  induction pairs as [|[k v] rest IH]; [done|]. simpl.
  unfold str_eqb at 1. case_bool_decide as Hk; [done|]. intros Hrest.
  specialize (IH Hrest).
  destruct (groupby rest) as [|[k' vs'] groups'] eqn:Eg.
  - simpl. unfold str_eqb. by rewrite bool_decide_eq_false_2.
  - simpl in IH. unfold str_eqb at 1. case_bool_decide as Hkk.
    + subst k'. simpl. destruct (last_group key groups'); [done|].
      unfold str_eqb in *. by rewrite bool_decide_eq_false_2.
    + simpl. destruct (last_group key groups'); [done|].
      destruct (str_eqb k' key); [done|].
      unfold str_eqb. by rewrite bool_decide_eq_false_2.
Qed.

Lemma groupby_single pairs key v :
  values_of key pairs = [v] -> last_group key (groupby pairs) = Some [v].
Proof.
  induction pairs as [|[k x] rest IH]; [done|].
  unfold values_of. simpl.
  unfold str_eqb at 1. case_bool_decide as Hk.
  - subst k. simpl. intros [= -> Hrest].
    pose proof (groupby_absent rest key Hrest) as Habs.
    destruct (groupby rest) as [|[k' vs'] groups'] eqn:Eg.
    + simpl. unfold str_eqb. by rewrite bool_decide_eq_true_2.
    + unfold str_eqb at 1. case_bool_decide as Hkk.
      * subst k'. simpl in Habs.
        destruct (last_group key groups'); [done|].
        unfold str_eqb in Habs. by rewrite bool_decide_eq_true_2 in Habs.
      * simpl. simpl in Habs. rewrite Habs.
        unfold str_eqb. by rewrite bool_decide_eq_true_2.
  - intros Hrest. specialize (IH Hrest).
    destruct (groupby rest) as [|[k' vs'] groups'] eqn:Eg; [done|].
    simpl in IH. unfold str_eqb at 1. case_bool_decide as Hkk.
    + subst k'. simpl. destruct (last_group key groups'); [done|].
      unfold str_eqb in *. by rewrite bool_decide_eq_false_2 in IH.
    + simpl. destruct (last_group key groups'); [done|].
      by destruct (str_eqb k' key).
Qed.

Section Params.

Context `{P : Platform}.

(** The part of the grouping that holds: a key that occurs once among the
    parsed pairs maps to its value. *)
Lemma params_single_occurrence (u key v : str) :
  values_of key (parse_qsl (urllib.query (urllib.urlsplit u))) = [v] ->
  dict_get (_parse_request_params u) key = Some (Single v)
  /\ spec_param key (parse_qsl (urllib.query (urllib.urlsplit u)))
     = Some (Single v).
Proof.
  intros H. unfold _parse_request_params, spec_param.
  by rewrite params_of_groups_get, (groupby_single _ _ _ H), H.
Qed.

End Params.

(** C7: for the query string "a=1&b=2&a=3" the key "a" occurs twice, so the
    params mapping should hold the list of both values under it;
    [itertools.groupby] only groups neighbours, the two occurrences form two
    groups, and the second overwrites the first: the mapping holds the
    single value "3" under "a". *)
Theorem params_of_separated_key :
  let pairs := [(lit "a", lit "1"); (lit "b", lit "2"); (lit "a", lit "3")] in
  let request := Demo.get (lit "http://example.com/?a=1&b=2&a=3") in
  Demo.plain_parse_qsl (lit "a=1&b=2&a=3") = pairs
  /\ values_of (lit "a") pairs = [lit "1"; lit "3"]
  /\ spec_param (lit "a") pairs = Some (Multi [lit "1"; lit "3"])
  /\ groupby pairs
     = [(lit "a", [lit "1"]); (lit "b", [lit "2"]); (lit "a", [lit "3"])]
  /\ params_of_groups (groupby pairs)
     = [(lit "a", Single (lit "3")); (lit "b", Single (lit "2"))]
  /\ params (enrich (P := Demo.platform) request [])
     = Some [(lit "a", Single (lit "3")); (lit "b", Single (lit "2"))].
Proof. repeat split. Qed.

(** ** The patcher invariant *)

Section PatcherInvariant.

Context `{P : Platform}.

Lemma init_patcher_started o w assert_all callback prefixes tgt registry :
  patcher_started
    (RequestsMock__init__ o w assert_all callback prefixes tgt registry).
Proof. intros p. discriminate. Qed.

Lemma add_patcher st meth u adding_headers a :
  _patcher (fst (add st meth u adding_headers a)) = _patcher st.
Proof.
  unfold add. destruct (check_content_type _); [|done].
  by destruct (Response__init__ _ _ _).
Qed.

Lemma replace_object_patcher st a :
  _patcher (fst (replace_object st a)) = _patcher st.
Proof. unfold replace_object. by destruct (registry_replace _ _ _ _). Qed.

Lemma replace_patcher st meth u a :
  _patcher (fst (replace st meth u a)) = _patcher st.
Proof.
  unfold replace. destruct (Response__init__ _ _ _); [|done].
  simpl. by rewrite replace_object_patcher.
Qed.

(** Every operation keeps the invariant under which [stop] is stated: a
    patcher held by the mock was started. *)
Lemma run_patcher_started op st st' :
  patcher_started st -> run op st = Some st' -> patcher_started st'.
Proof.
  intros Hp. unfold patcher_started.
  destruct op; simpl.
  - intros [= <-]. exact Hp.
  - intros [= <-]. unfold _set_registry. by destruct (registered st).
  - intros [= <-]. by rewrite add_patcher.
  - intros [= <-]. exact Hp.
  - intros [= <-]. exact Hp.
  - intros [= <-]. unfold remove. by destruct (registry_remove _ _ _ _).
  - intros [= <-]. by rewrite replace_patcher.
  - intros [= <-]. by rewrite replace_object_patcher.
  - intros [= <-]. unfold upsert.
    pose proof (replace_patcher st meth u a) as Hr.
    destruct (replace st meth u a) as [st1 [r|e]]; simpl in Hr |- *;
      [by rewrite Hr|].
    destruct (bool_decide _); simpl; [|by rewrite Hr].
    by rewrite add_patcher, Hr.
  - intros [= <-]. exact Hp.
  - intros [= <-]. unfold start. destruct (_patcher st) eqn:E.
    + exact Hp.
    + simpl. by intros p [= <-].
  - intros [= <-].
    destruct (stop_patcher st Hp allow_assert) as [->|[E ->]]; [done|exact Hp].
  - intros [= <-]. unfold __exit__.
    pose proof (stop_patcher st Hp success) as Hs.
    destruct (stop st success) as [st1 [r|e]]; simpl in Hs |- *;
      destruct Hs as [->|[E ->]]; done.
  - destruct (_on_request _ _ _ _ _ _) as [[st1 r]|] eqn:E; [|discriminate].
    intros [= <-]. destruct (on_request_settings _ _ _ _ _ _ _ _ E) as [-> _].
    exact Hp.
Qed.

End PatcherInvariant.

(** ** The scenarios of the specification, run on the model *)

(** Register GET "http://example.com" with body "test" and request it:
    status 200, body "test", content type "text/plain", one record, call
    count one. *)
Example scenario_static_reply :
  exists st' r,
    _on_request 1 Demo.no_retries (Demo.get (lit "http://example.com/")) None
      [] Demo.one_responder = Some (st', Ok r)
    /\ status_code r = 200
    /\ body_stream (raw r) = StreamBytesIO (Open (lit "test") 0)
    /\ http_headers (raw r)
       = [(lit "content-type", (lit "Content-Type", [lit "text/plain"]))]
    /\ length (_calls st') = 1%nat
    /\ map call_count (objects st') = [1].
Proof. eexists _, _. split; [reflexivity|]. by repeat split. Qed.

(** A responder whose body is an exception: the exception reaches the
    caller, is recorded, and the call is counted. *)
Example scenario_failing_reply :
  exists st',
    _on_request 1 Demo.no_retries (Demo.get (lit "http://example.com/")) None
      [] Demo.failing_responder = Some (st', Raise Demo.boom)
    /\ map call_response (_calls st') = [Raise Demo.boom]
    /\ map call_count (objects st') = [1].
Proof. eexists. split; [reflexivity|]. by split. Qed.

(** Two responders for the same URL: the one registered first answers, once
    and again, and the second is never counted. *)
Example scenario_first_match :
  exists st1 r1 st2 r2,
    _on_request 1 Demo.no_retries (Demo.get (lit "http://example.com/")) None
      [] Demo.two_responders = Some (st1, Ok r1)
    /\ _on_request 1 Demo.no_retries (Demo.get (lit "http://example.com/"))
         None [] st1 = Some (st2, Ok r2)
    /\ body_stream (raw r1) = StreamBytesIO (Open (lit "first") 0)
    /\ body_stream (raw r2) = StreamBytesIO (Open (lit "first") 0)
    /\ map call_count (objects st2) = [2; 0]
    /\ registered st2 = [0; 1]%nat.
Proof.
  eexists _, _, _, _. split; [reflexivity|]. split; [reflexivity|].
  by repeat split.
Qed.

(** A registration with a query string gets a query-string matcher, and
    the order of the parameters in the request does not matter to the URL
    check. *)
Example scenario_query_string :
  let st :=
    fst (add Demo.fresh Demo.GET (UStr (lit "http://example.com/?test=1"))
           None (Demo.with_body (BData (BodyStr (lit "ok"))))) in
  length (match_ (deref (objects st) 0)) = 1%nat
  /\ fst (matches (deref (objects st) 0)
            (Demo.get (lit "http://example.com/?test=1"))) = true
  /\ matches (deref (objects st) 0)
       (Demo.get (lit "http://example.com/?test=2"))
     = (false, lit "Query string doesn't match.").
Proof. by repeat split. Qed.

(** * Further properties of the code *)

(** ** What a dispatch leaves alone *)

Section DispatchFrame.

Context `{P : Platform}.

Lemma enrich_enrich request kwargs :
  enrich (enrich request kwargs) kwargs = enrich request kwargs.
Proof. reflexivity. Qed.

Lemma find_match_calls st request st1 r :
  _find_match st request = (st1, r) -> _calls st1 = _calls st.
Proof. intros H. by destruct (find_match_frame _ _ _ _ H) as [l ->]. Qed.

(** A reply that [produce] hands on was neither counted nor recorded. *)
Lemma produce_ok_frame adapter request kwargs a st st2 response :
  produce adapter request kwargs a st = (st2, Ok response) ->
  objects st2 = objects st /\ _calls st2 = _calls st.
Proof.
  unfold produce. destruct (passthrough _).
  - destruct (_real_send _ _ _ _) as [w r]. by intros [= <- _].
  - destruct (get_response _ _ _) as [w [resp|e]]; [|done].
    by intros [= <- _].
Qed.

(** An attempt appends at most one record, for the request it was given. *)
Lemma attempt_ledger adapter request kwargs a hook st st2 r :
  attempt adapter request kwargs a hook st = (st2, r) ->
  _calls st2 = _calls st
  \/ exists r', _calls st2 = _calls st ++ [mkCall request r'].
Proof.
  unfold attempt, produce. destruct (passthrough _).
  - destruct (_real_send _ _ _ _) as [w [response|e]].
    + destruct (post_process _ _ _) as [st1 [response'|e]] eqn:Eh;
        pose proof (post_process_calls _ _ _ _ _ Eh) as Hc;
        intros [= <- <-]; [right|left; done].
      eexists. cbn [_calls record_call set_calls count_call set_objects].
      unfold CallList.add. by rewrite Hc.
    + intros [= <- <-]. by left.
  - destruct (get_response _ _ _) as [w [resp|e]].
    + destruct (post_process _ _ _) as [st1 [response'|e]] eqn:Eh;
        pose proof (post_process_calls _ _ _ _ _ Eh) as Hc;
        intros [= <- <-]; [right|left; done].
      eexists. cbn [_calls record_call set_calls count_call set_objects].
      unfold CallList.add. by rewrite Hc.
    + intros [= <- <-]. right. by eexists.
Qed.

Lemma no_match_ledger adapter request kwargs reasons st :
  let st2 := fst (no_match adapter request kwargs reasons st) in
  _calls st2 = _calls st
  \/ exists r', _calls st2 = _calls st ++ [mkCall request r'].
Proof.
  unfold no_match. destruct (existsb _ _).
  - destruct (_real_send _ _ _ _). by left.
  - destruct (available_matches _ _ _ _); [|by left].
    right. by eexists.
Qed.

(** The records a dispatch appends, replays included, hold the request
    it was given, with its derived attributes. *)
Lemma on_request_ledger (fuel : nat) (adapter : HTTPAdapter)
    (request : PreparedRequest) (retries : option Retry) (kwargs : dict str)
    (st st' : State) (res : result Response) :
  _on_request fuel adapter request retries kwargs st = Some (st', res) ->
  exists new,
    _calls st' = _calls st ++ new
    /\ forall c, c ∈ new -> call_request c = enrich request kwargs.
Proof.
  revert adapter request retries st st' res.
  induction fuel as [|fuel IH]; intros adapter request retries st st' res;
    [discriminate|].
  rewrite on_request_unfold. unfold dispatch_step.
  destruct (_find_match st _) as [st1 [[a|] rs]] eqn:Ef;
    pose proof (find_match_calls _ _ _ _ Ef) as Hc1.
  - destruct (attempt _ _ _ _ _ _) as [st2 [response|e]] eqn:Ea;
      pose proof (attempt_ledger _ _ _ _ _ _ _ _ Ea) as Hc2.
    + assert (Hhere : exists new,
                _calls st2 = _calls st ++ new
                /\ forall c, c ∈ new -> call_request c = enrich request kwargs).
      { destruct Hc2 as [Hc2|[r' Hc2]]; rewrite Hc2, Hc1.
        - exists []. split; [by rewrite app_nil_r|]. intros c Hc.
          by apply elem_of_nil in Hc.
        - eexists. split; [done|]. intros c Hc.
          apply list_elem_of_singleton in Hc. by subst c. }
      destruct Hhere as (new & Hnew & Hall).
      unfold retry_stage. destruct (is_retry _ _ _).
      * destruct (increment _ _ _ _) as [r1|e].
        -- unfold except_max_retry.
           destruct (_on_request fuel _ _ _ _ _) as [[st3 r3]|] eqn:Er;
             [|discriminate].
           destruct (IH _ _ _ _ _ _ Er) as (new' & Hnew' & Hall').
           rewrite enrich_enrich in Hall'.
           assert (Hgoal : exists new0,
                     _calls st3 = _calls st ++ new0
                     /\ forall c, c ∈ new0 ->
                          call_request c = enrich request kwargs).
           { exists (new ++ new'). split.
             - by rewrite Hnew', Hnew, app_assoc.
             - intros c Hc. apply elem_of_app in Hc as [Hc|Hc]; auto. }
           destruct r3 as [r|e];
             [|destruct (is_max_retry_error e);
                 [destruct (raise_on_status _)|]];
             by intros [= <- <-].
        -- destruct (is_max_retry_error e);
             [destruct (raise_on_status _)|]; intros [= <- <-]; eauto.
      * intros [= <- <-]. eauto.
    + intros [= <- <-].
      destruct Hc2 as [Hc2|[r' Hc2]]; rewrite Hc2, Hc1.
      * exists []. split; [by rewrite app_nil_r|]. intros c Hc.
        by apply elem_of_nil in Hc.
      * eexists. split; [done|]. intros c Hc.
        apply list_elem_of_singleton in Hc. by subst c.
  - intros [= H].
    pose proof (no_match_ledger adapter (enrich request kwargs) kwargs rs st1)
      as Hn.
    cbv zeta in Hn. rewrite H in Hn. cbn [fst] in Hn.
    destruct Hn as [Hn|[r' Hn]]; rewrite Hn, Hc1.
    + exists []. split; [by rewrite app_nil_r|]. intros c Hc.
      by apply elem_of_nil in Hc.
    + eexists. split; [done|]. intros c Hc.
      apply list_elem_of_singleton in Hc. by subst c.
Qed.

(** X1: a dispatch, whatever its outcome and however often the request
    is replayed, only appends to the ledger: the records that were there
    stay, in their order, and every record appended holds this request
    (method, URL, headers and body as sent, with the derived attributes
    [params] and [req_kwargs]). *)
Theorem dispatch_appends_to_ledger (fuel : nat) (adapter : HTTPAdapter)
    (request : PreparedRequest) (retries : option Retry) (kwargs : dict str)
    (st st' : State) (res : result Response) :
  _on_request fuel adapter request retries kwargs st = Some (st', res) ->
  (forall i c, _calls st !! i = Some c -> _calls st' !! i = Some c)
  /\ (forall i c,
        _calls st' !! i = Some c -> (length (_calls st) <= i)%nat ->
        call_request c = enrich request kwargs).
Proof.
  intros Hrun. destruct (on_request_ledger _ _ _ _ _ _ _ _ Hrun)
    as (new & -> & Hnew).
  split.
  - intros i c Hi. by apply lookup_app_l_Some.
  - intros i c Hi Hle. apply lookup_app_Some in Hi as [Hi|[_ Hi]].
    + apply lookup_lt_Some in Hi. lia.
    + apply Hnew. by eapply list_elem_of_lookup_2.
Qed.

Lemma same_but_count_refl r : same_but_count r r.
Proof. by repeat split. Qed.

Lemma only_counts_change_refl o : only_counts_change o o.
Proof.
  split; [done|]. intros a r H. exists r. split; [done|].
  apply same_but_count_refl.
Qed.

Lemma only_counts_change_trans o1 o2 o3 :
  only_counts_change o1 o2 -> only_counts_change o2 o3 ->
  only_counts_change o1 o3.
Proof.
  intros [L12 H12] [L23 H23]. split; [congruence|].
  intros a r H.
  destruct (H12 a r H) as (r2 & H2 & E1 & E2 & E3 & E4 & E5 & E6 & E7).
  destruct (H23 a r2 H2) as (r3 & H3 & G1 & G2 & G3 & G4 & G5 & G6 & G7).
  exists r3. split; [done|]. repeat split; congruence.
Qed.

Lemma only_counts_change_count st a :
  only_counts_change (objects st) (objects (count_call st a)).
Proof.
  rewrite objects_count_call. split; [by rewrite length_alter|].
  intros b r H. destruct (decide (b = a)) as [->|Hne].
  - eexists. rewrite list_lookup_alter_eq, H. simpl. split; [done|].
    by repeat split.
  - exists r. rewrite list_lookup_alter_ne by done. split; [done|].
    apply same_but_count_refl.
Qed.

Lemma on_request_objects fuel adapter request retries kwargs st st' res :
  _on_request fuel adapter request retries kwargs st = Some (st', res) ->
  only_counts_change (objects st) (objects st').
Proof.
  apply (on_request_invariant
           (fun s s' => only_counts_change (objects s) (objects s'))).
  - intros s. apply only_counts_change_refl.
  - intros s1 s2 s3. apply only_counts_change_trans.
  - intros s w. apply only_counts_change_refl.
  - intros s a. apply only_counts_change_count.
  - intros s request' r. apply only_counts_change_refl.
  - intros s l. apply only_counts_change_refl.
Qed.

(** X2: a dispatch, whatever its outcome and however often the request
    is replayed, creates and drops no responder object and changes
    nothing of a responder but its call count, which it never lowers; the
    settings of the mock (patcher, coverage flag, response hook, passthru
    prefixes, target, registry class) are as before. *)
Theorem dispatch_changes_counts_only (fuel : nat) (adapter : HTTPAdapter)
    (request : PreparedRequest) (retries : option Retry) (kwargs : dict str)
    (st st' : State) (res : result Response) :
  _on_request fuel adapter request retries kwargs st = Some (st', res) ->
  only_counts_change (objects st) (objects st')
  /\ counts_grow (objects st) (objects st')
  /\ same_settings st st'.
Proof.
  intros Hrun. split; [|split].
  - by eapply on_request_objects.
  - by eapply on_request_counts.
  - by eapply on_request_settings.
Qed.

End DispatchFrame.

(** X1, on a request that is replayed once: the records appended are
    for the request. *)
Lemma dispatch_appends_to_ledger_witness :
  exists st' res,
    _on_request 2 (Demo.one_retry false)
      (Demo.get (lit "http://example.com/")) None [] Demo.always_500
    = Some (st', res)
    /\ forall i c, _calls st' !! i = Some c ->
         call_request c = enrich (Demo.get (lit "http://example.com/")) [].
Proof.
  eexists _, _.
  eassert (Hrun : _on_request 2 (Demo.one_retry false)
                    (Demo.get (lit "http://example.com/")) None []
                    Demo.always_500 = Some (_, _)) by reflexivity.
  destruct (dispatch_appends_to_ledger _ _ _ _ _ _ _ _ Hrun) as (_ & H2).
  split; [exact Hrun|].
  intros i c Hi. apply (H2 i c Hi). simpl. lia.
Defined.

(** X2, on the same request. *)
Lemma dispatch_changes_counts_only_witness :
  exists st' res,
    _on_request 2 (Demo.one_retry false)
      (Demo.get (lit "http://example.com/")) None [] Demo.always_500
    = Some (st', res)
    /\ only_counts_change (objects Demo.always_500) (objects st')
    /\ same_settings Demo.always_500 st'.
Proof.
  eexists _, _.
  eassert (Hrun : _on_request 2 (Demo.one_retry false)
                    (Demo.get (lit "http://example.com/")) None []
                    Demo.always_500 = Some (_, _)) by reflexivity.
  destruct (dispatch_changes_counts_only _ _ _ _ _ _ _ _ Hrun)
    as (H1 & _ & H2).
  split; [exact Hrun|]. by split.
Defined.

(** ** Replays come to an end *)

Section Termination.

Context `{P : Platform}.

Lemma attempt_ledger_length adapter request kwargs a hook st st2 r :
  attempt adapter request kwargs a hook st = (st2, r) ->
  (length (_calls st2) <= length (_calls st) + 1)%nat.
Proof.
  intros H.
  destruct (attempt_ledger _ _ _ _ _ _ _ _ H) as [->|[r' ->]];
    [|rewrite length_app; simpl]; lia.
Qed.

(** X3: let [mu] measure a retry policy so that every [increment] that
    grants another attempt lowers the measure (for [urllib3]'s policy:
    the retries left).  Then a dispatch under the policy [r] returns or
    raises within [mu r] replays: the recursion of [_on_request] is never
    deeper than [mu r + 1], and the dispatch appends at most [mu r + 1]
    records to the ledger. *)
Theorem dispatch_terminates (mu : Retry -> nat) (fuel : nat)
    (adapter : HTTPAdapter) (request : PreparedRequest)
    (retries : option Retry) (kwargs : dict str) (st : State) :
  (forall r m u response r',
     increment r m u response = Ok r' -> (mu r' < mu r)%nat) ->
  (mu (effective_retries adapter retries) < fuel)%nat ->
  exists st' res,
    _on_request fuel adapter request retries kwargs st = Some (st', res)
    /\ (length (_calls st')
        <= length (_calls st) + mu (effective_retries adapter retries) + 1)%nat.
Proof.
  intros Hmu. revert request retries st.
  induction fuel as [|fuel IH]; intros request retries st Hfuel; [lia|].
  rewrite on_request_unfold. unfold dispatch_step.
  destruct (_find_match st _) as [st1 [[a|] rs]] eqn:Ef;
    pose proof (find_match_calls _ _ _ _ Ef) as Hc1.
  - destruct (attempt _ _ _ _ _ _) as [st2 [response|e]] eqn:Ea;
      pose proof (attempt_ledger_length _ _ _ _ _ _ _ _ Ea) as Hc2;
      rewrite Hc1 in Hc2.
    + unfold retry_stage. destruct (is_retry _ _ _).
      * destruct (increment _ _ _ _) as [r1|e] eqn:Ei.
        -- pose proof (Hmu _ _ _ _ _ Ei) as Hlt.
           destruct (IH (enrich request kwargs) (Some r1) st2)
             as (st3 & r3 & -> & Hc3); [simpl; lia|].
           simpl in Hc3. unfold except_max_retry.
           destruct r3 as [r|e];
             [|destruct (is_max_retry_error e);
                 [destruct (raise_on_status _)|]];
             eexists _, _; (split; [reflexivity|lia]).
        -- destruct (is_max_retry_error e);
             [destruct (raise_on_status _)|];
             eexists _, _; (split; [reflexivity|lia]).
      * eexists _, _. split; [reflexivity|lia].
    + eexists _, _. split; [reflexivity|lia].
  - pose proof (no_match_ledger adapter (enrich request kwargs) kwargs rs st1)
      as Hn. cbv zeta in Hn.
    destruct (no_match _ _ _ _ _) as [st2 r]. cbn [fst] in Hn.
    eexists _, _. split; [reflexivity|].
    destruct Hn as [->|[r' ->]]; [|rewrite length_app; simpl];
      rewrite Hc1; lia.
Qed.

End Termination.

(** X3, on a responder that always answers 500 and a policy with one
    retry left: the measure is the number of retries left. *)
Lemma dispatch_terminates_witness :
  exists st' res,
    _on_request 2 (Demo.one_retry true)
      (Demo.get (lit "http://example.com/")) None [] Demo.always_500
    = Some (st', res)
    /\ (length (_calls st') <= 2)%nat.
Proof.
  apply (dispatch_terminates (P := Demo.platform)
           (fun r => fst (r : nat * bool)) 2
           (Demo.one_retry true) (Demo.get (lit "http://example.com/")) None
           [] Demo.always_500).
  - intros [n b] m u response r'. simpl. destruct n; [discriminate|].
    intros [= <-]. simpl. lia.
  - simpl. lia.
Defined.

(** ** Passthrough responders, and a response hook that raises *)

Section Passthrough.

Context `{P : Platform}.

(** X4: let the lookup return a registered [PassthroughResponse].  The
    request goes to the real transport.  When the transport raises, the
    dispatch raises the same exception and neither counts nor records the
    call.  When it answers (the response hook, if any, returning
    normally) and the policy does not replay, the call count of the
    responder goes up by exactly one, every other object untouched, and
    exactly one record is appended, holding the reply. *)
Theorem passthrough_responder (st : State) (adapter : HTTPAdapter)
    (request : PreparedRequest) (retries : option Retry)
    (kwargs : dict str) (fuel a : nat) (reasons : list str) (st1 : State) :
  let req := enrich request kwargs in
  _find_match st req = (st1, (Some a, reasons)) ->
  (a < length (objects st))%nat ->
  passthrough (deref (objects st) a) = true ->
  (forall w e,
     _real_send adapter req kwargs (world st) = (w, Raise e) ->
     _on_request (S fuel) adapter request retries kwargs st
     = Some (set_world st1 w, Raise e)
     /\ objects (set_world st1 w) = objects st
     /\ _calls (set_world st1 w) = _calls st)
  /\ (forall w r st2 response,
        _real_send adapter req kwargs (world st) = (w, Ok r) ->
        post_process (response_callback st) r (set_world st1 w)
        = (st2, Ok response) ->
        replays adapter retries response = false ->
        exists st' res,
          _on_request (S fuel) adapter request retries kwargs st
          = Some (st', res)
          /\ counted_once a (objects st) (objects st')
          /\ _calls st' = _calls st ++ [mkCall req (Ok response)]).
Proof.
  intros req Hfind Ha Hpass.
  destruct (find_match_frame _ _ _ _ Hfind) as [l ->].
  split.
  - intros w e Hsend.
    rewrite on_request_unfold. unfold dispatch_step. fold req.
    rewrite Hfind. unfold attempt, produce.
    cbn [objects world set_registered set_registry].
    by rewrite Hpass, Hsend.
  - intros w r st2 response Hsend Hhook Hrep.
    rewrite on_request_unfold. unfold dispatch_step. fold req.
    rewrite Hfind. unfold attempt, produce.
    cbn [objects world set_registered set_registry response_callback].
    rewrite Hpass, Hsend, Hhook.
    destruct (retry_stage_no_replay fuel adapter req retries kwargs response
                (record_call (count_call st2 a) req (Ok response)) Hrep)
      as (res & -> & _).
    eexists _, _. split; [reflexivity|].
    pose proof (post_process_objects _ _ _ _ _ Hhook) as Ho.
    pose proof (post_process_calls _ _ _ _ _ Hhook) as Hc.
    split.
    + cbn [objects record_call set_calls].
      assert (Ha2 : (a < length (objects st2))%nat) by by rewrite Ho.
      pose proof (count_call_once st2 a Ha2) as Hco.
      by rewrite Ho in Hco.
    + cbn [_calls record_call set_calls count_call set_objects].
      by rewrite Hc.
Qed.

(** X5: let the lookup return the responder at [a] and the reply be
    produced.  When the response hook raises, the dispatch raises the
    hook's exception, and the call is neither counted nor recorded: the
    responder objects and the ledger are as before the request. *)
Theorem response_hook_failure (st : State) (adapter : HTTPAdapter)
    (request : PreparedRequest) (retries : option Retry)
    (kwargs : dict str) (fuel a : nat) (reasons : list str)
    (st1 st2 st3 : State) (response : Response) (e : Exn) :
  let req := enrich request kwargs in
  _find_match st req = (st1, (Some a, reasons)) ->
  produce adapter req kwargs a st1 = (st2, Ok response) ->
  post_process (response_callback st) response st2 = (st3, Raise e) ->
  _on_request (S fuel) adapter request retries kwargs st
  = Some (st3, Raise e)
  /\ objects st3 = objects st
  /\ _calls st3 = _calls st.
Proof.
  intros req Hfind Hprod Hhook.
  pose proof (find_match_objects _ _ _ _ Hfind) as Ho1.
  pose proof (find_match_calls _ _ _ _ Hfind) as Hc1.
  destruct (produce_ok_frame _ _ _ _ _ _ _ Hprod) as [Ho2 Hc2].
  pose proof (post_process_objects _ _ _ _ _ Hhook) as Ho3.
  pose proof (post_process_calls _ _ _ _ _ Hhook) as Hc3.
  split; [|split; congruence].
  rewrite on_request_unfold. unfold dispatch_step. fold req.
  rewrite Hfind. unfold attempt. rewrite Hprod.
  destruct (find_match_frame _ _ _ _ Hfind) as [l ->].
  cbn [response_callback set_registered set_registry].
  by rewrite Hhook.
Qed.

End Passthrough.

(** X4, with [PassthroughResponse(GET, "http://example.com")]
    registered: the transport's reply is counted and recorded. *)
Lemma passthrough_responder_witness :
  exists st' res,
    _on_request 1 Demo.no_retries (Demo.get (lit "http://example.com/")) None
      [] Cases.passthrough_registered = Some (st', res)
    /\ counted_once 0 (objects Cases.passthrough_registered) (objects st')
    /\ length (_calls st') = 1%nat.
Proof.
  pose proof (passthrough_responder Cases.passthrough_registered
                Demo.no_retries (Demo.get (lit "http://example.com/")) None
                [] 0 0 [] Cases.passthrough_registered) as H.
  destruct H as (_ & Hok).
  - reflexivity.
  - simpl. lia.
  - reflexivity.
  - edestruct Hok as (st' & res & Hrun & Hcount & Hcalls).
    + reflexivity.
    + reflexivity.
    + reflexivity.
    + exists st', res. split; [exact Hrun|]. split; [exact Hcount|].
      by rewrite Hcalls.
Defined.

(** X5, in a mock whose response hook raises. *)
Lemma response_hook_failure_witness :
  exists st',
    _on_request 1 Demo.no_retries (Demo.get (lit "http://example.com/")) None
      [] Cases.hooked = Some (st', Raise Demo.boom)
    /\ objects st' = objects Cases.hooked
    /\ _calls st' = [].
Proof.
  eexists.
  eapply (response_hook_failure Cases.hooked Demo.no_retries
            (Demo.get (lit "http://example.com/")) None [] 0 0 []
            Cases.hooked).
  - reflexivity.
  - reflexivity.
  - reflexivity.
Defined.

(** ** Coverage and call counts across requests *)

Section Coverage.

Context `{P : Platform}.

Lemma init_counts_nonneg w assert_all callback prefixes tgt registry :
  counts_nonneg
    (objects (RequestsMock__init__ [] w assert_all callback prefixes tgt
                registry)).
Proof. intros a r H. simpl in H. by rewrite lookup_nil in H. Qed.

Lemma counts_nonneg_alloc (o : Store) r :
  counts_nonneg o -> call_count r = 0 -> counts_nonneg (o ++ [r]).
Proof.
  intros Ho Hr a r' H. apply lookup_app_Some in H as [H|[_ H]].
  - by apply (Ho a).
  - apply list_lookup_singleton_Some in H as [_ <-]. lia.
Qed.

Lemma counts_nonneg_grow (o o' : Store) :
  counts_nonneg o -> length o' = length o -> counts_grow o o' ->
  counts_nonneg o'.
Proof.
  intros Ho Hlen Hg a r' H.
  assert (Ha : (a < length o)%nat).
  { rewrite <- Hlen. by eapply lookup_lt_Some. }
  destruct (lookup_lt_is_Some_2 _ _ Ha) as [r Hr].
  destruct (Hg a r Hr) as (r2 & H2 & Hle).
  assert (r2 = r') as -> by congruence.
  specialize (Ho a r Hr). lia.
Qed.

Lemma response_init_count meth u a r :
  Response__init__ meth u a = Ok r -> call_count r = 0.
Proof.
  unfold Response__init__. destruct (init_body_and_content_type a) as [[b ct]|];
    [|done]. by intros [= <-].
Qed.

Lemma counts_nonneg_add st meth u adding_headers a :
  counts_nonneg (objects st) ->
  counts_nonneg (objects (fst (add st meth u adding_headers a))).
Proof.
  intros Ho. unfold add. destruct (check_content_type _); [|done].
  destruct (Response__init__ _ _ _) as [r|] eqn:E; [|done].
  simpl. apply counts_nonneg_alloc; [done|]. by eapply response_init_count.
Qed.

Lemma counts_nonneg_replace st meth u a :
  counts_nonneg (objects st) ->
  counts_nonneg (objects (fst (replace st meth u a))).
Proof.
  intros Ho. unfold replace.
  destruct (Response__init__ _ _ _) as [r|] eqn:E; [|done].
  simpl. rewrite replace_object_objects. simpl.
  apply counts_nonneg_alloc; [done|]. by eapply response_init_count.
Qed.

(** Call counts start at zero and are only ever raised: no operation of
    a session leaves a negative count. *)
Lemma run_counts_nonneg op st st' :
  counts_nonneg (objects st) -> run op st = Some st' ->
  counts_nonneg (objects st').
Proof.
  intros Ho. destruct op; simpl.
  - by intros [= <-].
  - intros [= <-]. unfold _set_registry. by destruct (registered st).
  - intros [= <-]. by apply counts_nonneg_add.
  - by intros [= <-].
  - by intros [= <-].
  - intros [= <-]. unfold remove. by destruct (registry_remove _ _ _ _).
  - intros [= <-]. by apply counts_nonneg_replace.
  - intros [= <-]. by rewrite replace_object_objects.
  - intros [= <-]. unfold upsert.
    pose proof (counts_nonneg_replace st meth u a Ho) as Hr.
    destruct (replace st meth u a) as [st1 [r|e]]; [done|].
    destruct (bool_decide _); [|done]. by apply counts_nonneg_add.
  - intros [= <-]. unfold add_callback. simpl.
    by apply counts_nonneg_alloc.
  - intros [= <-]. unfold start. by destruct (_patcher st).
  - intros [= <-]. by rewrite stop_objects.
  - intros [= <-]. unfold __exit__.
    pose proof (stop_objects st success) as Hs.
    destruct (stop st success) as [st1 [r|e]]; simpl in *; by rewrite Hs.
  - destruct (_on_request _ _ _ _ _ _) as [[st1 r]|] eqn:E; [|discriminate].
    intros [= <-]. simpl.
    destruct (on_request_objects _ _ _ _ _ _ _ _ E) as [Hlen _].
    apply (counts_nonneg_grow (objects st)); [done|done|].
    by eapply on_request_counts.
Qed.

(** An attempt that ends in the bookkeeping counts the responder once. *)
Lemma attempt_counted adapter request kwargs a hook st st2 r :
  (a < length (objects st))%nat ->
  attempt adapter request kwargs a hook st = (st2, r) ->
  (exists response, r = Ok response)
  \/ (passthrough (deref (objects st) a) = false /\ hook = None) ->
  counted_once a (objects st) (objects st2).
Proof.
  intros Ha. unfold attempt.
  destruct (produce _ _ _ _ _) as [st1 [response|e]] eqn:Ep.
  - destruct (produce_ok_frame _ _ _ _ _ _ _ Ep) as [Ho1 _].
    destruct (post_process _ _ _) as [st1' [response'|e]] eqn:Eh;
      pose proof (post_process_objects _ _ _ _ _ Eh) as Ho2.
    + intros [= <- <-] _. cbn [objects record_call set_calls].
      assert (Ha2 : (a < length (objects st1'))%nat) by by rewrite Ho2, Ho1.
      pose proof (count_call_once st1' a Ha2) as Hco.
      by rewrite Ho2, Ho1 in Hco.
    + intros [= <- <-] [[response' H]|[_ ->]]; [done|]. done.
  - revert Ep. unfold produce. destruct (passthrough _).
    + destruct (_real_send _ _ _ _) as [w r'].
      intros [= <- ->] [= <- <-] [[response' H]|[H _]]; done.
    + destruct (get_response _ _ _) as [w [resp|e']]; [done|].
      intros [= <- <-] [= <- <-] _. cbn [objects record_call set_calls].
      apply (count_call_once (set_world st w) a Ha).
Qed.

Lemma retry_stage_counts fuel adapter request retries kwargs response st st' res :
  retry_stage fuel adapter request retries kwargs response st
  = Some (st', res) ->
  counts_grow (objects st) (objects st').
Proof.
  unfold retry_stage. destruct (is_retry _ _ _).
  - destruct (increment _ _ _ _) as [r1|e].
    + unfold except_max_retry.
      destruct (_on_request fuel _ _ _ _ _) as [[st3 r3]|] eqn:Er;
        [|discriminate].
      pose proof (on_request_counts _ _ _ _ _ _ _ _ Er) as Hg.
      destruct r3 as [r|e];
        [|destruct (is_max_retry_error e); [destruct (raise_on_status _)|]];
        by intros [= <- <-].
    + destruct (is_max_retry_error e); [destruct (raise_on_status _)|];
        intros [= <- <-]; apply counts_grow_refl.
  - intros [= <- <-]. apply counts_grow_refl.
Qed.

(** X6: in a session (no call count below zero), let the lookup for a
    request return the registered responder at [a].  If the dispatch
    returns a reply, or if the responder is not a passthrough and the
    mock has no response hook (in which case the dispatch may also raise,
    the responder failing to materialise its reply included), then
    afterwards the call count of the responder is at least one, however
    often the request was replayed, and the coverage assertion of [stop]
    does not name it. *)
Theorem answered_responder_is_covered (st : State) (adapter : HTTPAdapter)
    (request : PreparedRequest) (retries : option Retry)
    (kwargs : dict str) (fuel a : nat) (reasons : list str)
    (st1 st' : State) (res : result Response) :
  counts_nonneg (objects st) ->
  _find_match st (enrich request kwargs) = (st1, (Some a, reasons)) ->
  (a < length (objects st))%nat ->
  (exists response, res = Ok response)
  \/ (passthrough (deref (objects st) a) = false
      /\ response_callback st = None) ->
  _on_request (S fuel) adapter request retries kwargs st = Some (st', res) ->
  1 <= call_count (deref (objects st') a)
  /\ a ∉ not_called st'.
Proof.
  intros Hnn Hfind Ha Hcase.
  rewrite on_request_unfold. unfold dispatch_step. rewrite Hfind.
  destruct (find_match_frame _ _ _ _ Hfind) as [l ->].
  cbn [response_callback set_registered set_registry].
  destruct (attempt _ _ _ _ _ _) as [st2 r] eqn:Ea.
  assert (Hstep : forall s,
            counted_once a (objects st) (objects st2) ->
            counts_grow (objects st2) (objects s) ->
            1 <= call_count (deref (objects s) a) /\ a ∉ not_called s).
  { intros s (Hlen & Hcnt & _) Hg.
    assert (Ha2 : (a < length (objects st2))%nat) by by rewrite Hlen.
    destruct (lookup_lt_is_Some_2 _ _ Ha2) as [r2 Hr2].
    destruct (lookup_lt_is_Some_2 _ _ Ha) as [r0 Hr0].
    destruct (Hg a r2 Hr2) as (r3 & Hr3 & Hle).
    unfold deref in Hcnt. rewrite Hr2, Hr0 in Hcnt. simpl in Hcnt.
    specialize (Hnn a r0 Hr0).
    assert (Hone : 1 <= call_count (deref (objects s) a)).
    { unfold deref. rewrite Hr3. simpl. lia. }
    split; [done|]. rewrite not_called_spec. intros [_ Hz]. lia. }
  destruct r as [response|e].
  - intros Hretry. apply Hstep.
    + apply (attempt_counted _ _ _ _ _ (set_registered st l) _ _ Ha Ea).
      left. by eexists.
    + by eapply retry_stage_counts.
  - intros [= <- <-]. apply Hstep; [|apply counts_grow_refl].
    apply (attempt_counted _ _ _ _ _ (set_registered st l) _ _ Ha Ea).
    destruct Hcase as [[response H]|Hcase]; [done|by right].
Qed.




End Coverage.

(** X6, on one registered responder and a request it answers. *)
Lemma answered_responder_is_covered_witness :
  exists st' res,
    _on_request 1 Demo.no_retries (Demo.get (lit "http://example.com/")) None
      [] Demo.one_responder = Some (st', res)
    /\ not_called Demo.one_responder = [0%nat]
    /\ 0%nat ∉ not_called st'.
Proof.
  eexists _, _.
  eassert (Hrun : _on_request 1 Demo.no_retries
                    (Demo.get (lit "http://example.com/")) None []
                    Demo.one_responder = Some (_, _)) by reflexivity.
  split; [exact Hrun|]. split; [reflexivity|].
  refine (proj2 (answered_responder_is_covered Demo.one_responder
                   Demo.no_retries (Demo.get (lit "http://example.com/"))
                   None [] 0 0 [] Demo.one_responder _ _ _ _ _ _ Hrun)).
  - apply counts_nonneg_add, init_counts_nonneg.
  - reflexivity.
  - simpl. lia.
  - left. by eexists.
Defined.


(** ** Registration *)

Section Registration.

Context `{P : Platform}.

Lemma response_init_fields meth u a r :
  Response__init__ meth u a = Ok r ->
  method r = meth /\ url r = _ensure_url_default_path u /\ call_count r = 0.
Proof.
  unfold Response__init__. destruct (init_body_and_content_type a) as [[b ct]|];
    [|done]. by intros [= <-].
Qed.

(** X8: [add(method, url, ...)] either raises and leaves the mock as it
    was, or creates exactly one responder object, with call count zero,
    the method as given and the URL with its default path, and hands its
    address to the registry's [add]; the objects that existed, the ledger
    and the settings of the mock are untouched. *)
Theorem add_outcome (st st' : State) (meth : str) (u : Url)
    (adding_headers : option HeaderSet) (a : ResponseArgs)
    (r : result nat) :
  add st meth u adding_headers a = (st', r) ->
  match r with
  | Raise e => st' = st
  | Ok addr =>
      addr = length (objects st)
      /\ objects st' = objects st ++ [deref (objects st') addr]
      /\ call_count (deref (objects st') addr) = 0
      /\ method (deref (objects st') addr) = meth
      /\ url (deref (objects st') addr) = _ensure_url_default_path u
      /\ registered st'
         = registry_add (registry_class (_registry st)) (registered st) addr
      /\ _calls st' = _calls st
      /\ same_settings st st'
  end.
Proof.
  unfold add. destruct (check_content_type _); [|by intros [= <- <-]].
  destruct (Response__init__ _ _ _) as [response|e] eqn:E;
    [|by intros [= <- <-]].
  destruct (response_init_fields _ _ _ _ E) as (Hm & Hu & Hc).
  cbn [alloc]. intros [= <- <-].
  assert (Hd : deref (objects st ++ [response]) (length (objects st))
               = response).
  { unfold deref. by rewrite lookup_app_r, Nat.sub_diag by lia. }
  cbn [objects add_object set_registered set_registry set_objects].
  rewrite Hd. by repeat split.
Qed.

(** X10: after [add_passthru(prefix)] with a literal prefix, a request
    that no responder matches and whose URL starts with the prefix (in the
    form [_clean_unicode] gives it when the code finds a character above
    128 in it) goes to the real transport: the dispatch returns what the
    transport returns, and the ledger and the responder objects stay as
    they were. *)
Theorem passthru_prefix_forwards (st : State) (prefix rest : str)
    (adapter : HTTPAdapter) (request : PreparedRequest)
    (retries : option Retry) (kwargs : dict str) (fuel : nat)
    (reasons : list str) (st1 : State) :
  let st0 := add_passthru st (UStr prefix) in
  let req := enrich request kwargs in
  let sent := _real_send adapter req kwargs (world st) in
  _find_match st0 req = (st1, (None, reasons)) ->
  req_url request
  = (if _has_unicode prefix then _clean_unicode prefix else prefix) ++ rest ->
  _on_request (S fuel) adapter request retries kwargs st0
  = Some (set_world st1 (fst sent), snd sent)
  /\ _calls (set_world st1 (fst sent)) = _calls st
  /\ objects (set_world st1 (fst sent)) = objects st.
Proof.
  intros st0 req sent Hfind Hurl.
  destruct (find_match_frame _ _ _ _ Hfind) as [l ->].
  split; [|done].
  rewrite on_request_unfold. unfold dispatch_step. fold req.
  rewrite Hfind. unfold no_match.
  assert (existsb (prefix_matches req)
            (passthru_prefixes (set_registered st0 l)) = true) as ->.
  { subst st0. unfold add_passthru.
    cbn [passthru_prefixes set_registered set_registry set_passthru_prefixes].
    rewrite existsb_app. apply orb_true_iff. right.
    cbn [existsb]. rewrite orb_false_r.
    destruct (_has_unicode prefix); cbn [prefix_matches];
      apply startswith_spec; by exists rest. }
  subst sent st0. cbn [world set_registered set_registry add_passthru
                       set_passthru_prefixes].
  by destruct (_real_send _ _ _ _).
Qed.

End Registration.

(** X8, on the first registration of a new mock. *)
Lemma add_outcome_witness :
  exists st',
    add Demo.fresh Demo.GET (UStr (lit "http://example.com")) None
      (Demo.with_body (BData (BodyStr (lit "test")))) = (st', Ok 0%nat)
    /\ url (deref (objects st') 0) = UStr (lit "http://example.com/")
    /\ call_count (deref (objects st') 0) = 0.
Proof.
  eexists.
  eassert (Hadd : add Demo.fresh Demo.GET (UStr (lit "http://example.com"))
                    None (Demo.with_body (BData (BodyStr (lit "test"))))
                  = (_, Ok 0%nat)) by reflexivity.
  pose proof (add_outcome _ _ _ _ _ _ _ Hadd) as H.
  lazy beta iota in H. destruct H as (_ & _ & Hc & _ & Hu & _).
  split; [exact Hadd|]. split; [exact Hu|exact Hc].
Defined.

(** X10, with the prefix ["http://other.org"] added to a mock with one
    responder for another host. *)
Lemma passthru_prefix_forwards_witness :
  exists st',
    _on_request 1 Demo.no_retries (Demo.get (lit "http://other.org/x")) None
      [] (add_passthru Demo.one_responder (UStr (lit "http://other.org")))
    = Some (st', Ok (Demo.ok_response
                       (enrich (Demo.get (lit "http://other.org/x")) [])))
    /\ _calls st' = [].
Proof.
  eexists.
  pose proof (passthru_prefix_forwards Demo.one_responder
                (lit "http://other.org") (lit "/x") Demo.no_retries
                (Demo.get (lit "http://other.org/x")) None [] 0
                [lit "URL does not match"]
                (add_passthru Demo.one_responder
                   (UStr (lit "http://other.org")))) as H.
  lazy zeta in H. destruct H as (Hrun & Hcalls & _).
  - reflexivity.
  - reflexivity.
  - split; [exact Hrun|exact Hcalls].
Defined.

(** ** Starting, stopping and leaving the context *)

Section Context_.

Context `{P : Platform}.

(** X11: [start] on a mock that holds no patcher, followed by [stop],
    gives back the mock as it was, and the outcome of that [stop] is the
    outcome of the coverage check alone; a second [start] changes
    nothing. *)
Theorem start_stop_round_trip (st : State) (allow_assert : bool) :
  _patcher st = None ->
  stop (start st) allow_assert = stop st allow_assert
  /\ fst (stop (start st) allow_assert) = st
  /\ start (start st) = start st.
Proof.
  intros Hn. destruct st as [o w c rg fl cb pp tg pt]. simpl in Hn. subst pt.
  assert (Hboth : stop (start (mkState o w c rg fl cb pp tg None)) allow_assert
                  = stop (mkState o w c rg fl cb pp tg None) allow_assert).
  { unfold stop, start. simpl. destruct fl, allow_assert; simpl; try done. }
  split; [done|]. split; [|done].
  rewrite Hboth. unfold stop. simpl.
  destruct fl, allow_assert; simpl; try done.
  by destruct (not_called _).
Qed.

(** X12: [__exit__] of a started mock.  When the block raised
    ([success] false) it never raises itself, returns [False] so that the
    exception propagates, and resets the mock: no responder registered,
    empty ledger, no passthru prefixes.  When the block ended normally and
    the coverage assertion fails, [__exit__] raises it and the [reset]
    that follows in the source is not reached: the registered responders,
    the ledger and the passthru prefixes are still there.  When the
    assertion holds or is switched off it returns [True] and resets.  In
    every case the patcher is gone. *)
Theorem exit_outcome (st : State) :
  patcher_started st ->
  (snd (__exit__ st false) = Ok false
   /\ registered (fst (__exit__ st false)) = []
   /\ _calls (fst (__exit__ st false)) = []
   /\ passthru_prefixes (fst (__exit__ st false)) = [])
  /\ (assert_all_requests_are_fired st = true -> not_called st <> [] ->
      snd (__exit__ st true) = Raise (not_all_executed st (not_called st))
      /\ registered (fst (__exit__ st true)) = registered st
      /\ _calls (fst (__exit__ st true)) = _calls st
      /\ passthru_prefixes (fst (__exit__ st true)) = passthru_prefixes st)
  /\ (assert_all_requests_are_fired st = false \/ not_called st = [] ->
      snd (__exit__ st true) = Ok true
      /\ registered (fst (__exit__ st true)) = []
      /\ _calls (fst (__exit__ st true)) = []
      /\ passthru_prefixes (fst (__exit__ st true)) = [])
  /\ (forall success, _patcher (fst (__exit__ st success)) = None).
Proof.
  intros Hp.
  assert (Hexit : forall success,
            __exit__ st success
            = match snd (stop st success) with
              | Raise e => (fst (stop st success), Raise e)
              | Ok _ => (reset (fst (stop st success)), Ok success)
              end).
  { intros success. unfold __exit__.
    by destruct (stop st success) as [s [[]|e]]. }
  assert (Hst : forall success,
            registered (fst (stop st success)) = registered st
            /\ _calls (fst (stop st success)) = _calls st
            /\ passthru_prefixes (fst (stop st success))
               = passthru_prefixes st
            /\ _patcher (fst (stop st success)) = None).
  { intros success.
    destruct (stop_patcher st Hp success) as [->|[Hn ->]]; done. }
  split; [|split; [|split]].
  - rewrite Hexit, (stop_result st false Hp). simpl.
    destruct (negb _); done.
  - intros Hf Hne. rewrite Hexit, (stop_result st true Hp), Hf. simpl.
    destruct (not_called st) as [|m l] eqn:E; [done|]. simpl.
    destruct (Hst true) as (H1 & H2 & H3 & _). done.
  - intros Hcase. rewrite Hexit, (stop_result st true Hp).
    destruct Hcase as [->| ->]; simpl; [done|].
    by destruct (negb _).
  - intros success. rewrite Hexit.
    destruct (Hst success) as (_ & _ & _ & H4).
    by destruct (snd (stop st success)).
Qed.

End Context_.

(** X11, on a mock with one responder registered. *)
Lemma start_stop_round_trip_witness :
  fst (stop (start Demo.one_responder) true) = Demo.one_responder.
Proof.
  exact (proj1 (proj2 (start_stop_round_trip Demo.one_responder true
                         eq_refl))).
Defined.

(** X12, leaving the context normally with a responder that was never
    called: the assertion is raised and the responder stays registered. *)
Lemma exit_outcome_witness :
  snd (__exit__ (start Demo.one_responder) true)
  = Raise (mkExn AssertionError
             (ArgsNotExecuted [(Demo.GET, UStr (lit "http://example.com/"))])
             None)
  /\ registered (fst (__exit__ (start Demo.one_responder) true)) = [0%nat].
Proof.
  destruct (exit_outcome (start Demo.one_responder)) as (_ & H & _).
  - intros p [= <-]. reflexivity.
  - destruct H as (H1 & H2 & _); [reflexivity|discriminate|].
    split; [exact H1|exact H2].
Defined.

(** ** Matching *)

Section Matching.

Context `{P : Platform}.

Lemma req_attr_matches_true matchers request :
  fst (_req_attr_matches matchers request) = true
  <-> forall m, m ∈ matchers -> fst (m request) = true.
Proof.
  induction matchers as [|m matchers IH]; simpl.
  - split; [|done]. intros _ m Hm. by apply elem_of_nil in Hm.
  - destruct (m request) as [valid reason] eqn:Em. destruct valid; simpl.
    + rewrite IH. split.
      * intros H m' Hm'. apply elem_of_cons in Hm' as [->|Hm']; [|by apply H].
        by rewrite Em.
      * intros H m' Hm'. apply H. by right.
    + split; [done|]. intros H.
      specialize (H m ltac:(left)). by rewrite Em in H.
Qed.

Lemma req_attr_matches_first matchers request i m :
  matchers !! i = Some m ->
  fst (m request) = false ->
  (forall j m', (j < i)%nat -> matchers !! j = Some m' ->
     fst (m' request) = true) ->
  _req_attr_matches matchers request = (false, snd (m request)).
Proof.
  revert i. induction matchers as [|m0 matchers IH]; intros i Hi Hm Hbefore;
    [done|].
  simpl. destruct (m0 request) as [valid reason] eqn:E0.
  destruct i as [|i].
  - injection Hi as ->. rewrite E0 in Hm |- *. simpl in Hm. by subst valid.
  - assert (valid = true) as ->.
    { specialize (Hbefore 0%nat m0 ltac:(lia) eq_refl). by rewrite E0 in Hbefore. }
    simpl. apply (IH i Hi Hm). intros j m' Hj Hm'.
    apply (Hbefore (S j) m'); [lia|done].
Qed.

(** X13: a responder matches a request exactly when the methods are
    equal, the URL check passes and every matcher of the responder accepts
    the request; the reason is then empty.  Otherwise the reason names the
    first check that failed, in the order the code makes them: the
    method, then the URL, then the matchers in their order, of which the
    first to refuse gives its own reason (those after it are not
    consulted). *)
Theorem matches_spec (self : BaseResponse) (request : PreparedRequest) :
  (fst (matches self request) = true
   <-> req_method request = method self
       /\ _url_matches (url self) (req_url request) = true
       /\ forall m, m ∈ match_ self -> fst (m request) = true)
  /\ (fst (matches self request) = true -> snd (matches self request) = lit "")
  /\ (req_method request <> method self ->
      matches self request = (false, lit "Method does not match"))
  /\ (req_method request = method self ->
      _url_matches (url self) (req_url request) = false ->
      matches self request = (false, lit "URL does not match"))
  /\ (req_method request = method self ->
      _url_matches (url self) (req_url request) = true ->
      forall i m,
        match_ self !! i = Some m ->
        fst (m request) = false ->
        (forall j m', (j < i)%nat -> match_ self !! j = Some m' ->
           fst (m' request) = true) ->
        matches self request = (false, snd (m request))).
Proof.
  unfold matches, str_eqb.
  pose proof (req_attr_matches_true (match_ self) request) as Hall.
  split; [|split; [|split; [|split]]].
  - case_bool_decide as Hm; simpl; [|split; [done|by intros [? _]]].
    destruct (_url_matches _ _); simpl; [|split; [done|by intros (_ & ? & _)]].
    destruct (_req_attr_matches _ _) as [valid reason]. simpl in Hall.
    destruct valid; simpl.
    + split; [|done]. intros _. split; [done|]. split; [done|]. by apply Hall.
    + split; [done|]. intros (_ & _ & H). by apply Hall.
  - case_bool_decide; simpl; [|done].
    destruct (_url_matches _ _); simpl; [|done].
    destruct (_req_attr_matches _ _) as [[] reason]; done.
  - intros Hne. by rewrite bool_decide_eq_false_2.
  - intros Heq ->. by rewrite bool_decide_eq_true_2.
  - intros Heq -> i m Hi Hm Hbefore. rewrite bool_decide_eq_true_2 by done.
    simpl. by rewrite (req_attr_matches_first _ _ _ _ Hi Hm Hbefore).
Qed.

(** X14: two responders are [==] exactly when their methods are equal
    and the texts of their URLs are equal: body, status, headers,
    matchers and call count play no part, and a compiled pattern equals a
    literal URL of the same text.  The relation is an equivalence. *)
Theorem eq_response_equivalence :
  (forall r1 r2,
     eq_response r1 r2 = true
     <-> method r1 = method r2 /\ url_text (url r1) = url_text (url r2))
  /\ (forall r, eq_response r r = true)
  /\ (forall r1 r2, eq_response r1 r2 = eq_response r2 r1)
  /\ (forall r1 r2 r3,
        eq_response r1 r2 = true -> eq_response r2 r3 = true ->
        eq_response r1 r3 = true).
Proof.
  unfold eq_response, str_eqb.
  split; [|split; [|split]].
  - intros r1 r2. repeat case_bool_decide; simpl; split; try done;
      try (by intros [? ?]).
  - intros r. by rewrite !bool_decide_eq_true_2.
  - intros r1 r2. repeat case_bool_decide; simpl; congruence.
  - intros r1 r2 r3. repeat case_bool_decide; simpl; congruence.
Qed.

End Matching.

(** ** The headers of a reply *)











Section ReplyHeaders.

Context `{P : Platform}.






End ReplyHeaders.



(** ** The derived [params] of a request *)

Section ParamsMore.

Context `{P : Platform}.

Lemma last_group_cons_other k x rest key :
  k <> key ->
  last_group key (groupby ((k, x) :: rest)) = last_group key (groupby rest).
Proof.
  intros Hk. simpl.
  destruct (groupby rest) as [|[k' vs'] groups'] eqn:Eg.
  - simpl. unfold str_eqb. by rewrite bool_decide_eq_false_2.
  - unfold str_eqb at 1. case_bool_decide as Hkk.
    + subst k'. simpl. destruct (last_group key groups'); [done|].
      unfold str_eqb. by rewrite !bool_decide_eq_false_2.
    + simpl. destruct (last_group key groups'); [done|].
      destruct (str_eqb k' key); [done|].
      unfold str_eqb. by rewrite bool_decide_eq_false_2.
Qed.

Lemma groupby_present pairs key :
  values_of key pairs <> [] -> is_Some (last_group key (groupby pairs)).
Proof.
  induction pairs as [|[k x] rest IH]; [done|].
  destruct (decide (k = key)) as [->|Hk].
  - intros _. simpl.
    destruct (groupby rest) as [|[k' vs'] groups'] eqn:Eg.
    + simpl. unfold str_eqb. by rewrite bool_decide_eq_true_2.
    + unfold str_eqb at 1. case_bool_decide as Hkk.
      * subst k'. simpl. destruct (last_group key groups'); [done|].
        unfold str_eqb. by rewrite bool_decide_eq_true_2.
      * simpl. destruct (last_group key groups'); [done|].
        destruct (str_eqb k' key); [done|].
        unfold str_eqb. by rewrite bool_decide_eq_true_2.
  - rewrite last_group_cons_other by done.
    intros H. apply IH. revert H. unfold values_of. simpl.
    unfold str_eqb at 1. by rewrite bool_decide_eq_false_2.
Qed.

Lemma groupby_run key vs post :
  vs <> [] -> values_of key post = [] ->
  groupby (map (pair key) vs ++ post) = (key, vs) :: groupby post.
Proof.
  intros Hvs Hpost.
  assert (Hhead : match groupby post with
                  | (k', _) :: _ => k' <> key
                  | [] => True
                  end).
  { destruct (groupby post) as [|[k' vs'] groups'] eqn:Eg; [done|].
    destruct (groupby_head _ _ _ _ Eg) as (v & rest & ->).
    intros ->. revert Hpost. unfold values_of. simpl.
    unfold str_eqb. by rewrite bool_decide_eq_true_2. }
  induction vs as [|v vs IH]; [done|]. clear Hvs.
  destruct vs as [|v' vs].
  - simpl. destruct (groupby post) as [|[k' vs'] groups']; [done|].
    unfold str_eqb. by rewrite bool_decide_eq_false_2.
  - change (map (pair key) (v :: v' :: vs) ++ post)
      with ((key, v) :: (map (pair key) (v' :: vs) ++ post)).
    cbn [groupby]. rewrite IH by done.
    unfold str_eqb. by rewrite bool_decide_eq_true_2.
Qed.

Lemma values_of_app key l1 l2 :
  values_of key (l1 ++ l2) = values_of key l1 ++ values_of key l2.
Proof. unfold values_of. by rewrite List.filter_app, map_app. Qed.

Lemma values_of_run key vs : values_of key (map (pair key) vs) = vs.
Proof.
  unfold values_of. induction vs as [|v vs IH]; [done|]. simpl.
  unfold str_eqb at 1. rewrite bool_decide_eq_true_2 by done. simpl.
  by f_equal.
Qed.

(** X17: a key is missing from the derived [params] exactly when it
    does not occur among the parsed pairs of the query string.  When all
    the occurrences of a key stand next to each other, the key maps to its
    value if it occurs once and to the list of all its values, in order,
    if it occurs more often. *)
Theorem params_of_adjacent_occurrences (u key : str) :
  let pairs := parse_qsl (urllib.query (urllib.urlsplit u)) in
  (dict_get (_parse_request_params u) key = None
   <-> values_of key pairs = [])
  /\ (forall pre vs post,
        pairs = pre ++ map (pair key) vs ++ post ->
        vs <> [] ->
        values_of key pre = [] -> values_of key post = [] ->
        dict_get (_parse_request_params u) key = Some (group_value vs)
        /\ values_of key pairs = vs).
Proof.
  intros pairs. unfold _parse_request_params. fold pairs.
  rewrite params_of_groups_get. split.
  - split.
    + intros H. destruct (values_of key pairs) as [|v vs] eqn:E; [done|].
      destruct (groupby_present pairs key) as [g Hg]; [by rewrite E|].
      by rewrite Hg in H.
    + intros H. by rewrite (groupby_absent _ _ H).
  - intros pre vs post Hpairs Hvs Hpre Hpost. rewrite Hpairs. split.
    + assert (last_group key (groupby (pre ++ map (pair key) vs ++ post))
              = Some vs) as ->; [|done].
      clear Hpairs. induction pre as [|[k x] pre IH].
      * simpl. rewrite groupby_run by done. cbn [last_group fst snd].
        rewrite (groupby_absent _ _ Hpost).
        unfold str_eqb. by rewrite bool_decide_eq_true_2.
      * assert (Hk : k <> key /\ values_of key pre = []).
        { revert Hpre. unfold values_of. simpl.
          unfold str_eqb at 1. by case_bool_decide. }
        destruct Hk as [Hk Hpre'].
        change (((k, x) :: pre) ++ map (pair key) vs ++ post)
          with ((k, x) :: (pre ++ map (pair key) vs ++ post)).
        rewrite last_group_cons_other by done. by apply IH.
    + by rewrite !values_of_app, values_of_run, Hpre, Hpost, app_nil_r.
Qed.

End ParamsMore.

(** X17, on the query string ["a=1&a=2&b=3"]. *)
Lemma params_of_adjacent_occurrences_witness :
  dict_get (_parse_request_params (lit "/?a=1&a=2&b=3")) (lit "a")
  = Some (Multi [lit "1"; lit "2"]).
Proof.
  destruct (params_of_adjacent_occurrences (lit "/?a=1&a=2&b=3") (lit "a"))
    as [_ H].
  destruct (H [] [lit "1"; lit "2"] [(lit "b", lit "3")]) as [H1 _];
    [reflexivity|discriminate|reflexivity|reflexivity|].
  exact H1.
Defined.

(** ** [_clean_unicode] *)

Lemma has_unicode_false (s : str) :
  _has_unicode s = false <-> Forall (fun c => c <= 128) s.
Proof.
  unfold _has_unicode. induction s as [|c s IH]; simpl.
  - split; [by constructor|done].
  - rewrite orb_false_iff, IH, Forall_cons, Z.ltb_ge. tauto.
Qed.

(** Where the characters of the parts of a URL come from: every property
    of characters that lower-casing keeps goes from the URL to its
    parts. *)
Section Provenance.

Variable Q : Z -> Prop.
Hypothesis Q_lower : forall c, Q c -> Q (lower_char c).

Lemma split_first_Forall sep s a b :
  split_first sep s = Some (a, b) -> Forall Q s -> Forall Q a /\ Forall Q b.
Proof.
  revert a b. induction s as [|c s IH]; intros a b; simpl; [done|].
  intros H Hs. apply Forall_cons in Hs as [Hc Hs].
  destruct (c =? sep).
  - injection H as <- <-. by split.
  - destruct (split_first sep s) as [[a' b']|]; [|done].
    injection H as <- <-. destruct (IH a' b' eq_refl Hs). split; [|done].
    by constructor.
Qed.

Lemma split_scheme_Forall u :
  Forall Q u ->
  Forall Q (fst (urllib.split_scheme u))
  /\ Forall Q (snd (urllib.split_scheme u)).
Proof.
  intros Hu. unfold urllib.split_scheme.
  destruct (split_first 58 u) as [[[|c pre] rest]|] eqn:E; simpl;
    try (split; [constructor|done]).
  destruct (split_first_Forall _ _ _ _ E Hu) as [Hpre Hrest].
  destruct (is_ascii_alpha c && _); simpl; [|split; [constructor|done]].
  split; [|done]. apply Forall_cons in Hpre as [Hc Hpre].
  constructor; [by apply Q_lower|].
  apply Forall_map. eapply Forall_impl; [exact Hpre|]. apply Q_lower.
Qed.

Lemma take_netloc_Forall s :
  Forall Q s ->
  Forall Q (fst (urllib.take_netloc s)) /\ Forall Q (snd (urllib.take_netloc s)).
Proof.
  induction s as [|c s IH]; simpl; [done|]. intros Hs.
  pose proof Hs as Hs'. apply Forall_cons in Hs' as [Hc Hs'].
  destruct ((c =? 47) || (c =? 63) || (c =? 35)); simpl;
    [split; [constructor|done]|].
  destruct (urllib.take_netloc s) as [n r]. simpl in IH.
  destruct (IH Hs'). simpl. split; [by constructor|done].
Qed.

Lemma urlsplit_Forall u :
  Forall Q u ->
  Forall Q (urllib.scheme (urllib.urlsplit u))
  /\ Forall Q (urllib.netloc (urllib.urlsplit u))
  /\ Forall Q (urllib.path (urllib.urlsplit u))
  /\ Forall Q (urllib.query (urllib.urlsplit u))
  /\ Forall Q (urllib.fragment (urllib.urlsplit u)).
Proof.
  intros Hu. unfold urllib.urlsplit.
  destruct (split_scheme_Forall u Hu) as [Hsch Hrest].
  destruct (urllib.split_scheme u) as [sch rest]. simpl in Hsch, Hrest.
  assert (Hnet : Forall Q (fst (match rest with
                                | 47 :: 47 :: r => urllib.take_netloc r
                                | _ => ([], rest)
                                end))
                 /\ Forall Q (snd (match rest with
                                   | 47 :: 47 :: r => urllib.take_netloc r
                                   | _ => ([], rest)
                                   end))).
  { destruct rest as [|c1 [|c2 r]]; try (split; [constructor|done]).
    - destruct c1 as [|p|p]; try (split; [constructor|done]).
      repeat (destruct p as [p|p|]; try (split; [constructor|done])).
    - assert (Hr : Forall Q r).
      { apply Forall_cons in Hrest as [_ Hrest].
        by apply Forall_cons in Hrest as [_ Hrest]. }
      destruct (decide (c1 = 47)) as [->|H1];
        [destruct (decide (c2 = 47)) as [->|H2]|].
      + by apply take_netloc_Forall.
      + assert (match c2 with 47 => urllib.take_netloc r
                | _ => ([], 47 :: c2 :: r) end = ([], 47 :: c2 :: r)) as E.
        { destruct c2 as [|p|p]; try done.
          repeat (destruct p as [p|p|]; try done). }
        cbv beta iota. rewrite E. split; [constructor|done].
      + assert (match c1 with
                | 47 => match c2 with 47 => urllib.take_netloc r
                        | _ => ([], c1 :: c2 :: r) end
                | _ => ([], c1 :: c2 :: r) end = ([], c1 :: c2 :: r)) as E.
        { destruct c1 as [|p|p]; try done.
          repeat (destruct p as [p|p|]; try done). }
        cbv beta iota. rewrite E. split; [constructor|done]. }
  destruct (match rest with
            | 47 :: 47 :: r => urllib.take_netloc r
            | _ => ([], rest)
            end) as [net url1].
  destruct Hnet as [Hnet Hurl1]. simpl in Hnet, Hurl1.
  assert (Hfrag : Forall Q (fst (match split_first 35 url1 with
                                 | Some (a, b) => (a, b)
                                 | None => (url1, [])
                                 end))
                  /\ Forall Q (snd (match split_first 35 url1 with
                                    | Some (a, b) => (a, b)
                                    | None => (url1, [])
                                    end))).
  { destruct (split_first 35 url1) as [[a b]|] eqn:E.
    - by apply (split_first_Forall _ _ _ _ E).
    - split; [done|constructor]. }
  destruct (match split_first 35 url1 with
            | Some (a, b) => (a, b)
            | None => (url1, [])
            end) as [url2 frag].
  destruct Hfrag as [Hurl2 Hfrag]. simpl in Hurl2, Hfrag.
  assert (Hqry : Forall Q (fst (match split_first 63 url2 with
                                | Some (a, b) => (a, b)
                                | None => (url2, [])
                                end))
                 /\ Forall Q (snd (match split_first 63 url2 with
                                   | Some (a, b) => (a, b)
                                   | None => (url2, [])
                                   end))).
  { destruct (split_first 63 url2) as [[a b]|] eqn:E.
    - by apply (split_first_Forall _ _ _ _ E).
    - split; [done|constructor]. }
  destruct (match split_first 63 url2 with
            | Some (a, b) => (a, b)
            | None => (url2, [])
            end) as [url3 qry].
  destruct Hqry as [Hurl3 Hqry]. simpl in Hurl3, Hqry.
  simpl. done.
Qed.

End Provenance.

Lemma lower_char_le c : c <= 128 -> lower_char c <= 128.
Proof.
  unfold lower_char. intros H.
  destruct ((65 <=? c) && (c <=? 90)) eqn:E; [|done].
  apply andb_true_iff in E as [_ H2]. apply Z.leb_le in H2. lia.
Qed.

Lemma concat_singletons (s : str) (f : Z -> str) :
  Forall (fun x => f x = [x]) s -> concat (map f s) = s.
Proof.
  induction 1 as [|x s Hx Hs IH]; [done|]. simpl. by rewrite Hx, IH.
Qed.

(** A URL without a character above 128 is returned as it is. *)
Lemma clean_unicode_plain (u : str) :
  _has_unicode u = false -> _clean_unicode u = u.
Proof.
  intros Hu. apply has_unicode_false in Hu. unfold _clean_unicode.
  destruct (urlsplit_Forall (fun c => c <= 128) lower_char_le u Hu)
    as (_ & Hnet & _).
  apply has_unicode_false in Hnet. rewrite Hnet.
  apply concat_singletons. eapply Forall_impl; [exact Hu|].
  intros x Hx. simpl in Hx. by rewrite (proj2 (Z.ltb_ge 128 x)).
Qed.

Lemma hex_digit_le d : 0 <= d < 16 -> urllib.hex_digit d <= 128.
Proof. unfold urllib.hex_digit. intros H. destruct (d <? 10); lia. Qed.

Lemma always_safe_le b : urllib.always_safe b = true -> b <= 128.
Proof.
  unfold urllib.always_safe, is_ascii_alpha, is_digit. intros H.
  repeat (apply orb_true_iff in H as [H|H]);
    repeat (apply andb_true_iff in H as [? H]);
    repeat match goal with
           | H : (_ <=? _) = true |- _ => apply Z.leb_le in H
           | H : (_ =? _) = true |- _ => apply Z.eqb_eq in H
           end; lia.
Qed.

Lemma quote_byte_le b :
  0 <= b < 256 -> Forall (fun c => c <= 128) (urllib.quote_byte b).
Proof.
  intros Hb. unfold urllib.quote_byte.
  destruct (urllib.always_safe b) eqn:E.
  - constructor; [by apply always_safe_le|constructor].
  - repeat constructor; [lia| |].
    + apply hex_digit_le. split; [by apply Z.div_pos; lia|].
      apply Z.div_lt_upper_bound; lia.
    + apply hex_digit_le. apply Z.mod_pos_bound. lia.
Qed.

Lemma utf8_bytes x :
  0 <= x < 1114112 -> Forall (fun b => 0 <= b < 256) (urllib.utf8 x).
Proof.
  intros Hx. unfold urllib.utf8.
  assert (H64 : forall y, 0 <= 128 + y mod 64 < 256).
  { intros y. pose proof (Z.mod_pos_bound y 64 ltac:(lia)). lia. }
  destruct (x <? 128) eqn:E1; [apply Z.ltb_lt in E1|apply Z.ltb_ge in E1].
  { repeat constructor; lia. }
  destruct (x <? 2048) eqn:E2; [apply Z.ltb_lt in E2|apply Z.ltb_ge in E2].
  { repeat constructor; try apply H64.
    - pose proof (Z.div_pos x 64 ltac:(lia) ltac:(lia)). lia.
    - pose proof (Z.div_lt_upper_bound x 64 32 ltac:(lia) ltac:(lia)). lia. }
  destruct (x <? 65536) eqn:E3; [apply Z.ltb_lt in E3|apply Z.ltb_ge in E3].
  { repeat constructor; try apply H64.
    - pose proof (Z.div_pos x 4096 ltac:(lia) ltac:(lia)). lia.
    - pose proof (Z.div_lt_upper_bound x 4096 16 ltac:(lia) ltac:(lia)). lia. }
  repeat constructor; try apply H64.
  - pose proof (Z.div_pos x 262144 ltac:(lia) ltac:(lia)). lia.
  - pose proof (Z.div_lt_upper_bound x 262144 5 ltac:(lia) ltac:(lia)). lia.
Qed.

Lemma quote_char_le x :
  0 <= x < 1114112 -> Forall (fun c => c <= 128) (urllib.quote [x]).
Proof.
  intros Hx. unfold urllib.quote. simpl. rewrite app_nil_r.
  apply Forall_concat, Forall_map.
  eapply Forall_impl; [apply (utf8_bytes x Hx)|].
  intros b Hb. by apply quote_byte_le.
Qed.

Lemma urlunsplit_Forall (Q : Z -> Prop) p :
  Q 47 -> Q 58 -> Q 63 -> Q 35 ->
  Forall Q (urllib.scheme p) -> Forall Q (urllib.netloc p) ->
  Forall Q (urllib.path p) -> Forall Q (urllib.query p) ->
  Forall Q (urllib.fragment p) ->
  Forall Q (urllib.urlunsplit p).
Proof.
  intros Q47 Q58 Q63 Q35 Hs Hn Hp Hq Hf. unfold urllib.urlunsplit.
  cbv zeta.
  assert (H1 : Forall Q
                 (if urllib.truthy (urllib.path p)
                     && negb (startswith (urllib.path p) (lit "/"))
                  then lit "/" ++ urllib.path p else urllib.path p)).
  { destruct (_ && _); [|done]. by constructor. }
  assert (H2 : Forall Q
                 (if urllib.truthy (urllib.netloc p)
                     || urllib.truthy (urllib.scheme p)
                        && existsb (str_eqb (urllib.scheme p)) urllib.uses_netloc
                        && negb (startswith (urllib.path p) (lit "//"))
                  then lit "//" ++ urllib.netloc p
                       ++ (if urllib.truthy (urllib.path p)
                              && negb (startswith (urllib.path p) (lit "/"))
                           then lit "/" ++ urllib.path p else urllib.path p)
                  else urllib.path p)).
  { destruct (_ || _); [|done].
    repeat constructor; try done. apply Forall_app. by split. }
  revert H2. generalize
    (if urllib.truthy (urllib.netloc p)
        || urllib.truthy (urllib.scheme p)
           && existsb (str_eqb (urllib.scheme p)) urllib.uses_netloc
           && negb (startswith (urllib.path p) (lit "//"))
     then lit "//" ++ urllib.netloc p
          ++ (if urllib.truthy (urllib.path p)
                 && negb (startswith (urllib.path p) (lit "/"))
              then lit "/" ++ urllib.path p else urllib.path p)
     else urllib.path p).
  intros url Hurl.
  assert (H3 : Forall Q (if urllib.truthy (urllib.scheme p)
                         then urllib.scheme p ++ lit ":" ++ url else url)).
  { destruct (urllib.truthy (urllib.scheme p)); [|done].
    apply Forall_app. split; [done|]. by constructor. }
  revert H3. generalize (if urllib.truthy (urllib.scheme p)
                         then urllib.scheme p ++ lit ":" ++ url else url).
  clear url Hurl. intros url Hurl.
  assert (H4 : Forall Q (if urllib.truthy (urllib.query p)
                         then url ++ lit "?" ++ urllib.query p else url)).
  { destruct (urllib.truthy (urllib.query p)); [|done].
    apply Forall_app. split; [done|]. by constructor. }
  revert H4. generalize (if urllib.truthy (urllib.query p)
                         then url ++ lit "?" ++ urllib.query p else url).
  clear url Hurl. intros url Hurl.
  destruct (urllib.truthy (urllib.fragment p)); [|done].
  apply Forall_app. split; [done|]. by constructor.
Qed.

(** X18: on a URL that [urlsplit] takes as it is (no character at or
    below U+0020, an ASCII authority without brackets) and that holds no
    lone surrogate, [_clean_unicode] replaces every character above 128
    by the percent-encoding of its UTF-8 bytes and leaves every other
    character alone.  So a URL without a character above 128 is returned
    as it is, the result holds no character above 128, and cleaning the
    result again, when [urlsplit] takes it too, changes nothing. *)
Theorem clean_unicode_output (u : str) :
  splittable u -> Forall scalar_value u ->
  _clean_unicode u
  = concat (map (fun x => if 128 <? x then urllib.quote [x] else [x]) u)
  /\ (_has_unicode u = false -> _clean_unicode u = u)
  /\ _has_unicode (_clean_unicode u) = false
  /\ (splittable (_clean_unicode u) ->
      _clean_unicode (_clean_unicode u) = _clean_unicode u).
Proof.
  intros [Hchars Hnet] Hu.
  assert (Hform : _clean_unicode u
                  = concat (map (fun x => if 128 <? x then urllib.quote [x]
                                          else [x]) u)).
  { unfold _clean_unicode.
    assert (_has_unicode (urllib.netloc (urllib.urlsplit u)) = false) as ->;
      [|done].
    apply has_unicode_false. eapply Forall_impl; [exact Hnet|].
    intros c Hc. simpl in Hc. lia. }
  assert (Hout : _has_unicode (_clean_unicode u) = false).
  { rewrite Hform. apply has_unicode_false.
    apply Forall_concat, Forall_map.
    eapply Forall_impl; [exact Hu|].
    intros x Hx. simpl.
    destruct (128 <? x) eqn:E; [apply Z.ltb_lt in E|apply Z.ltb_ge in E].
    - apply quote_char_le. destruct Hx; lia.
    - by repeat constructor. }
  split; [done|]. split; [apply clean_unicode_plain|]. split; [done|].
  intros _. by apply clean_unicode_plain.
Qed.

(** X18, on a URL with one character to encode in the path and one in
    the query string. *)
Lemma clean_unicode_output_witness :
  _clean_unicode (lit "http://example.com/caf" ++ [233] ++ lit "?q=" ++ [252])
  = lit "http://example.com/caf%C3%A9?q=%C3%BC"
  /\ _has_unicode
       (_clean_unicode
          (lit "http://example.com/caf" ++ [233] ++ lit "?q=" ++ [252]))
     = false.
Proof.
  destruct (clean_unicode_output
              (lit "http://example.com/caf" ++ [233] ++ lit "?q=" ++ [252]))
    as (Hform & _ & Hout & _).
  - split.
    + apply Forall_forall. intros c Hc. apply list_elem_of_In in Hc.
      vm_compute in Hc. intuition (subst; done).
    + apply Forall_forall. intros c Hc. apply list_elem_of_In in Hc.
      vm_compute in Hc. intuition (subst; done).
  - apply Forall_forall. intros c Hc. apply list_elem_of_In in Hc.
    vm_compute in Hc. unfold scalar_value. intuition (subst; lia).
  - split; [|exact Hout]. rewrite Hform. vm_compute. reflexivity.
Defined.

(** ** The URL check and what follows the path *)

Lemma split_first_app_Some sep l1 l2 a b :
  split_first sep l1 = Some (a, b) ->
  split_first sep (l1 ++ l2) = Some (a, b ++ l2).
Proof.
  revert a b. induction l1 as [|c l1 IH]; intros a b; simpl; [done|].
  destruct (c =? sep); [by intros [= <- <-]|].
  destruct (split_first sep l1) as [[a' b']|]; [|done].
  intros [= <- <-]. by rewrite (IH a' b' eq_refl).
Qed.

Lemma split_first_app_None sep l1 l2 :
  split_first sep l1 = None ->
  split_first sep (l1 ++ l2)
  = match split_first sep l2 with
    | Some (a, b) => Some (l1 ++ a, b)
    | None => None
    end.
Proof.
  induction l1 as [|c l1 IH]; simpl.
  - intros _. by destruct (split_first sep l2) as [[a b]|].
  - destruct (c =? sep); [done|].
    destruct (split_first sep l1) as [[a' b']|]; [done|]. intros _.
    rewrite IH by done. by destruct (split_first sep l2) as [[a b]|].
Qed.

Lemma split_first_absent sep l :
  Forall (fun x => x <> sep) l -> split_first sep l = None.
Proof.
  induction 1 as [|c l Hc Hl IH]; simpl; [done|].
  rewrite (proj2 (Z.eqb_neq c sep)) by done. by rewrite IH.
Qed.

Lemma split_first_pre sep l a b :
  split_first sep l = Some (a, b) -> l = a ++ sep :: b.
Proof.
  revert a b. induction l as [|c l IH]; intros a b; simpl; [done|].
  destruct (c =? sep) eqn:E.
  - apply Z.eqb_eq in E. subst c. by intros [= <- <-].
  - destruct (split_first sep l) as [[a' b']|]; [|done].
    intros [= <- <-]. by rewrite (IH a' b' eq_refl).
Qed.

Lemma netloc_match (rest : str) :
  match rest with
  | 47 :: 47 :: r => urllib.take_netloc r
  | _ => ([], rest)
  end
  = if startswith rest (lit "//") then urllib.take_netloc (drop 2 rest)
    else ([], rest).
Proof.
  destruct rest as [|c1 [|c2 r]]; [done| |].
  - change (startswith [c1] (lit "//")) with ((47 =? c1) && false).
    rewrite andb_false_r.
    destruct c1 as [|p|p]; try done.
    repeat (destruct p as [p|p|]; try done).
  - change (startswith (c1 :: c2 :: r) (lit "//"))
      with ((47 =? c1) && ((47 =? c2) && true)).
    rewrite andb_true_r. simpl drop.
    destruct (decide (c1 = 47)) as [->|H1];
      [destruct (decide (c2 = 47)) as [->|H2]|].
    + done.
    + rewrite (proj2 (Z.eqb_neq 47 c2)) by done. simpl.
      destruct c2 as [|p|p]; try done.
      repeat (destruct p as [p|p|]; try done).
    + rewrite (proj2 (Z.eqb_neq 47 c1)) by done. simpl.
      destruct c1 as [|p|p]; try done.
      repeat (destruct p as [p|p|]; try done).
Qed.

Lemma take_netloc_app r c s :
  c = 63 \/ c = 35 ->
  urllib.take_netloc (r ++ c :: s)
  = (fst (urllib.take_netloc r), snd (urllib.take_netloc r) ++ c :: s).
Proof.
  intros Hc. induction r as [|x r IH].
  - simpl. by destruct Hc as [-> | ->].
  - simpl. destruct ((x =? 47) || (x =? 63) || (x =? 35)); [done|].
    rewrite IH. by destruct (urllib.take_netloc r).
Qed.

Lemma plain_lower c : plain c -> plain (lower_char c).
Proof.
  unfold plain, lower_char. intros [H1 H2].
  destruct ((65 <=? c) && (c <=? 90)) eqn:E; [|done].
  apply andb_true_iff in E as [E1 E2]. apply Z.leb_le in E1, E2. lia.
Qed.

Lemma startswith_app_plain rest c s :
  c = 63 \/ c = 35 ->
  startswith (rest ++ c :: s) (lit "//") = startswith rest (lit "//").
Proof.
  intros Hc. destruct rest as [|c1 [|c2 r]].
  - change (startswith ([] ++ c :: s) (lit "//"))
      with ((47 =? c) && startswith s (lit "/")).
    by destruct Hc as [-> | ->].
  - change (startswith ([c1] ++ c :: s) (lit "//"))
      with ((47 =? c1) && ((47 =? c) && true)).
    change (startswith [c1] (lit "//")) with ((47 =? c1) && false).
    destruct Hc as [-> | ->]; simpl; by rewrite !andb_false_r.
  - done.
Qed.

(** Scheme, authority and path of a URL do not depend on a query string
    or fragment put after it. *)
Lemma urlsplit_suffix (other : str) (c : Z) (s : str) :
  c = 63 \/ c = 35 ->
  Forall plain other ->
  urllib.scheme (urllib.urlsplit (other ++ c :: s))
  = urllib.scheme (urllib.urlsplit other)
  /\ urllib.netloc (urllib.urlsplit (other ++ c :: s))
     = urllib.netloc (urllib.urlsplit other)
  /\ urllib.path (urllib.urlsplit (other ++ c :: s))
     = urllib.path (urllib.urlsplit other).
Proof.
  intros Hc Hother.
  assert (Hc58 : c <> 58) by (destruct Hc; lia).
  assert (Hsc : urllib.scheme_char c = false) by by destruct Hc as [-> | ->].
  (* the scheme *)
  assert (Hscheme :
    urllib.split_scheme (other ++ c :: s)
    = (fst (urllib.split_scheme other),
       snd (urllib.split_scheme other) ++ c :: s)).
  { unfold urllib.split_scheme.
    destruct (split_first 58 other) as [[pre rest]|] eqn:E.
    - rewrite (split_first_app_Some _ _ _ _ _ E).
      destruct pre as [|c0 pre]; [done|].
      by destruct (is_ascii_alpha c0 && _).
    - rewrite (split_first_app_None _ _ _ E). simpl.
      rewrite (proj2 (Z.eqb_neq c 58)) by done.
      destruct (split_first 58 s) as [[a b]|]; [|done].
      destruct (other ++ c :: a) as [|c0 pre] eqn:Ep; [done|].
      change (urllib.scheme_char c0 && forallb urllib.scheme_char pre)
        with (forallb urllib.scheme_char (c0 :: pre)).
      assert (forallb urllib.scheme_char (c0 :: pre) = false) as ->;
        [|by rewrite andb_false_r].
      rewrite <- Ep, forallb_app. simpl. rewrite Hsc. simpl.
      by rewrite andb_false_r. }
  destruct (split_scheme_Forall plain plain_lower other Hother)
    as [_ Hrest].
  unfold urllib.urlsplit. rewrite Hscheme.
  destruct (urllib.split_scheme other) as [sch rest]. simpl in Hrest.
  cbn [fst snd]. rewrite !netloc_match, startswith_app_plain by done.
  (* the authority *)
  assert (Hnet :
    (if startswith rest (lit "//")
     then urllib.take_netloc (drop 2 (rest ++ c :: s))
     else ([], rest ++ c :: s))
    = (fst (if startswith rest (lit "//")
            then urllib.take_netloc (drop 2 rest) else ([], rest)),
       snd (if startswith rest (lit "//")
            then urllib.take_netloc (drop 2 rest) else ([], rest))
       ++ c :: s)).
  { destruct (startswith rest (lit "//")) eqn:Es; [|done].
    apply startswith_spec in Es as [r ->].
    change (drop 2 ((lit "//" ++ r) ++ c :: s)) with (r ++ c :: s).
    change (drop 2 (lit "//" ++ r)) with r.
    by apply take_netloc_app. }
  rewrite Hnet.
  assert (Hurl1 : Forall plain
            (snd (if startswith rest (lit "//")
                  then urllib.take_netloc (drop 2 rest) else ([], rest)))).
  { destruct (startswith rest (lit "//")); [|done].
    apply take_netloc_Forall. by apply Forall_drop. }
  destruct (if startswith rest (lit "//")
            then urllib.take_netloc (drop 2 rest) else ([], rest))
    as [net url1].
  cbn [fst snd] in *.
  (* fragment and query *)
  assert (H35 : split_first 35 url1 = None).
  { apply split_first_absent. eapply Forall_impl; [exact Hurl1|].
    by intros x [_ H]. }
  assert (H63 : split_first 63 url1 = None).
  { apply split_first_absent. eapply Forall_impl; [exact Hurl1|].
    by intros x [H _]. }
  rewrite H35, H63. rewrite (split_first_app_None _ _ _ H35).
  assert (Hq : forall x, split_first 63 (url1 ++ 63 :: x) = Some (url1, x)).
  { intros x. rewrite (split_first_app_None _ _ _ H63). simpl.
    by rewrite app_nil_r. }
  destruct Hc as [-> | ->].
  - change (split_first 35 (63 :: s))
      with (match split_first 35 s with
            | Some (a, b) => Some (63 :: a, b)
            | None => None
            end).
    destruct (split_first 35 s) as [[a b]|]; by rewrite Hq.
  - change (split_first 35 (35 :: s)) with (Some ([] : str, s)).
    cbv beta iota. by rewrite app_nil_r, H63.
Qed.

Section UrlSuffix.

Context `{P : Platform}.

(** X19: the URL check of a literal responder does not look at what
    follows the path: a request URL with a query string or a fragment
    put after it ([?...] or [#...]) gets the same answer as the URL
    without it. *)
Theorem url_check_ignores_suffix (u other s : str) (c : Z) :
  c = 63 \/ c = 35 ->
  Forall (fun x => x <> 63 /\ x <> 35) other ->
  _url_matches (UStr u) (other ++ c :: s) = _url_matches (UStr u) other.
Proof.
  intros Hc Hother.
  destruct (urlsplit_suffix other c s Hc Hother) as (Hs & Hn & Hp).
  by apply url_check_ignores_query_and_fragment.
Qed.

End UrlSuffix.

(** X19, on a request with a query string and a fragment. *)
Lemma url_check_ignores_suffix_witness :
  _url_matches (UStr (lit "http://example.com/a"))
    (lit "http://example.com/a?x=1#top") = true.
Proof.
  rewrite (url_check_ignores_suffix (lit "http://example.com/a")
             (lit "http://example.com/a") (lit "x=1#top") 63).
  - reflexivity.
  - by left.
  - repeat constructor; discriminate.
Defined.

(** ** The default path *)

Lemma lower_char_idem c : lower_char (lower_char c) = lower_char c.
Proof.
  unfold lower_char.
  destruct ((65 <=? c) && (c <=? 90)) eqn:E; [|by rewrite E].
  apply andb_true_iff in E as [H1 H2].
  apply Z.leb_le in H1, H2.
  assert ((65 <=? c + 32) && (c + 32 <=? 90) = false) as ->; [|done].
  apply andb_false_iff. right. apply Z.leb_gt. lia.
Qed.

Lemma is_ascii_alpha_lower c :
  is_ascii_alpha c = true -> is_ascii_alpha (lower_char c) = true.
Proof.
  unfold is_ascii_alpha, lower_char. intros H.
  destruct ((65 <=? c) && (c <=? 90)) eqn:E; [|by rewrite E].
  apply andb_true_iff in E as [E1 E2]. apply Z.leb_le in E1, E2.
  apply orb_true_iff. right. apply andb_true_iff.
  split; apply Z.leb_le; lia.
Qed.

Lemma scheme_char_lower c :
  urllib.scheme_char c = true -> urllib.scheme_char (lower_char c) = true.
Proof.
  unfold urllib.scheme_char. intros H.
  destruct (is_ascii_alpha c) eqn:Ea.
  - by rewrite (is_ascii_alpha_lower c Ea).
  - assert (lower_char c = c) as ->; [|by rewrite Ea].
    unfold lower_char, is_ascii_alpha in *.
    apply orb_false_iff in Ea as [Ea _]. by rewrite Ea.
Qed.

Lemma split_first_before sep l a b :
  split_first sep l = Some (a, b) -> Forall (fun x => x <> sep) a.
Proof.
  revert a b. induction l as [|c l IH]; intros a b; simpl; [done|].
  destruct (c =? sep) eqn:E.
  - intros [= <- <-]. constructor.
  - destruct (split_first sep l) as [[a' b']|]; [|done].
    intros [= <- <-]. apply Z.eqb_neq in E. constructor; [done|].
    by apply (IH a' b').
Qed.

Lemma split_scheme_shape u :
  fst (urllib.split_scheme u) = []
  \/ exists c pre,
       fst (urllib.split_scheme u) = map lower_char (c :: pre)
       /\ is_ascii_alpha c = true
       /\ forallb urllib.scheme_char (c :: pre) = true
       /\ Forall (fun x => x <> 58) (c :: pre).
Proof.
  unfold urllib.split_scheme.
  destruct (split_first 58 u) as [[[|c pre] rest]|] eqn:E; try by left.
  destruct (is_ascii_alpha c && forallb urllib.scheme_char (c :: pre)) eqn:Hv;
    [|by left].
  right. exists c, pre. apply andb_true_iff in Hv as [Ha Hs].
  split; [done|]. split; [done|]. split; [done|].
  by apply (split_first_before _ _ _ _ E).
Qed.

(** The scheme [urlsplit] finds is found again when a URL is put
    together from it. *)
Lemma split_scheme_again u rest' :
  fst (urllib.split_scheme u) <> [] ->
  urllib.split_scheme (fst (urllib.split_scheme u) ++ 58 :: rest')
  = (fst (urllib.split_scheme u), rest').
Proof.
  destruct (split_scheme_shape u) as [->|(c & pre & -> & Ha & Hs & Hno)];
    [done|]. intros _.
  assert (Hno' : split_first 58 (map lower_char (c :: pre)) = None).
  { apply split_first_absent. apply Forall_map.
    eapply Forall_impl; [exact Hno|]. intros x Hx. simpl.
    unfold lower_char. destruct ((65 <=? x) && (x <=? 90)) eqn:Ex; [|done].
    apply andb_true_iff in Ex as [E1 E2]. apply Z.leb_le in E1, E2. lia. }
  unfold urllib.split_scheme.
  rewrite (split_first_app_None _ _ _ Hno').
  change (split_first 58 (58 :: rest')) with (Some ([] : str, rest')).
  cbv beta iota. rewrite app_nil_r.
  change (map lower_char (c :: pre))
    with (lower_char c :: map lower_char pre) at 1.
  cbv beta iota.
  assert (is_ascii_alpha (lower_char c)
          && forallb urllib.scheme_char (lower_char c :: map lower_char pre)
          = true) as ->.
  { apply andb_true_iff. split; [by apply is_ascii_alpha_lower|].
    change (lower_char c :: map lower_char pre)
      with (map lower_char (c :: pre)).
    apply forallb_forall. intros x Hx. apply in_map_iff in Hx as (y & <- & Hy).
    apply scheme_char_lower. by apply (proj1 (forallb_forall _ _) Hs). }
  f_equal.
  change (lower_char c :: map lower_char pre)
    with (map lower_char (c :: pre)).
  rewrite map_map. apply map_ext. intros x. apply lower_char_idem.
Qed.

Lemma split_scheme_slash t :
  urllib.split_scheme (47 :: t) = ([], 47 :: t).
Proof.
  unfold urllib.split_scheme. simpl.
  by destruct (split_first 58 t) as [[a b]|].
Qed.

Lemma take_netloc_fst s : Forall no_delimiter (fst (urllib.take_netloc s)).
Proof.
  induction s as [|c s IH]; simpl; [constructor|].
  destruct ((c =? 47) || (c =? 63) || (c =? 35)) eqn:E; [constructor|].
  destruct (urllib.take_netloc s) as [n r]. simpl in *. by constructor.
Qed.

Lemma take_netloc_stop n t :
  Forall no_delimiter n -> urllib.take_netloc (n ++ 47 :: t) = (n, 47 :: t).
Proof.
  induction 1 as [|c n Hc Hn IH]; [done|].
  simpl. unfold no_delimiter in Hc. rewrite Hc. by rewrite IH.
Qed.

Lemma urlsplit_netloc u :
  Forall no_delimiter (urllib.netloc (urllib.urlsplit u)).
Proof.
  unfold urllib.urlsplit.
  destruct (urllib.split_scheme u) as [sch rest].
  rewrite netloc_match.
  assert (H : Forall no_delimiter
                (fst (if startswith rest (lit "//")
                      then urllib.take_netloc (drop 2 rest)
                      else ([], rest)))).
  { destruct (startswith rest (lit "//")); [apply take_netloc_fst|constructor]. }
  destruct (if startswith rest (lit "//")
            then urllib.take_netloc (drop 2 rest) else ([], rest))
    as [net url1].
  destruct (match split_first 35 url1 with
            | Some (a, b) => (a, b) | None => (url1, []) end) as [url2 frag].
  by destruct (match split_first 63 url2 with
               | Some (a, b) => (a, b) | None => (url2, []) end).
Qed.

Lemma urlsplit_scheme u :
  urllib.scheme (urllib.urlsplit u) = fst (urllib.split_scheme u).
Proof.
  unfold urllib.urlsplit.
  destruct (urllib.split_scheme u) as [sch rest].
  destruct (match rest with 47 :: 47 :: r => urllib.take_netloc r
            | _ => ([], rest) end) as [net url1].
  destruct (match split_first 35 url1 with
            | Some (a, b) => (a, b) | None => (url1, []) end) as [url2 frag].
  by destruct (match split_first 63 url2 with
               | Some (a, b) => (a, b) | None => (url2, []) end).
Qed.

(** What starts with a slash has a path. *)
Lemma path_of_slash sch net t :
  urllib.path
    (let '(url, frag) :=
       match split_first 35 (47 :: t) with
       | Some (a, b) => (a, b)
       | None => (47 :: t, [])
       end in
     let '(url, qry) :=
       match split_first 63 url with
       | Some (a, b) => (a, b)
       | None => (url, [])
       end in
     urllib.mkSplit sch net url qry frag) <> [].
Proof.
  simpl split_first.
  destruct (split_first 35 t) as [[a b]|]; simpl;
    match goal with
    | |- context [split_first 63 ?x] =>
        by destruct (split_first 63 x) as [[a' b']|]
    end.
Qed.

Lemma urlsplit_rebuilt u q f :
  urllib.path
    (urllib.urlsplit
       (urllib.urlunsplit
          (urllib.mkSplit (urllib.scheme (urllib.urlsplit u))
             (urllib.netloc (urllib.urlsplit u)) (lit "/") q f))) <> [].
Proof.
  pose proof (urlsplit_netloc u) as Hnet.
  rewrite urlsplit_scheme.
  set (sch := fst (urllib.split_scheme u)).
  set (net := urllib.netloc (urllib.urlsplit u)) in *.
  set (tl := (if urllib.truthy q then lit "?" ++ q else [])
             ++ (if urllib.truthy f then lit "#" ++ f else [])).
  assert (Htl : startswith (47 :: tl) (lit "//") = false).
  { subst tl. destruct (urllib.truthy q); [done|].
    by destruct (urllib.truthy f). }
  set (cond := urllib.truthy net
               || urllib.truthy sch
                  && existsb (str_eqb sch) urllib.uses_netloc
                  && negb (startswith (lit "/") (lit "//"))).
  assert (Hun : urllib.urlunsplit (urllib.mkSplit sch net (lit "/") q f)
                = (if urllib.truthy sch then sch ++ lit ":" else [])
                  ++ (if cond then lit "//" ++ net ++ 47 :: tl
                      else 47 :: tl)).
  { unfold urllib.urlunsplit. cbv zeta.
    cbn [urllib.scheme urllib.netloc urllib.path urllib.query urllib.fragment].
    fold cond.
    change (urllib.truthy (lit "/") && negb (startswith (lit "/") (lit "/")))
      with false. cbv iota.
    subst tl.
    destruct (urllib.truthy sch), cond, (urllib.truthy q),
      (urllib.truthy f); simpl; rewrite <- ?app_assoc; simpl;
      rewrite ?app_nil_r; try done;
      repeat (rewrite <- ?app_assoc; simpl); done. }
  rewrite Hun. clear Hun.
  set (Y := if cond then lit "//" ++ net ++ 47 :: tl else 47 :: tl).
  assert (Hsplit : urllib.split_scheme
                     ((if urllib.truthy sch then sch ++ lit ":" else []) ++ Y)
                   = (sch, Y)).
  { destruct sch as [|c0 sch0] eqn:Es.
    - simpl. subst Y. destruct cond; apply split_scheme_slash.
    - simpl urllib.truthy. cbv iota. rewrite <- Es.
      rewrite <- app_assoc. subst sch. apply split_scheme_again.
      by rewrite Es. }
  unfold urllib.urlsplit. rewrite Hsplit. rewrite netloc_match.
  assert (Hn : (if startswith Y (lit "//")
                then urllib.take_netloc (drop 2 Y) else ([], Y))
               = (if cond then net else [], 47 :: tl)).
  { subst Y. destruct cond.
    - change (startswith (lit "//" ++ net ++ 47 :: tl) (lit "//")) with true.
      change (drop 2 (lit "//" ++ net ++ 47 :: tl)) with (net ++ 47 :: tl).
      cbv iota. by apply take_netloc_stop.
    - by rewrite Htl. }
  rewrite Hn. apply path_of_slash.
Qed.

Lemma split_first_none_absent sep l :
  split_first sep l = None -> Forall (fun x => x <> sep) l.
Proof.
  induction l as [|c l IH]; simpl; [constructor|].
  destruct (c =? sep) eqn:E; [done|]. apply Z.eqb_neq in E.
  destruct (split_first sep l) as [[a b]|]; [done|]. intros _.
  constructor; [done|]. by apply IH.
Qed.

Lemma urlsplit_query u :
  Forall (fun x => x <> 35) (urllib.query (urllib.urlsplit u)).
Proof.
  unfold urllib.urlsplit.
  destruct (urllib.split_scheme u) as [sch rest].
  destruct (match rest with 47 :: 47 :: r => urllib.take_netloc r
            | _ => ([], rest) end) as [net url1].
  assert (H2 : Forall (fun x => x <> 35)
                 (fst (match split_first 35 url1 with
                       | Some (a, b) => (a, b) | None => (url1, []) end))).
  { destruct (split_first 35 url1) as [[a b]|] eqn:E; simpl.
    - by apply (split_first_before _ _ _ _ E).
    - by apply split_first_none_absent. }
  destruct (match split_first 35 url1 with
            | Some (a, b) => (a, b) | None => (url1, []) end) as [url2 frag].
  simpl in H2.
  destruct (split_first 63 url2) as [[a b]|] eqn:E; simpl; [|constructor].
  by destruct (split_first_Forall _ _ _ _ _ E H2).
Qed.

Lemma truthy_false (s : str) : urllib.truthy s = false -> s = [].
Proof. by destruct s. Qed.

(** A URL put together with the path [/] splits into what it was put
    together from. *)
Lemma urlsplit_default_path u q f :
  Forall (fun x => x <> 35) q ->
  urllib.urlsplit
    (urllib.urlunsplit
       (urllib.mkSplit (urllib.scheme (urllib.urlsplit u))
          (urllib.netloc (urllib.urlsplit u)) (lit "/") q f))
  = urllib.mkSplit (urllib.scheme (urllib.urlsplit u))
      (urllib.netloc (urllib.urlsplit u)) (lit "/") q f.
Proof.
  intros Hq.
  pose proof (urlsplit_netloc u) as Hnet.
  rewrite urlsplit_scheme.
  set (sch := fst (urllib.split_scheme u)).
  set (net := urllib.netloc (urllib.urlsplit u)) in *.
  set (tl := (if urllib.truthy q then lit "?" ++ q else [])
             ++ (if urllib.truthy f then lit "#" ++ f else [])).
  assert (Htl : startswith (47 :: tl) (lit "//") = false).
  { subst tl. destruct (urllib.truthy q); [done|].
    by destruct (urllib.truthy f). }
  set (cond := urllib.truthy net
               || urllib.truthy sch
                  && existsb (str_eqb sch) urllib.uses_netloc
                  && negb (startswith (lit "/") (lit "//"))).
  assert (Hun : urllib.urlunsplit (urllib.mkSplit sch net (lit "/") q f)
                = (if urllib.truthy sch then sch ++ lit ":" else [])
                  ++ (if cond then lit "//" ++ net ++ 47 :: tl
                      else 47 :: tl)).
  { unfold urllib.urlunsplit. cbv zeta.
    cbn [urllib.scheme urllib.netloc urllib.path urllib.query urllib.fragment].
    fold cond.
    change (urllib.truthy (lit "/") && negb (startswith (lit "/") (lit "/")))
      with false. cbv iota.
    subst tl.
    destruct (urllib.truthy sch), cond, (urllib.truthy q),
      (urllib.truthy f); simpl; rewrite <- ?app_assoc; simpl;
      rewrite ?app_nil_r; try done;
      repeat (rewrite <- ?app_assoc; simpl); done. }
  rewrite Hun. clear Hun.
  set (Y := if cond then lit "//" ++ net ++ 47 :: tl else 47 :: tl).
  assert (Hsplit : urllib.split_scheme
                     ((if urllib.truthy sch then sch ++ lit ":" else []) ++ Y)
                   = (sch, Y)).
  { destruct sch as [|c0 sch0] eqn:Es.
    - simpl. subst Y. destruct cond; apply split_scheme_slash.
    - simpl urllib.truthy. cbv iota. rewrite <- Es.
      rewrite <- app_assoc. subst sch. apply split_scheme_again.
      by rewrite Es. }
  unfold urllib.urlsplit. rewrite Hsplit. rewrite netloc_match.
  assert (Hn : (if startswith Y (lit "//")
                then urllib.take_netloc (drop 2 Y) else ([], Y))
               = (net, 47 :: tl)).
  { subst Y. destruct cond eqn:Ec.
    - change (startswith (lit "//" ++ net ++ 47 :: tl) (lit "//")) with true.
      change (drop 2 (lit "//" ++ net ++ 47 :: tl)) with (net ++ 47 :: tl).
      cbv iota. by apply take_netloc_stop.
    - rewrite Htl. subst cond. apply orb_false_iff in Ec as [Ec _].
      by rewrite (truthy_false _ Ec). }
  rewrite Hn.
  assert (Hq63 : split_first 35 (47 :: (if urllib.truthy q then lit "?" ++ q else []))
                 = None).
  { apply split_first_absent. constructor; [done|].
    destruct (urllib.truthy q); [|constructor].
    constructor; [done|exact Hq]. }
  assert (Hfrag :
    match split_first 35 (47 :: tl) with
    | Some (a, b) => (a, b)
    | None => (47 :: tl, [])
    end = (47 :: (if urllib.truthy q then lit "?" ++ q else []), f)).
  { subst tl.
    change (47 :: (if urllib.truthy q then lit "?" ++ q else [])
                  ++ (if urllib.truthy f then lit "#" ++ f else []))
      with ((47 :: (if urllib.truthy q then lit "?" ++ q else []))
            ++ (if urllib.truthy f then lit "#" ++ f else [])).
    rewrite (split_first_app_None _ _ _ Hq63).
    destruct (urllib.truthy f) eqn:Ef.
    - change (split_first 35 (lit "#" ++ f)) with (Some ([] : str, f)).
      cbv beta iota. by rewrite app_nil_r.
    - rewrite (truthy_false _ Ef). simpl split_first. cbv beta iota.
      by rewrite app_nil_r. }
  rewrite Hfrag. cbv beta iota.
  assert (Hqry :
    match split_first 63 (47 :: (if urllib.truthy q then lit "?" ++ q else []))
    with
    | Some (a, b) => (a, b)
    | None => (47 :: (if urllib.truthy q then lit "?" ++ q else []), [])
    end = (lit "/", q)).
  { destruct (urllib.truthy q) eqn:Eq; [done|].
    by rewrite (truthy_false _ Eq). }
  by rewrite Hqry.
Qed.

Lemma lower_char_gt c : 32 < c -> 32 < lower_char c.
Proof. unfold lower_char. intros H. destruct (_ && _); lia. Qed.

Section DefaultPath.

Context `{P : Platform}.

(** X20: on a literal URL that [urlsplit] takes as it is (no character
    at or below U+0020, an ASCII authority without brackets),
    [_ensure_url_default_path] returns the URL itself when it has a path,
    and otherwise a URL that splits into the same scheme, authority,
    query string and fragment with the path [/].  The URL returned has a
    path and is again one [urlsplit] takes as it is, so applying the
    function a second time changes nothing. *)
Theorem ensure_url_default_path_idempotent (u : str) :
  splittable u ->
  exists s,
    _ensure_url_default_path (UStr u) = UStr s
    /\ (urllib.path (urllib.urlsplit u) <> [] -> s = u)
    /\ (urllib.path (urllib.urlsplit u) = [] ->
        urllib.urlsplit s
        = urllib.mkSplit (urllib.scheme (urllib.urlsplit u))
            (urllib.netloc (urllib.urlsplit u)) (lit "/")
            (urllib.query (urllib.urlsplit u))
            (urllib.fragment (urllib.urlsplit u)))
    /\ urllib.path (urllib.urlsplit s) <> []
    /\ splittable s
    /\ _ensure_url_default_path (UStr s) = UStr s.
Proof.
  intros [Hchars Hnet].
  unfold _ensure_url_default_path at 1. unfold str_eqb.
  case_bool_decide as Hp.
  - eexists. split; [reflexivity|].
    pose proof (urlsplit_default_path u _ (urllib.fragment (urllib.urlsplit u))
                  (urlsplit_query u)) as Hsplit.
    split; [by intros H|]. split; [done|].
    split; [by rewrite Hsplit|]. split.
    + split; [|by rewrite Hsplit].
      destruct (urlsplit_Forall (fun c => 32 < c) lower_char_gt u Hchars)
        as (Hs & Hn & _ & Hq & Hf).
      apply urlunsplit_Forall; cbn [urllib.scheme urllib.netloc urllib.path
                                     urllib.query urllib.fragment];
        try done; try lia.
      by repeat constructor.
    + unfold _ensure_url_default_path, str_eqb.
      rewrite bool_decide_eq_false_2; [done|]. by rewrite Hsplit.
  - exists u. split; [done|]. split; [done|]. split; [done|].
    split; [done|]. split; [done|].
    unfold _ensure_url_default_path, str_eqb.
    by rewrite bool_decide_eq_false_2.
Qed.

End DefaultPath.

(** X20, on a URL with a query string and a fragment and no path. *)
Lemma ensure_url_default_path_idempotent_witness :
  _ensure_url_default_path (UStr (lit "http://example.com?a=1#top"))
  = UStr (lit "http://example.com/?a=1#top")
  /\ _ensure_url_default_path (UStr (lit "http://example.com/?a=1#top"))
     = UStr (lit "http://example.com/?a=1#top").
Proof.
  destruct (ensure_url_default_path_idempotent
              (lit "http://example.com?a=1#top"))
    as (s & Hs & _ & _ & _ & _ & Hidem).
  - split; repeat constructor; done.
  - assert (s = lit "http://example.com/?a=1#top") as ->.
    { assert (H : _ensure_url_default_path
                    (UStr (lit "http://example.com?a=1#top"))
                  = UStr (lit "http://example.com/?a=1#top")) by reflexivity.
      rewrite H in Hs. by injection Hs. }
    split; [exact Hs|exact Hidem].
Defined.

(** ** Counting calls by URL *)

Section CountByUrl.

Context `{P : Platform}.

(** X21: [assert_call_count] compares with the URL after giving it its
    default path, so it counts the same calls for a URL written without
    a path and for the URL with the path [/] added, and succeeds for the
    one exactly when it succeeds for the other. *)
Theorem assert_call_count_default_path (st : State) (u : str) (count : Z) :
  let u' := url_text (_ensure_url_default_path (UStr u)) in
  calls_to st u' = calls_to st u
  /\ (assert_call_count st u' count = Ok true
      <-> assert_call_count st u count = Ok true).
Proof.
  intros u'.
  assert (He : _ensure_url_default_path (UStr u')
               = _ensure_url_default_path (UStr u)).
  { subst u'.
    destruct (_ensure_url_default_path (UStr u)) as [s'|p] eqn:E.
    - cbn [url_text].
      assert (Hpath : urllib.path (urllib.urlsplit s') <> []).
      { revert E. unfold _ensure_url_default_path, str_eqb.
        case_bool_decide as Hp; intros [= <-]; [apply urlsplit_rebuilt|done]. }
      unfold _ensure_url_default_path, str_eqb.
      by rewrite bool_decide_eq_false_2.
    - revert E. unfold _ensure_url_default_path.
      by destruct (str_eqb _ _). }
  assert (Hc : calls_to st u' = calls_to st u).
  { unfold calls_to. by rewrite He. }
  split; [done|]. unfold assert_call_count. rewrite Hc.
  by destruct (Z.of_nat (calls_to st u) =? count).
Qed.

End CountByUrl.

(** X21, after one request for ["http://example.com/"]. *)
Lemma assert_call_count_default_path_witness :
  assert_call_count Cases.answered (lit "http://example.com") 1 = Ok true
  /\ assert_call_count Cases.answered (lit "http://example.com/") 1 = Ok true.
Proof.
  destruct (assert_call_count_default_path Cases.answered
              (lit "http://example.com") 1) as [_ H].
  split; [reflexivity|]. apply H. reflexivity.
Defined.
